(** * Car-racing environment: track finalisation and the episode state machine

    A shallow embedding of [src/movement_primitives/car_racing.py].

    Conventions of the embedding.
    - Python floats are idealised as exact rationals ([Q]); equalities between
      computed rewards are therefore stated with [==] ([Qeq]).
    - [math.cos], [math.sin], [np.sqrt], [math.pi], the builtin [float] and the
      heading-controller loop that walks from checkpoint to checkpoint are
      section variables: nothing proved below depends on what they compute.
    - The rigid-body backend is an oracle: one simulated frame is given by the
      contact callbacks it fires and the hull position it reports.
    - Python exceptions are values of [exn]; a computation returns [outcome]. *)

From Stdlib Require Import ZArith QArith Qabs Qround List Ascii String Bool Lia.
Import ListNotations.

Set Implicit Arguments.

(** ** Python runtime *)

Module Py.

Inductive exn : Type :=
| IndexError | KeyError | NameError | ValueError | AttributeError
| ZeroDivisionError | FileNotFoundError | AssertionError.

Inductive outcome (A : Type) : Type :=
| Ok (a : A)
| Raise (e : exn).
Arguments Ok {A} a.
Arguments Raise {A} e.

Definition bind {A B} (m : outcome A) (k : A -> outcome B) : outcome B :=
  match m with Ok a => k a | Raise e => Raise e end.

Definition is_ok {A} (m : outcome A) : bool :=
  match m with Ok _ => true | Raise _ => false end.

(** [of_option e o]: a lookup that raises [e] when it finds nothing. *)
Definition of_option {A} (e : exn) (o : option A) : outcome A :=
  match o with Some a => Ok a | None => Raise e end.

(** [len(l)] as a Python int. *)
Definition len {A} (l : list A) : Z := Z.of_nat (List.length l).

(** [l[i]] with Python's negative indices. *)
Definition index {A} (l : list A) (i : Z) : outcome A :=
  if (0 <=? i)%Z then of_option IndexError (nth_error l (Z.to_nat i))
  else if (- len l <=? i)%Z then of_option IndexError (nth_error l (Z.to_nat (len l + i)))
  else Raise IndexError.

Fixpoint update {A} (l : list A) (n : nat) (v : A) : option (list A) :=
  match l, n with
  | [], _ => None
  | _ :: t, O => Some (v :: t)
  | h :: t, S n' => option_map (cons h) (update t n' v)
  end.

(** [l[i] = v]. *)
Definition set_index {A} (l : list A) (i : Z) (v : A) : outcome (list A) :=
  if (0 <=? i)%Z then of_option IndexError (update l (Z.to_nat i) v)
  else if (- len l <=? i)%Z then of_option IndexError (update l (Z.to_nat (len l + i)) v)
  else Raise IndexError.

(** A slice bound: clamp into [0, len], counting a negative bound from the end. *)
Definition clamp (n : Z) (b : Z) : Z :=
  if (b <? 0)%Z then Z.max 0 (n + b) else Z.min n b.

(** [l[lo:hi]]; an omitted bound is [None]. *)
Definition slice {A} (l : list A) (lo hi : option Z) : list A :=
  let n := len l in
  let a := match lo with Some b => clamp n b | None => 0%Z end in
  let b := match hi with Some b => clamp n b | None => n end in
  firstn (Z.to_nat (b - a)) (skipn (Z.to_nat a) l).

(** [range(a, b)]. *)
Definition range (a b : Z) : list Z :=
  map (fun k => (a + Z.of_nat k)%Z) (seq 0 (Z.to_nat (b - a))).

(** Truth value of an optional int: [None] and [0] are false. *)
Definition truthy (v : option Z) : bool :=
  match v with None => false | Some n => negb (n =? 0)%Z end.

(** [np.sign]. *)
Definition sign (q : Q) : Q :=
  match Qnum q with Z0 => 0 | Zpos _ => 1 | Zneg _ => -1 end.

Definition Qltb (a b : Q) : bool := negb (Qle_bool b a).
Definition Qgtb (a b : Q) : bool := Qltb b a.

End Py.

Import Py.

Notation "x <- m ;; k" := (Py.bind m (fun x => k))
  (at level 61, m at next level, right associativity).
Notation "' pat <- m ;; k" := (Py.bind m (fun x => match x with pat => k end))
  (at level 61, pat pattern, m at next level, right associativity).

(** ** Module-level constants *)

Definition SCALE : Q := 10.
Definition TRACK_RAD : Q := 900 / SCALE.
Definition PLAYFIELD : Q := 2000 / SCALE.
Definition FPS : Q := 50.
Definition TRACK_DETAIL_STEP : Q := 21 / SCALE.
Definition TRACK_TURN_RATE : Q := 31 # 100.
Definition TRACK_WIDTH : Q := (40 / SCALE) * (125 # 100).
Definition BORDER : Q := 8 / SCALE.
Definition BORDER_MIN_COUNT : nat := 4.

Definition sim_params_path_v1 : string := "./simulation_parameters/track_v1.txt".
Definition sim_params_path_v2 : string := "./simulation_parameters/track_v2.txt".
Definition sim_params_path_v3 : string := "./simulation_parameters/track_v3.txt".
Definition sim_params_path_v4 : string := "./simulation_parameters/track_v4.txt".
Definition sim_params_path_v5 : string := "./simulation_parameters/track_v5.txt".

(** ** The scenario table [corners] *)

(** A scenario identifier is a Python int or [None]. *)
Definition scenario_id : Type := option Z.

(** One row [[x, y, (vel_x, vel_y), angle, SCALE, track_params]]; the row of
    the key [None] has four entries only, so its last two are absent. *)
Record ScenarioEntry : Type := mkScenario {
  tile_start : Z;
  tile_end : Z;
  init_vel : Q * Q;
  add_angle : option Q;
  entry_scale : option Q;
  entry_path : option string
}.

Definition row (a b : Z) (v : Q * Q) (ang : Q) (sc : Q) (p : string) : ScenarioEntry :=
  mkScenario a b v (Some ang) (Some sc) (Some p).

Definition corners_table : list (scenario_id * ScenarioEntry) :=
  [ (Some 30%Z, row 310 348 (364 # 10, 389 # 10) 0 10 sim_params_path_v1);
    (Some 40%Z, row 0 35 (111 # 10, 462 # 10) 0 10 sim_params_path_v1);
    (Some 50%Z, row 228 275 (46966 # 1000, 2439 # 100) 0 10 sim_params_path_v3);
    (Some 60%Z, row 282 333 (493 # 10, - (111 # 10)) (- (6 # 100)) 10 sim_params_path_v1);
    (Some 80%Z, row 116 169 (0, 0) (1 # 10) 10 sim_params_path_v3);
    (Some 85%Z, row 58 125 (- (363 # 10), 375 # 10) 0 10 sim_params_path_v1);
    (Some 90%Z, row 50 111 (- (445 # 10), 345 # 10) 0 10 sim_params_path_v2);
    (Some 100%Z, row 281 345 (72 # 10, - (525 # 10)) 0 14 sim_params_path_v1);
    (Some 110%Z, row 250 297 (521 # 10, - (239 # 10)) (- (45 # 1000)) 10 sim_params_path_v2);
    (Some 130%Z, row 128 181 (- (355 # 10), 77 # 10) (- (45 # 1000)) 10 sim_params_path_v2);
    (Some 135%Z, row 145 210 (0, 0) (- (19 # 100)) 10 sim_params_path_v3);
    (Some 140%Z, row 118 181 (0, 0) (2 # 100) 10 sim_params_path_v4);
    (Some 145%Z, row 83 142 (0, 0) (- (22 # 100)) 10 sim_params_path_v3);
    (Some 147%Z, row 252 310 (0, 0) (- (185 # 1000)) 10 sim_params_path_v4);
    (Some 150%Z, row 185 250 (0, 0) (- (85 # 1000)) 10 sim_params_path_v4);
    (Some 160%Z, row 0 110 (0, 0) (- (4 # 100)) 10 sim_params_path_v4);
    (None, mkScenario 0 (-1) (0, 0) None None None);
    (Some 1%Z, row 0 (-1) (0, 0) 0 10 sim_params_path_v1);
    (Some 2%Z, row 0 (-1) (0, 0) 0 10 sim_params_path_v2);
    (Some 3%Z, row 0 (-1) (0, 0) 0 10 sim_params_path_v3);
    (Some 4%Z, row 0 (-1) (0, 0) 0 10 sim_params_path_v4);
    (Some 5%Z, row 0 (-1) (0, 0) 0 10 sim_params_path_v5) ].

Definition id_eqb (a b : scenario_id) : bool :=
  match a, b with
  | None, None => true
  | Some x, Some y => (x =? y)%Z
  | _, _ => false
  end.

Fixpoint assoc (k : scenario_id) (t : list (scenario_id * ScenarioEntry))
  : option ScenarioEntry :=
  match t with
  | [] => None
  | (k', e) :: t' => if id_eqb k k' then Some e else assoc k t'
  end.

(** [corner_num in corners]. *)
Definition in_corners (k : scenario_id) : bool :=
  match assoc k corners_table with Some _ => true | None => false end.

(** [corners[k]]. *)
Definition corners (k : scenario_id) : outcome ScenarioEntry :=
  of_option KeyError (assoc k corners_table).

(** The module-level name [corner_num]: bound only by the [__main__] block.
    [None] is an unbound name, [Some v] a name bound to [v]. *)
Definition global_binding : Type := option scenario_id.

Definition read_global (g : global_binding) : outcome scenario_id :=
  of_option NameError g.

(** ** Data model *)

(** A generation waypoint [(alpha, x, y)]. *)
Definition Checkpoint : Type := (Q * Q * Q)%type.

(** A centreline sample [(alpha, beta, x, y)]. *)
Record TrackPoint : Type := mkPoint { alpha : Q; beta : Q; px : Q; py : Q }.

Definition Colour : Type := (Q * Q * Q)%type.
Definition Quad : Type := list (Q * Q).

(** A road body with the attributes [_create_track] attaches to it. *)
Record RoadTile : Type := mkTile {
  idx : Z;
  road_visited : bool;
  road_friction : Q;
  color : Colour;
  vertices : Quad
}.

(** The car is a collaborator ([car_dynamics]); the environment reads its hull
    position and the contact listener maintains each wheel's [tiles] set, kept
    here as a list of positions in [road]. *)
Record Car : Type := mkCar {
  init_angle : Q;
  init_add_angle : option Q;
  hull_position : Q * Q;
  wheel_tiles : list (list nat)
}.

Record FrictionDetector : Type := mkDetector {
  lap_complete_percent : Q;
  (** the attribute [env_new_lap] of the listener itself; [false] while unset *)
  env_new_lap : bool
}.

(** What the code prints. *)
Inductive Message : Type :=
| MsgTrackGeneration (i1 i2 tiles : Z)
| MsgRetry
| MsgNotIncluded.

Record CarRacing : Type := mkEnv {
  corner_num : scenario_id;
  sim_params_path : option string;
  domain_randomize : bool;
  verbose : bool;
  road_color : Colour;
  contactListener_keepref : FrictionDetector;
  road : list RoadTile;
  road_poly : list (Quad * Colour);
  car : option Car;
  reward : Q;
  prev_reward : Q;
  new_lap : bool;
  tile_visited_count : Z;
  t : Q;
  track : list TrackPoint;
  start_alpha : option Q;
  stdout : list Message
}.

Definition set_road_color v e := mkEnv (corner_num e) (sim_params_path e) (domain_randomize e) (verbose e)
  v (contactListener_keepref e) (road e) (road_poly e) (car e) (reward e) (prev_reward e)
  (new_lap e) (tile_visited_count e) (t e) (track e) (start_alpha e) (stdout e).
Definition set_listener v e := mkEnv (corner_num e) (sim_params_path e) (domain_randomize e) (verbose e)
  (road_color e) v (road e) (road_poly e) (car e) (reward e) (prev_reward e)
  (new_lap e) (tile_visited_count e) (t e) (track e) (start_alpha e) (stdout e).
Definition set_road v e := mkEnv (corner_num e) (sim_params_path e) (domain_randomize e) (verbose e)
  (road_color e) (contactListener_keepref e) v (road_poly e) (car e) (reward e) (prev_reward e)
  (new_lap e) (tile_visited_count e) (t e) (track e) (start_alpha e) (stdout e).
Definition set_road_poly v e := mkEnv (corner_num e) (sim_params_path e) (domain_randomize e) (verbose e)
  (road_color e) (contactListener_keepref e) (road e) v (car e) (reward e) (prev_reward e)
  (new_lap e) (tile_visited_count e) (t e) (track e) (start_alpha e) (stdout e).
Definition set_car v e := mkEnv (corner_num e) (sim_params_path e) (domain_randomize e) (verbose e)
  (road_color e) (contactListener_keepref e) (road e) (road_poly e) v (reward e) (prev_reward e)
  (new_lap e) (tile_visited_count e) (t e) (track e) (start_alpha e) (stdout e).
Definition set_reward v e := mkEnv (corner_num e) (sim_params_path e) (domain_randomize e) (verbose e)
  (road_color e) (contactListener_keepref e) (road e) (road_poly e) (car e) v (prev_reward e)
  (new_lap e) (tile_visited_count e) (t e) (track e) (start_alpha e) (stdout e).
Definition set_prev_reward v e := mkEnv (corner_num e) (sim_params_path e) (domain_randomize e) (verbose e)
  (road_color e) (contactListener_keepref e) (road e) (road_poly e) (car e) (reward e) v
  (new_lap e) (tile_visited_count e) (t e) (track e) (start_alpha e) (stdout e).
Definition set_new_lap v e := mkEnv (corner_num e) (sim_params_path e) (domain_randomize e) (verbose e)
  (road_color e) (contactListener_keepref e) (road e) (road_poly e) (car e) (reward e) (prev_reward e)
  v (tile_visited_count e) (t e) (track e) (start_alpha e) (stdout e).
Definition set_tile_visited_count v e := mkEnv (corner_num e) (sim_params_path e) (domain_randomize e) (verbose e)
  (road_color e) (contactListener_keepref e) (road e) (road_poly e) (car e) (reward e) (prev_reward e)
  (new_lap e) v (t e) (track e) (start_alpha e) (stdout e).
Definition set_t v e := mkEnv (corner_num e) (sim_params_path e) (domain_randomize e) (verbose e)
  (road_color e) (contactListener_keepref e) (road e) (road_poly e) (car e) (reward e) (prev_reward e)
  (new_lap e) (tile_visited_count e) v (track e) (start_alpha e) (stdout e).
Definition set_track v e := mkEnv (corner_num e) (sim_params_path e) (domain_randomize e) (verbose e)
  (road_color e) (contactListener_keepref e) (road e) (road_poly e) (car e) (reward e) (prev_reward e)
  (new_lap e) (tile_visited_count e) (t e) v (start_alpha e) (stdout e).
Definition set_start_alpha v e := mkEnv (corner_num e) (sim_params_path e) (domain_randomize e) (verbose e)
  (road_color e) (contactListener_keepref e) (road e) (road_poly e) (car e) (reward e) (prev_reward e)
  (new_lap e) (tile_visited_count e) (t e) (track e) v (stdout e).
Definition print m e := mkEnv (corner_num e) (sim_params_path e) (domain_randomize e) (verbose e)
  (road_color e) (contactListener_keepref e) (road e) (road_poly e) (car e) (reward e) (prev_reward e)
  (new_lap e) (tile_visited_count e) (t e) (track e) (start_alpha e) (stdout e ++ [m]).

(** The files the process can open: [None] is a missing file. *)
Definition FileSystem : Type := string -> option (list string).

Section Environment.

(** [math.cos], [math.sin], [np.sqrt], [math.pi]. *)
Variables (cos sin sqrt : Q -> Q) (pi : Q).
(** [float(s.strip())]; [None] is a [ValueError]. *)
Variable py_float : string -> option Q.
(** The loop of [_create_track] that walks from checkpoint to checkpoint and
    returns the raw point sequence. *)
Variable walk : list Checkpoint -> list TrackPoint.

(** ** Checkpoints *)

Fixpoint parse_floats (ls : list string) : outcome (list Q) :=
  match ls with
  | [] => Ok []
  | s :: r =>
      v <- of_option ValueError (py_float s) ;;
      vs <- parse_floats r ;;
      Ok (v :: vs)
  end.

Definition ring_angle (c n : nat) : Q :=
  2 * pi * inject_Z (Z.of_nat c) / inject_Z (Z.of_nat n).

Definition pinned_start_alpha (n : nat) : Q :=
  2 * pi * (- (1 # 2)) / inject_Z (Z.of_nat n).

Definition checkpoint_at (a rad : Q) : Checkpoint := (a, rad * cos a, rad * sin a).

(** The body of [for c in range(n_checkpoints)] in [load_checkpoints]; the
    state is the list [rad], [self.start_alpha] and the checkpoints so far. *)
Definition load_step (n : nat) (noise : list Q) (c : nat)
    (st : list Q * option Q * list Checkpoint)
  : outcome (list Q * option Q * list Checkpoint) :=
  let '(rad, sa, acc) := st in
  nz <- of_option IndexError (nth_error noise c) ;;
  let a := ring_angle c n + nz in
  '(a, rad) <- (if (c =? 0)%nat
                then r <- set_index rad (Z.of_nat c) ((15 # 10) * TRACK_RAD) ;; Ok (0, r)
                else Ok (a, rad)) ;;
  '(a, rad, sa) <- (if (c =? n - 1)%nat
                    then r <- set_index rad (Z.of_nat c) ((15 # 10) * TRACK_RAD) ;;
                         Ok (ring_angle c n, r, Some (pinned_start_alpha n))
                    else Ok (a, rad, sa)) ;;
  rc <- index rad (Z.of_nat c) ;;
  Ok (rad, sa, acc ++ [checkpoint_at a rc]).

Fixpoint load_loop (n : nat) (noise : list Q) (cs : list nat)
    (st : list Q * option Q * list Checkpoint)
  : outcome (list Q * option Q * list Checkpoint) :=
  match cs with
  | [] => Ok st
  | c :: cs' => st' <- load_step n noise c st ;; load_loop n noise cs' st'
  end.

(** [load_checkpoints(n_checkpoints, path)]: the checkpoints and the value
    left in [self.start_alpha]. *)
Definition load_checkpoints (fs : FileSystem) (sa0 : option Q) (n_checkpoints : nat)
    (path : string) : outcome (list Checkpoint * option Q) :=
  lines <- of_option FileNotFoundError (fs path) ;;
  noise <- parse_floats (slice lines None (Some (Z.of_nat n_checkpoints))) ;;
  rad <- parse_floats (slice lines (Some (- Z.of_nat n_checkpoints)%Z) None) ;;
  '(_, sa, cps) <- load_loop n_checkpoints noise (seq 0 n_checkpoints) (rad, sa0, []) ;;
  Ok (cps, sa).

(** [store_checkpoints(n_checkpoints)]; [draws c] is the pair of uniform
    samples (angular jitter, radius) taken at iteration [c].  The parameter
    file it writes is not read back and is left out. *)
Definition store_step (n : nat) (draws : nat -> Q * Q) (c : nat)
    (st : option Q * list Checkpoint) : option Q * list Checkpoint :=
  let '(sa, acc) := st in
  let '(noise, rad) := draws c in
  let a := ring_angle c n + noise in
  let '(a, rad) := if (c =? 0)%nat then (0, (15 # 10) * TRACK_RAD) else (a, rad) in
  let '(a, rad, sa) :=
    if (c =? n - 1)%nat
    then (ring_angle c n, (15 # 10) * TRACK_RAD, Some (pinned_start_alpha n))
    else (a, rad, sa) in
  (sa, acc ++ [checkpoint_at a rad]).

Definition store_checkpoints (sa0 : option Q) (n_checkpoints : nat)
    (draws : nat -> Q * Q) : list Checkpoint * option Q :=
  let '(sa, cps) :=
    fold_left (fun st c => store_step n_checkpoints draws c st)
              (seq 0 n_checkpoints) (sa0, []) in
  (cps, sa).

(** ** Track finalisation *)

Fixpoint foldM {A S : Type} (f : S -> A -> outcome S) (l : list A) (s : S) : outcome S :=
  match l with
  | [] => Ok s
  | a :: r => s' <- f s a ;; foldM f r s'
  end.

(** [track[i][0] > self.start_alpha and track[i - 1][0] <= self.start_alpha]. *)
Definition pass_through_start (trk : list TrackPoint) (sa : Q) (i : Z) : outcome bool :=
  p <- index trk i ;;
  if Qgtb (alpha p) sa
  then q <- index trk (i - 1) ;; Ok (Qle_bool (alpha q) sa)
  else Ok false.

(** The backward scan for the closed loop.  The first argument is the value
    of [i] before [i -= 1]; [Ok None] is [return False], [Ok (Some (i1, i2))]
    the [break].  With an empty list the first decrement gives [-1], whose
    lookup raises. *)
Fixpoint find_loop (trk : list TrackPoint) (sa : Q) (i : nat) (i1 i2 : Z)
  : outcome (option (Z * Z)) :=
  match i with
  | O => Raise IndexError
  | S i' =>
      if (i' =? 0)%nat then Ok None
      else
        p <- pass_through_start trk sa (Z.of_nat i') ;;
        if p && (i2 =? -1)%Z then find_loop trk sa i' i1 (Z.of_nat i')
        else if p && (i1 =? -1)%Z then Ok (Some (Z.of_nat i', i2))
        else find_loop trk sa i' i1 i2
  end.

(** The tile count the generator prints: ["%i..%i -> %i-tiles track"]. *)
Definition reported_tiles (i1 i2 : Z) : Z := (i2 - i1)%Z.

(** [track = track[i1 : i2 - 1]]. *)
Definition keep_lap (trk : list TrackPoint) (i1 i2 : Z) : list TrackPoint :=
  slice trk (Some i1) (Some (i2 - 1)%Z).

Definition square (q : Q) : Q := q * q.

(** Length of the perpendicular jump between head and tail. *)
Definition well_glued_together (trk : list TrackPoint) : outcome Q :=
  first <- index trk 0 ;;
  let first_perp_x := cos (beta first) in
  let first_perp_y := sin (beta first) in
  last <- index trk (-1) ;;
  Ok (sqrt (square (first_perp_x * (px first - px last))
            + square (first_perp_y * (py first - py last)))).

(** The inner [for neg in range(BORDER_MIN_COUNT)] of the first border loop. *)
Definition border_probe (trk : list TrackPoint) (i : Z) (st : bool * Q) (neg : Z)
  : outcome (bool * Q) :=
  let '(good, oneside) := st in
  p1 <- index trk (i - neg - 0) ;;
  p2 <- index trk (i - neg - 1) ;;
  let d := beta p1 - beta p2 in
  Ok (good && Qgtb (Qabs d) (TRACK_TURN_RATE * (2 # 10)), oneside + sign d).

Definition border_detect (trk : list TrackPoint) (border : list bool) (i : Z)
  : outcome (list bool) :=
  '(good, oneside) <- foldM (border_probe trk i) (range 0 (Z.of_nat BORDER_MIN_COUNT)) (true, 0) ;;
  let good := good && Qeq_bool (Qabs oneside) (inject_Z (Z.of_nat BORDER_MIN_COUNT)) in
  set_index border i good.

(** [border[i - neg] |= border[i]]. *)
Definition border_spread (i : Z) (border : list bool) (neg : Z) : outcome (list bool) :=
  cur <- index border (i - neg) ;;
  bi <- index border i ;;
  set_index border (i - neg) (cur || bi).

Definition border_flags (trk : list TrackPoint) : outcome (list bool) :=
  let n := len trk in
  b <- foldM (border_detect trk) (range 0 n) (repeat false (List.length trk)) ;;
  foldM (fun b i => foldM (border_spread i) (range 0 (Z.of_nat BORDER_MIN_COUNT)) b)
        (range 0 n) b.

(** [self.corner_num and self.corner_num > 10]. *)
Definition restricted (k : scenario_id) : bool :=
  match k with
  | Some n => truthy k && (10 <? n)%Z
  | None => false
  end.

(** The index range of the tile loop.  The table is indexed with the
    module-level name [corner_num], not with [self.corner_num]. *)
Definition tile_indices (self_corner_num : scenario_id) (g : global_binding)
    (trk : list TrackPoint) : outcome (list Z) :=
  if restricted self_corner_num
  then k <- read_global g ;;
       e <- corners k ;;
       Ok (range (tile_start e) (tile_end e))
  else Ok (range 0 (len trk)).

Definition shade (rc : Colour) (c : Q) : Colour :=
  let '(r, g, b) := rc in (r + c, g + c, b + c).

Definition edge (p : TrackPoint) (w : Q) : Q * Q :=
  (px p + w * cos (beta p), py p + w * sin (beta p)).

(** One iteration of the tile loop: the road body, its polygon and, on a
    bordered sample, the kerb polygon. *)
Definition create_tile (rc : Colour) (trk : list TrackPoint) (border : list bool)
    (st : list RoadTile * list (Quad * Colour)) (i : Z)
  : outcome (list RoadTile * list (Quad * Colour)) :=
  let '(rd, poly) := st in
  p1 <- index trk i ;;
  p2 <- index trk (i - 1) ;;
  let road1_l := edge p1 (- TRACK_WIDTH) in
  let road1_r := edge p1 TRACK_WIDTH in
  let road2_l := edge p2 (- TRACK_WIDTH) in
  let road2_r := edge p2 TRACK_WIDTH in
  let verts := [road1_l; road1_r; road2_r; road2_l] in
  let c := (1 # 100) * inject_Z (i mod 3) * 255 in
  let tile := mkTile i false 1 (shade rc c) verts in
  let poly := poly ++ [(verts, color tile)] in
  let rd := rd ++ [tile] in
  b <- index border i ;;
  if b : bool
  then
    let side := sign (beta p2 - beta p1) in
    let b1_l := edge p1 (side * TRACK_WIDTH) in
    let b1_r := edge p1 (side * (TRACK_WIDTH + BORDER)) in
    let b2_l := edge p2 (side * TRACK_WIDTH) in
    let b2_r := edge p2 (side * (TRACK_WIDTH + BORDER)) in
    Ok (rd, poly ++ [([b1_l; b1_r; b2_r; b2_l],
                      if (i mod 2 =? 0)%Z then (255, 255, 255) else (255, 0, 0))])
  else Ok (rd, poly).

(** The track exposed in [self.track]. *)
Definition exposed_track (self_corner_num : scenario_id) (g : global_binding)
    (trk : list TrackPoint) : outcome (list TrackPoint) :=
  if truthy self_corner_num
  then k <- read_global g ;;
       e <- corners k ;;
       Ok (slice trk (Some (tile_start e)) (Some (tile_end e)))
  else Ok trk.

Definition CHECKPOINTS : nat := 12.

Definition nonempty (s : option string) : option string :=
  match s with
  | Some EmptyString => None
  | other => other
  end.

(** [_create_track] up to the border flags: checkpoints, the raw walk, the
    closed-loop scan, the gluing test and the border runs.  [Ok (None, _)] is
    [return False]; otherwise the finalised track and its border flags.  The
    two [assert]s after the scan hold whenever the scan leaves by [break]. *)
Definition finalise_track (fs : FileSystem) (draws : nat -> Q * Q) (self : CarRacing)
  : outcome (option (list TrackPoint * list bool) * CarRacing) :=
  '(checkpoints, sa) <-
     match nonempty (sim_params_path self) with
     | Some path => load_checkpoints fs (start_alpha self) CHECKPOINTS path
     | None => Ok (store_checkpoints (start_alpha self) CHECKPOINTS draws)
     end ;;
  let self := set_start_alpha sa self in
  let self := set_road [] self in
  let raw := walk checkpoints in
  sa <- of_option AttributeError (start_alpha self) ;;
  found <- find_loop raw sa (List.length raw) (-1) (-1) ;;
  match found with
  | None => Ok (None, self)
  | Some (i1, i2) =>
      let self := if verbose self
                  then print (MsgTrackGeneration i1 i2 (reported_tiles i1 i2)) self
                  else self in
      let trk := keep_lap raw i1 i2 in
      gap <- well_glued_together trk ;;
      if Qgtb gap TRACK_DETAIL_STEP then Ok (None, self)
      else
        border <- border_flags trk ;;
        Ok (Some (trk, border), self)
  end.

(** The rest of [_create_track]: the tile loop and the exposed track. *)
Definition create_tiles (g : global_binding) (trk : list TrackPoint) (border : list bool)
    (self : CarRacing) : outcome CarRacing :=
  iter <- tile_indices (corner_num self) g trk ;;
  '(rd, poly) <- foldM (create_tile (road_color self) trk border) iter
                       (road self, road_poly self) ;;
  let self := set_road_poly poly (set_road rd self) in
  exposed <- exposed_track (corner_num self) g trk ;;
  Ok (set_track exposed self).

(** [_create_track]: [Ok (false, _)] is a rejected generation. *)
Definition _create_track (fs : FileSystem) (g : global_binding) (draws : nat -> Q * Q)
    (self : CarRacing) : outcome (bool * CarRacing) :=
  '(fin, self) <- finalise_track fs draws self ;;
  match fin with
  | None => Ok (false, self)
  | Some (trk, border) =>
      self <- create_tiles g trk border self ;;
      Ok (true, self)
  end.

End Environment.

(** ** The contact listener *)

(** The [userData] of a body in contact: nothing, the road body at a position
    of [road], a wheel of the car, or any other body. *)
Inductive UserData : Type :=
| UNone
| URoad (k : nat)
| UWheel (w : nat)
| UOther.

Record Contact : Type := mkContact { fixtureA : UserData; fixtureB : UserData }.

(** [u and "road_friction" in u.__dict__]. *)
Definition road_of (self : CarRacing) (u : UserData) : option nat :=
  match u with
  | URoad k => if (k <? List.length (road self))%nat then Some k else None
  | _ => None
  end.

(** [obj and "tiles" in obj.__dict__]. *)
Definition wheel_of (self : CarRacing) (u : UserData) : option nat :=
  match u, car self with
  | UWheel w, Some c => if (w <? List.length (wheel_tiles c))%nat then Some w else None
  | _, _ => None
  end.

Definition Qdiv255 (c : Colour) : Colour :=
  let '(r, g, b) := c in (r / 255, g / 255, b / 255).

Definition with_color (c : Colour) (tl : RoadTile) : RoadTile :=
  mkTile (idx tl) (road_visited tl) (road_friction tl) c (vertices tl).

Definition with_visited (v : bool) (tl : RoadTile) : RoadTile :=
  mkTile (idx tl) v (road_friction tl) (color tl) (vertices tl).

Definition store_tile (k : nat) (tl : RoadTile) (self : CarRacing) : CarRacing :=
  match update (road self) k tl with
  | Some rd => set_road rd self
  | None => self
  end.

Definition mem (k : nat) (s : list nat) : bool := existsb (Nat.eqb k) s.

(** [set.add]. *)
Definition set_add (k : nat) (s : list nat) : list nat :=
  if mem k s then s else k :: s.

(** [set.remove]: a [KeyError] when the element is absent. *)
Definition set_remove (k : nat) (s : list nat) : outcome (list nat) :=
  if mem k s then Ok (filter (fun j => negb (Nat.eqb k j)) s) else Raise KeyError.

Definition with_wheel (w : nat) (s : list nat) (self : CarRacing) : CarRacing :=
  match car self with
  | Some c =>
      match update (wheel_tiles c) w s with
      | Some ws => set_car (Some (mkCar (init_angle c) (init_add_angle c) (hull_position c) ws)) self
      | None => self
      end
  | None => self
  end.

Definition tiles_of_wheel (w : nat) (self : CarRacing) : list nat :=
  match car self with
  | Some c => nth w (wheel_tiles c) []
  | None => []
  end.

(** [1000.0 / len(self.env.track)] and [tile_visited_count / len(track)]. *)
Definition per_track (num : Q) (self : CarRacing) : outcome Q :=
  if (len (track self) =? 0)%Z then Raise ZeroDivisionError
  else Ok (num / inject_Z (len (track self))).

(** The two [if u and "road_friction" in u.__dict__] tests that pick
    [tile] and [obj]; the second overrides the first. *)
Definition select_tile (self : CarRacing) (contact : Contact) : option (nat * UserData) :=
  let u1 := fixtureA contact in
  let u2 := fixtureB contact in
  let sel : option (nat * UserData) := None in
  let sel := match road_of self u1 with Some k => Some (k, u2) | None => sel end in
  let sel := match road_of self u2 with Some k => Some (k, u1) | None => sel end in
  sel.

(** [FrictionDetector._contact]. *)
Definition _contact (self : CarRacing) (contact : Contact) (begin : bool)
  : outcome CarRacing :=
  match select_tile self contact with
  | None => Ok self
  | Some (k, obj) =>
      tile <- of_option IndexError (nth_error (road self) k) ;;
      let tile := with_color (Qdiv255 (road_color self)) tile in
      let self := store_tile k tile self in
      match wheel_of self obj with
      | None => Ok self
      | Some w =>
          if begin then
            let self := with_wheel w (set_add k (tiles_of_wheel w self)) self in
            if negb (road_visited tile) then
              let tile := with_visited true tile in
              let self := store_tile k tile self in
              credit <- per_track 1000 self ;;
              let self := set_reward (reward self + credit) self in
              let self := set_tile_visited_count (tile_visited_count self + 1)%Z self in
              if (idx tile =? 0)%Z then
                ratio <- per_track (inject_Z (tile_visited_count self)) self ;;
                if Qgtb ratio (lap_complete_percent (contactListener_keepref self)) then
                  (* self.env_new_lap = True: an attribute of the listener *)
                  Ok (set_listener
                        (mkDetector (lap_complete_percent (contactListener_keepref self)) true)
                        self)
                else Ok self
              else Ok self
            else Ok self
          else
            s <- set_remove k (tiles_of_wheel w self) ;;
            Ok (with_wheel w s self)
      end
  end.

Definition BeginContact (self : CarRacing) (contact : Contact) : outcome CarRacing :=
  _contact self contact true.

Definition EndContact (self : CarRacing) (contact : Contact) : outcome CarRacing :=
  _contact self contact false.

(** ** The episode state machine *)

Inductive ContactEvent : Type :=
| Begin (c : Contact)
| End_ (c : Contact).

Definition fire (self : CarRacing) (ev : ContactEvent) : outcome CarRacing :=
  match ev with
  | Begin c => BeginContact self c
  | End_ c => EndContact self c
  end.

(** One simulated frame of the backend: the callbacks [world.Step] fires, in
    order, and the hull position it leaves. *)
Record Frame : Type := mkFrame {
  events : list ContactEvent;
  position : Q * Q
}.

Definition Action : Type := (Q * Q * Q)%type.

(** [(state, step_reward, done, {})] without the rendered observation. *)
Record StepResult : Type := mkResult { step_reward : Q; done : bool }.

Definition move_hull (p : Q * Q) (self : CarRacing) : CarRacing :=
  match car self with
  | Some c => set_car (Some (mkCar (init_angle c) (init_add_angle c) p (wheel_tiles c))) self
  | None => self
  end.

Definition out_of_playfield (p : Q * Q) : bool :=
  let '(x, y) := p in
  Qgtb (Qabs x) PLAYFIELD || Qgtb (Qabs y) PLAYFIELD.

(** [CarRacing.step].  The actuator calls, the rendering of the observation
    and [car.fuel_spent] belong to collaborators and leave no trace here;
    [world.Step] is the frame's callbacks followed by the hull move. *)
Definition step (self : CarRacing) (action : option Action) (frame : Frame)
  : outcome (CarRacing * StepResult) :=
  _ <- of_option AttributeError (car self) ;;
  self <- foldM fire (events frame) self ;;
  let self := move_hull (position frame) self in
  let self := set_t (t self + 1 / FPS) self in
  match action with
  | Some _ =>
      let self := set_reward (reward self - (1 # 10)) self in
      let step_reward := reward self - prev_reward self in
      let self := set_prev_reward (reward self) self in
      let done := (tile_visited_count self =? len (track self))%Z || new_lap self in
      c <- of_option AttributeError (car self) ;;
      if out_of_playfield (hull_position c)
      then Ok (self, mkResult (-100) true)
      else Ok (self, mkResult step_reward done)
  | None => Ok (self, mkResult 0 false)
  end.

(** [_init_colors]; [draw] is the sample used under domain randomisation.
    Of the three colours only [road_color] reaches the road bodies. *)
Definition _init_colors (draw : Colour) (self : CarRacing) : CarRacing :=
  if domain_randomize self then set_road_color draw self
  else set_road_color (102, 102, 102) self.

(** [CarRacing.__init__].  The attributes [tile_visited_count], [t] and
    [track] exist only after the first [reset]; until then the record holds
    the values [reset] would give them. *)
Definition __init__ (verbose : bool) (lap_complete_percent : Q) (domain_randomize : bool)
    (corner_num : scenario_id) (sim_params_path : option string) (draw : Colour)
  : outcome CarRacing :=
  Ok (_init_colors draw
        (mkEnv corner_num sim_params_path domain_randomize verbose (0, 0, 0)
               (mkDetector lap_complete_percent false)
               [] [] None 0 0 false 0%Z 0 [] None [])).

(** [_destroy]. *)
Definition _destroy (self : CarRacing) : outcome CarRacing :=
  match road self with
  | [] => Ok self
  | _ :: _ =>
      _ <- of_option AttributeError (car self) ;;
      Ok (set_road [] self)
  end.

(** The collaborator's constructor [Car(world, init_angle, init_x, init_y,
    add_angle)]: the hull at the given point and four wheels, each with an
    empty [tiles] set. *)
Definition new_car (angle x y : Q) (add : option Q) : Car :=
  mkCar angle add (x, y) [[]; []; []; []].

Section Reset.

Variables (cos sin sqrt : Q -> Q) (pi : Q).
Variable py_float : string -> option Q.
Variable walk : list Checkpoint -> list TrackPoint.

(** The retry loop of [reset]: [None] when the loop is still running after
    [fuel] attempts.  [draws k] are the samples of attempt [k]. *)
Fixpoint create_until_success (fuel : nat) (attempt : nat) (fs : FileSystem)
    (g : global_binding) (draws : nat -> nat -> Q * Q) (self : CarRacing)
  : option (outcome CarRacing) :=
  match fuel with
  | O => None
  | S fuel' =>
      match _create_track cos sin sqrt pi py_float walk fs g (draws attempt) self with
      | Raise e => Some (Raise e)
      | Ok (true, self) => Some (Ok self)
      | Ok (false, self) =>
          create_until_success fuel' (S attempt) fs g draws
            (if verbose self then print MsgRetry self else self)
      end
  end.

(** The part of [reset] before the retry loop. *)
Definition reset_counters (colour : Colour) (self : CarRacing) : outcome CarRacing :=
  self <- _destroy self ;;
  let self := set_reward 0 self in
  let self := set_prev_reward 0 self in
  let self := set_tile_visited_count 0%Z self in
  let self := set_t 0 self in
  let self := set_new_lap false self in
  let self := set_road_poly [] self in
  Ok (_init_colors colour self).

(** The part of [reset] after the retry loop: the car is placed on the first
    exposed point and the priming step runs without an action. *)
Definition place_and_prime (frame : Frame) (self : CarRacing) : outcome CarRacing :=
  first <- index (track self) 0 ;;
  e <- corners (corner_num self) ;;
  let self := set_car (Some (new_car (beta first) (px first) (py first) (add_angle e))) self in
  '(self, _) <- step self None frame ;;
  Ok self.

(** [CarRacing.reset]. *)
Definition reset (fuel : nat) (fs : FileSystem) (g : global_binding)
    (draws : nat -> nat -> Q * Q) (colour : Colour) (frame : Frame) (self : CarRacing)
  : option (outcome CarRacing) :=
  match reset_counters colour self with
  | Raise e => Some (Raise e)
  | Ok self =>
      match create_until_success fuel 0 fs g draws self with
      | None => None
      | Some (Raise e) => Some (Raise e)
      | Some (Ok self) => Some (place_and_prime frame self)
      end
  end.

End Reset.

(** ** The command-line entry point *)

(** The [__main__] block up to the construction of the environment.
    [argv1] is [int(sys.argv[1])] when an argument is given.  The result is
    what was printed, the binding of the module-level name [corner_num] and
    the environment.  On an identifier missing from the table the block
    prints a message and evaluates the bare name [exit], which does nothing. *)
Definition main_construct (argv1 : option Z) (draw : Colour)
  : outcome (list Message * global_binding * CarRacing) :=
  let corner_num : scenario_id := None in
  let sim_params_path : option string := None in
  '(printed, corner_num, sim_params_path) <-
     match argv1 with
     | None => Ok ([], corner_num, sim_params_path)
     | Some n =>
         let corner_num := Some n in
         if (n =? -1)%Z then Ok ([], None, sim_params_path)
         else if negb (in_corners corner_num)
         then Ok ([MsgNotIncluded], corner_num, sim_params_path)
         else e <- corners corner_num ;;
              _ <- of_option IndexError (entry_scale e) ;;
              p <- of_option IndexError (entry_path e) ;;
              Ok ([], corner_num, Some p)
     end ;;
  env <- __init__ true (95 # 100) false corner_num sim_params_path draw ;;
  Ok (printed, Some corner_num, env).

(** The episode loop of the entry point, as far as the environment is
    concerned: one [env.step(a)] per frame, and [total_reward += r]. *)
Fixpoint run (self : CarRacing) (steps : list (Action * Frame))
  : outcome (CarRacing * list StepResult) :=
  match steps with
  | [] => Ok (self, [])
  | (a, f) :: rest =>
      '(self, r) <- step self (Some a) f ;;
      '(self, rs) <- run self rest ;;
      Ok (self, r :: rs)
  end.

Definition total_reward (rs : list StepResult) : Q :=
  fold_left (fun acc r => acc + step_reward r) rs 0.

(** A decimal fragment of the builtin [float(s.strip())]: an optional sign,
    digits, and an optional fractional part; anything else is a [ValueError]. *)
Definition digit_of (c : Ascii.ascii) : option Z :=
  let n := Z.of_nat (Ascii.nat_of_ascii c) in
  if ((48 <=? n) && (n <=? 57))%Z then Some (n - 48)%Z else None.

Fixpoint digits (s : string) (acc : Z) (scale : positive) (frac : bool)
  : option (Z * positive) :=
  match s with
  | EmptyString => Some (acc, scale)
  | String c r =>
      match digit_of c with
      | Some d => digits r (acc * 10 + d)%Z (if frac then (scale * 10)%positive else scale) frac
      | None =>
          if Ascii.eqb c "."%char && negb frac then digits r acc scale true else None
      end
  end.

Definition is_space (c : Ascii.ascii) : bool :=
  Ascii.eqb c " "%char || Ascii.eqb c "010"%char || Ascii.eqb c "009"%char
  || Ascii.eqb c "013"%char.

Fixpoint lstrip (s : string) : string :=
  match s with
  | String c r => if is_space c then lstrip r else s
  | EmptyString => EmptyString
  end.

Fixpoint rstrip (s : string) : string :=
  match s with
  | String c r =>
      match rstrip r with
      | EmptyString => if is_space c then EmptyString else String c EmptyString
      | r' => String c r'
      end
  | EmptyString => EmptyString
  end.

Definition has_digit (s : string) : bool :=
  existsb (fun c => match digit_of c with Some _ => true | None => false end)
          (list_ascii_of_string s).

Definition decimal_float (s : string) : option Q :=
  let body := rstrip (lstrip s) in
  let '(neg, body) :=
    match body with
    | String c r => if Ascii.eqb c "-"%char then (true, r)
                    else if Ascii.eqb c "+"%char then (false, r) else (false, body)
    | EmptyString => (false, body)
    end in
  if has_digit body
  then match digits body 0 1 false with
       | Some (n, d) => Some (if neg : bool then - (n # d) else n # d)
       | None => None
       end
  else None.

(** ** The hand controller *)

(** What [controller_input] hands back to the episode loop: the action, and
    whether it set the global [restart] or called [env.close()]. *)
Record Polled : Type := mkPolled {
  polled_action : Action;
  restart_set : bool;
  close_called : bool
}.

(** [controller_input(gamepad, a)]; [report] is the list of bytes that
    [gamepad.read(64)] returned, empty when nothing was pending.  The two
    messages it prints are left out. *)
Definition controller_input (report : list Z) (a : Action) : outcome Polled :=
  match report with
  | [] => Ok (mkPolled a false false)
  | _ :: _ =>
      r12 <- index report 12 ;;
      if (100 <? r12)%Z then Ok (mkPolled a true false)
      else
        r11 <- index report 11 ;;
        if (100 <? r11)%Z then Ok (mkPolled a false true)
        else
          r3 <- index report 3 ;;
          let steer := (inject_Z r3 - 128) / 127 in
          r13 <- index report 13 ;;
          let gas := inject_Z r13 / 255 in
          r14 <- index report 14 ;;
          let brake := inject_Z r14 / 255 in
          Ok (mkPolled (steer, gas, brake) false false)
  end.

(** ** The walk from checkpoint to checkpoint *)

(** The builtin [min] on two floats. *)
Definition py_min (a b : Q) : Q := if Qltb b a then b else a.

(** The local variables of the generation loop of [_create_track]. *)
Record Walker : Type := mkWalker {
  wx : Q;
  wy : Q;
  wbeta : Q;
  wdest_i : Z;
  wlaps : Z;
  wvisited_other_side : bool;
  wtrack : list TrackPoint
}.

Section Walk.

(** [math.cos], [math.sin], [math.atan2], [math.pi] and the global [SCALE]
    as it stands when the track is generated. *)
Variables (cos sin : Q -> Q) (atan2 : Q -> Q -> Q) (pi : Q) (scale : Q).
Variable checkpoints : list Checkpoint.

(** The innermost [while True]: advance [dest_i] to a checkpoint whose angle
    is at least [alpha], giving up when [dest_i] wraps around.  The result is
    [failed], [dest_i] and the checkpoint last read.  [None]: out of fuel. *)
Fixpoint scan_checkpoints (fuel : nat) (alpha : Q) (dest_i : Z)
  : option (outcome (bool * Z * Checkpoint)) :=
  match fuel with
  | O => None
  | S fuel' =>
      if (len checkpoints =? 0)%Z then Some (Raise ZeroDivisionError)
      else
        match index checkpoints (dest_i mod len checkpoints) with
        | Raise e => Some (Raise e)
        | Ok dest =>
            let '(dest_alpha, _, _) := dest in
            if Qle_bool alpha dest_alpha then Some (Ok (false, dest_i, dest))
            else
              let dest_i := (dest_i + 1)%Z in
              if (dest_i mod len checkpoints =? 0)%Z then Some (Ok (true, dest_i, dest))
              else scan_checkpoints fuel' alpha dest_i
        end
  end.

(** The loop around it: on failure turn [alpha] back by a full circle and
    scan again. *)
Fixpoint find_destination (fuel : nat) (alpha : Q) (dest_i : Z)
  : option (outcome (Q * Z * Checkpoint)) :=
  match fuel with
  | O => None
  | S fuel' =>
      match scan_checkpoints (S (List.length checkpoints)) alpha dest_i with
      | None => None
      | Some (Raise e) => Some (Raise e)
      | Some (Ok (failed, dest_i, dest)) =>
          if negb failed then Some (Ok (alpha, dest_i, dest))
          else find_destination fuel' (alpha - 2 * pi) dest_i
      end
  end.

(** [while beta - alpha > 1.5 * math.pi: beta -= 2 * math.pi]. *)
Fixpoint wind_down (fuel : nat) (b alpha : Q) : option Q :=
  match fuel with
  | O => None
  | S fuel' =>
      if Qgtb (b - alpha) ((15 # 10) * pi) then wind_down fuel' (b - 2 * pi) alpha
      else Some b
  end.

(** [while beta - alpha < -1.5 * math.pi: beta += 2 * math.pi]. *)
Fixpoint wind_up (fuel : nat) (b alpha : Q) : option Q :=
  match fuel with
  | O => None
  | S fuel' =>
      if Qltb (b - alpha) (- (15 # 10) * pi) then wind_up fuel' (b + 2 * pi) alpha
      else Some b
  end.

(** One pass through the body of the outer [while True], up to and
    including [track.append]. *)
Definition walk_iteration (fuel : nat) (w : Walker) : option (outcome Walker) :=
  let x := wx w in
  let y := wy w in
  let b := wbeta w in
  let alpha := atan2 y x in
  let '(laps, visited) :=
    if wvisited_other_side w && Qgtb alpha 0
    then ((wlaps w + 1)%Z, false) else (wlaps w, wvisited_other_side w) in
  let '(visited, alpha) :=
    if Qltb alpha 0 then (true, alpha + 2 * pi) else (visited, alpha) in
  match find_destination fuel alpha (wdest_i w) with
  | None => None
  | Some (Raise e) => Some (Raise e)
  | Some (Ok (alpha, dest_i, (dest_alpha, dest_x, dest_y))) =>
      let r1x := cos b in
      let r1y := sin b in
      let p1x := - r1y in
      let p1y := r1x in
      let dest_dx := dest_x - x in
      let dest_dy := dest_y - y in
      let proj := r1x * dest_dx + r1y * dest_dy in
      match wind_down fuel b alpha with
      | None => None
      | Some b =>
          match wind_up fuel b alpha with
          | None => None
          | Some b =>
              let prev_beta := b in
              let proj := proj * scale in
              let b := if Qgtb proj (3 # 10)
                       then b - py_min TRACK_TURN_RATE (Qabs ((1 # 1000) * proj)) else b in
              let b := if Qltb proj (- (3 # 10))
                       then b + py_min TRACK_TURN_RATE (Qabs ((1 # 1000) * proj)) else b in
              let x := x + p1x * TRACK_DETAIL_STEP in
              let y := y + p1y * TRACK_DETAIL_STEP in
              Some (Ok (mkWalker x y b dest_i laps visited
                          (wtrack w ++ [mkPoint alpha (prev_beta * (1 # 2) + b * (1 # 2)) x y])))
          end
      end
  end.

(** The outer loop; its first argument is [no_freeze]. *)
Fixpoint walk_loop (no_freeze : nat) (fuel : nat) (w : Walker)
  : option (outcome (list TrackPoint)) :=
  match no_freeze with
  | O => None
  | S n =>
      match walk_iteration fuel w with
      | None => None
      | Some (Raise e) => Some (Raise e)
      | Some (Ok w') =>
          if (4 <? wlaps w')%Z then Some (Ok (wtrack w'))
          else if (n =? 0)%nat then Some (Ok (wtrack w'))
          else walk_loop n fuel w'
      end
  end.

(** The raw point sequence: the loop started at [(1.5 * TRACK_RAD, 0)] with
    heading 0 and [no_freeze = 2500]. *)
Definition walk_track (fuel : nat) : option (outcome (list TrackPoint)) :=
  walk_loop 2500 fuel (mkWalker ((15 # 10) * TRACK_RAD) 0 0 0%Z 0%Z false []).

End Walk.

(** ** The parameter file *)

Definition newline : string := String (ascii_of_nat 10) EmptyString.

(** The radius [store_checkpoints] appends to [rad_list] at iteration [c]:
    the drawn one, overwritten at the first and at the last iteration. *)
Definition stored_radius (n : nat) (draws : nat -> Q * Q) (c : nat) : Q :=
  let rad := snd (draws c) in
  let rad := if (c =? 0)%nat then (15 # 10) * TRACK_RAD else rad in
  if (c =? n - 1)%nat then (15 # 10) * TRACK_RAD else rad.

(** The file [store_checkpoints] writes, as [readlines] returns it: the
    jitter of every iteration as drawn, an empty line, and the radius of
    every iteration.  [fmt] is the conversion ["%s" % item]. *)
Definition stored_lines (fmt : Q -> string) (n : nat) (draws : nat -> Q * Q)
  : list string :=
  map (fun c => (fmt (fst (draws c)) ++ newline)%string) (seq 0 n)
  ++ [newline]
  ++ map (fun c => (fmt (stored_radius n draws c) ++ newline)%string) (seq 0 n).

(** * Specification vocabulary

    Predicates, measures and concrete inputs used to state the properties. *)

(** ** Measures and frame conditions *)

Definition b2z (b : bool) : Z := if b then 1%Z else 0%Z.

(** The number of road bodies whose [road_visited] flag is set. *)
Fixpoint visited_tiles (rd : list RoadTile) : Z :=
  match rd with
  | [] => 0%Z
  | tl :: r => (b2z (road_visited tl) + visited_tiles r)%Z
  end.

Definition road_after (k : nat) (tl : RoadTile) (s : CarRacing) : list RoadTile :=
  match update (road s) k tl with Some rd => rd | None => road s end.

Definition car_after (w : nat) (x : list nat) (s : CarRacing) : option Car :=
  match car s with
  | Some c =>
      Some (mkCar (init_angle c) (init_add_angle c) (hull_position c)
                  (match update (wheel_tiles c) w x with
                   | Some ws => ws
                   | None => wheel_tiles c
                   end))
  | None => None
  end.

(** The number of wheels of the car, when there is a car. *)
Definition wheels (s : CarRacing) : option nat :=
  option_map (fun c => List.length (wheel_tiles c)) (car s).

(** The road body at position [k] carries the visited flag. *)
Definition marked (s : CarRacing) (k : nat) : Prop :=
  exists tile, nth_error (road s) k = Some tile /\ road_visited tile = true.

(** What no callback changes: the fields it never writes, the number of road
    bodies and of wheels, and the visited flags already set. *)
Definition untouched (s s' : CarRacing) : Prop :=
  corner_num s' = corner_num s /\
  prev_reward s' = prev_reward s /\
  new_lap s' = new_lap s /\
  track s' = track s /\
  t s' = t s /\
  lap_complete_percent (contactListener_keepref s')
  = lap_complete_percent (contactListener_keepref s) /\
  List.length (road s') = List.length (road s) /\
  wheels s' = wheels s /\
  (forall j, marked s j -> marked s' j).

(** The contact is between a wheel and the unvisited road body at position [k]. *)
Definition first_visit (s : CarRacing) (c : Contact) (k : nat) : Prop :=
  exists obj tile w,
    select_tile s c = Some (k, obj) /\
    nth_error (road s) k = Some tile /\
    road_visited tile = false /\
    wheel_of s obj = Some w.

(** Either the callback credits nothing, or it is a begin-contact of a wheel
    with an unvisited tile and credits exactly that tile. *)
Inductive contact_effect (s : CarRacing) (c : Contact) (b : bool) (s' : CarRacing) : Prop :=
| NoCredit :
    (b = false \/ forall k, ~ first_visit s c k) ->
    reward s' = reward s ->
    tile_visited_count s' = tile_visited_count s ->
    visited_tiles (road s') = visited_tiles (road s) ->
    contactListener_keepref s' = contactListener_keepref s ->
    contact_effect s c b s'
| Credit (k : nat) :
    b = true ->
    first_visit s c k ->
    marked s' k ->
    len (track s) <> 0%Z ->
    reward s' = reward s + 1000 / inject_Z (len (track s)) ->
    tile_visited_count s' = (tile_visited_count s + 1)%Z ->
    visited_tiles (road s') = (visited_tiles (road s) + 1)%Z ->
    contact_effect s c b s'.

(** The reward one first visit is worth. *)
Definition credit_unit (s : CarRacing) : Q := 1000 / inject_Z (len (track s)).

(** The car's position exceeds the playfield bound on either axis. *)
Definition beyond_playfield (p : Q * Q) : Prop :=
  PLAYFIELD < Qabs (fst p) \/ PLAYFIELD < Qabs (snd p).

(** The environment after the callbacks of a frame, the hull move and the
    clock tick. *)
Definition after_frame (p : Q * Q) (s1 : CarRacing) : CarRacing :=
  set_t (t (move_hull p s1) + 1 / FPS) (move_hull p s1).

(** The environment after the reward bookkeeping of a step with an action. *)
Definition after_action (p : Q * Q) (s1 : CarRacing) : CarRacing :=
  let s := set_reward (reward (after_frame p s1) - (1 # 10)) (after_frame p s1) in
  set_prev_reward (reward s) s.

(** The step result of a step with an action, from the state after the
    callbacks. *)
Definition action_result (p : Q * Q) (s1 : CarRacing) : StepResult :=
  if out_of_playfield p then mkResult (-100) true
  else mkResult (reward s1 - (1 # 10) - prev_reward s1)
                ((tile_visited_count s1 =? len (track s1))%Z || new_lap s1).

(** ** Concrete inputs *)

Definition origin : TrackPoint := mkPoint 0 0 0 0.

Definition blank_tile (i : Z) : RoadTile := mkTile i false 1 (102, 102, 102) [].

(** An environment right after a reset onto an unrestricted track of [n]
    tiles, before any contact. *)
Definition fresh_episode (n : nat) : CarRacing :=
  mkEnv None None false true (102, 102, 102) (mkDetector (95 # 100) false)
        (map blank_tile (range 0 (Z.of_nat n))) []
        (Some (new_car 0 0 0 None)) 0 0 false 0%Z 0
        (repeat origin n) (Some 0) [].

(** Wheel [0] begins to touch the road body at position [k]. *)
Definition touch (k : nat) : ContactEvent := Begin (mkContact (URoad k) (UWheel 0)).

Definition coast : Action := (0, 0, 0).

(** The frames of a short episode on a 21-tile track: nineteen tiles are
    visited, then tile 0, then nothing. *)
Definition lap_frame1 : Frame := mkFrame (map touch (seq 1 19)) (0, 0).
Definition lap_frame2 : Frame := mkFrame [touch 0] (0, 0).
Definition lap_frame3 : Frame := mkFrame [] (0, 0).

(** A raw point sequence whose polar angle crosses the start angle [-1/4] at
    index 1 and again at index [n + 2]. *)
Definition two_laps (n : nat) : list TrackPoint :=
  mkPoint (-1) 0 0 0 :: repeat origin n ++ [mkPoint (-1) 0 0 0; origin; origin].

(** ** Generation and episodes *)

(** The fields [_create_track] never writes. *)
Definition same_episode (s s' : CarRacing) : Prop :=
  corner_num s' = corner_num s /\
  sim_params_path s' = sim_params_path s /\
  verbose s' = verbose s /\
  reward s' = reward s /\
  prev_reward s' = prev_reward s /\
  tile_visited_count s' = tile_visited_count s /\
  new_lap s' = new_lap s /\
  car s' = car s /\
  contactListener_keepref s' = contactListener_keepref s.

(** The road body [tl] spans the points [idx tl] and [idx tl - 1] of [trk]
    and starts unvisited. *)
Definition built_from (cos sin : Q -> Q) (trk : list TrackPoint) (tl : RoadTile) : Prop :=
  exists p1 p2,
    index trk (idx tl) = Ok p1 /\
    index trk (idx tl - 1) = Ok p2 /\
    vertices tl = [edge cos sin p1 (- TRACK_WIDTH); edge cos sin p1 TRACK_WIDTH;
                   edge cos sin p2 TRACK_WIDTH; edge cos sin p2 (- TRACK_WIDTH)] /\
    road_visited tl = false.

(** Where the tile loop starts: the range start of the scenario the
    module-level name [corner_num] designates, or 0 without restriction. *)
Definition first_index (self_corner_num : scenario_id) (g : global_binding) : outcome Z :=
  if restricted self_corner_num
  then k <- read_global g ;; e <- corners k ;; Ok (tile_start e)
  else Ok 0%Z.

(** The ledger of an episode after [frames] steps with an action: the count
    is the number of marked road bodies and the reward is what they were
    credited minus the per-step charge. *)
Definition ledger (frames : Z) (s : CarRacing) : Prop :=
  tile_visited_count s = visited_tiles (road s) /\
  reward s == inject_Z (tile_visited_count s) * credit_unit s
              - inject_Z frames * (1 # 10).

Definition inside (st : Action * Frame) : Prop := ~ beyond_playfield (position (snd st)).

(** ** Concrete collaborators *)

(** Stand-ins for the float functions.  Every sample of the concrete runs has
    heading 0 and the two ends of each track coincide, so only [cos 0],
    [sin 0] and [sqrt 0] reach a decision, and these are exact. *)
Definition cos_at_0 (_ : Q) : Q := 1.
Definition sin_at_0 (_ : Q) : Q := 0.
Definition sqrt_at_0 (x : Q) : Q := x.
Definition pi_approx : Q := 355 # 113.

(** A walk that returns the raw sequence [two_laps n] for any checkpoints. *)
Definition walk_two_laps (n : nat) (_ : list Checkpoint) : list TrackPoint := two_laps n.

Definition no_files : FileSystem := fun _ => None.

Definition same_draws (_ _ : nat) : Q * Q := (1 # 10, 60).

(** The environment the constructor returns with its default arguments. *)
Definition constructed (k : scenario_id) (path : option string) : CarRacing :=
  match __init__ true (95 # 100) false k path (0, 0, 0) with
  | Ok env => env
  | Raise _ => fresh_episode 0
  end.

Definition at_rest (evs : list ContactEvent) : Frame := mkFrame evs (0, 0).

Definition two_frames : list (Action * Frame) :=
  [(coast, at_rest [touch 2; touch 3]); (coast, mkFrame [touch 4] (1, 1))].

(** Three frames at rest that between them touch the five road bodies 0 to
    4: two, then one, then two. *)
Definition full_track_frames : list (Action * Frame) :=
  [(coast, at_rest [touch 0; touch 1]);
   (coast, at_rest [touch 2]);
   (coast, at_rest [touch 3; touch 4])].

(** A parameter file of [n] lines, each the literal 0.1. *)
Definition file_of (n : nat) : FileSystem :=
  fun path => if String.eqb path sim_params_path_v1
              then Some (repeat "0.1"%string n) else None.

(** ** Further vocabulary *)

(** What the car keeps of its construction and of the last hull move. *)
Definition car_pose (s : CarRacing) : option (Q * option Q * (Q * Q)) :=
  option_map (fun c => (init_angle c, init_add_angle c, hull_position c)) (car s).

(** The environment after one wheel contact on the road body 1 of a fresh
    three-tile episode. *)
Definition touched_episode : CarRacing :=
  match BeginContact (fresh_episode 3) (mkContact (URoad 1) (UWheel 0)) with
  | Ok s => s
  | Raise _ => fresh_episode 3
  end.

(** A walk whose raw sequence never crosses the start angle. *)
Definition walk_no_lap (_ : list Checkpoint) : list TrackPoint := repeat origin 3.

(** The raw sequence passes through the start angle at index [i]. *)
Definition crossing (trk : list TrackPoint) (sa : Q) (i : Z) : Prop :=
  pass_through_start trk sa i = Ok true.

(** No index strictly between [lo] and [hi] is a crossing. *)
Definition no_crossing_between (trk : list TrackPoint) (sa : Q) (lo hi : Z) : Prop :=
  forall j, (lo < j < hi)%Z -> ~ crossing trk sa j.

(** A byte of a HID report. *)
Definition byte (z : Z) : Prop := (0 <= z <= 255)%Z.

(** Starting at [(x, y)], each point of [l] lies one step length from the
    one before it (squared distances compared). *)
Fixpoint spaced (x y : Q) (l : list TrackPoint) : Prop :=
  match l with
  | [] => True
  | p :: r =>
      square (px p - x) + square (py p - y) == square TRACK_DETAIL_STEP /\
      spaced (px p) (py p) r
  end.

(** A stand-in for [atan2] that changes sign at every step along the
    vertical axis, so that a lap is counted every other sample. *)
Definition zigzag_atan2 (y _ : Q) : Q :=
  if Z.even (Qfloor (y / TRACK_DETAIL_STEP)) then -1 else 1.

(** Twelve checkpoints as [store_checkpoints] makes them from equal draws. *)
Definition ring_checkpoints : list Checkpoint :=
  fst (store_checkpoints cos_at_0 sin_at_0 pi_approx None CHECKPOINTS (same_draws 0)).

(** A conversion to text and a reader that agree on the three values a
    file stored from [same_draws] holds. *)
Definition shown (q : Q) : string :=
  if Qeq_bool q (1 # 10) then "0.1"%string
  else if Qeq_bool q 60 then "60"%string else "135.0"%string.

Definition read_back (s : string) : option Q :=
  if String.eqb (rstrip s) "135.0" then Some ((15 # 10) * TRACK_RAD)
  else decimal_float s.

(** The file system holding, under the first scenario path, what
    [store_checkpoints] wrote from [same_draws]. *)
Definition stored_fs : FileSystem :=
  fun path => if String.eqb path sim_params_path_v1
              then Some (stored_lines shown CHECKPOINTS (same_draws 0)) else None.

(** * Properties *)

(** ** Lists updated in place *)

Section UpdateFacts.

Context {A : Type}.
Local Open Scope nat_scope.

Lemma update_length (l : list A) :
  forall k v l', update l k v = Some l' -> List.length l' = List.length l.
Proof.
  induction l as [|h r IH]; intros [|k] v l' H; simpl in H; try discriminate.
  - injection H as <-. reflexivity.
  - destruct (update r k v) as [r'|] eqn:E; simpl in H; try discriminate.
    injection H as <-. simpl. f_equal. eauto.
Qed.

Lemma update_defined (l : list A) :
  forall k v, k < List.length l -> exists l', update l k v = Some l'.
Proof.
  induction l as [|h r IH]; intros [|k] v Hk; simpl in *; try lia.
  - eexists; reflexivity.
  - destruct (IH k v) as [r' ->]; [lia|]. eexists; reflexivity.
Qed.

Lemma update_of_nth (l : list A) :
  forall k a v, nth_error l k = Some a -> exists l', update l k v = Some l'.
Proof.
  intros k a v H. apply update_defined. apply nth_error_Some. congruence.
Qed.

Lemma nth_error_update (l : list A) :
  forall k v l', update l k v = Some l' ->
  forall j, nth_error l' j = if j =? k then Some v else nth_error l j.
Proof.
  induction l as [|h r IH]; intros [|k] v l' H; simpl in H; try discriminate.
  - injection H as <-. intros [|j]; reflexivity.
  - destruct (update r k v) as [r'|] eqn:E; simpl in H; try discriminate.
    injection H as <-. intros [|j]; simpl; [reflexivity|]. eauto.
Qed.

End UpdateFacts.

(** ** Counting visited tiles *)

Lemma visited_tiles_update (rd : list RoadTile) :
  forall k old new rd',
    nth_error rd k = Some old -> update rd k new = Some rd' ->
    visited_tiles rd' = (visited_tiles rd - b2z (road_visited old) + b2z (road_visited new))%Z.
Proof.
  induction rd as [|h r IH]; intros [|k] old new rd' Hn Hu; simpl in *; try discriminate.
  - injection Hn as ->. injection Hu as <-. simpl. lia.
  - destruct (update r k new) as [r'|] eqn:E; simpl in Hu; try discriminate.
    injection Hu as <-. simpl. rewrite (IH _ _ _ _ Hn E). lia.
Qed.

Lemma visited_tiles_bounds (rd : list RoadTile) :
  (0 <= visited_tiles rd <= len rd)%Z.
Proof.
  unfold len. induction rd as [|h r IH]; simpl List.length; simpl visited_tiles; [lia|].
  destruct (road_visited h); simpl b2z; lia.
Qed.

Lemma visited_tiles_all (rd : list RoadTile) :
  visited_tiles rd = len rd <-> Forall (fun tl => road_visited tl = true) rd.
Proof.
  unfold len. induction rd as [|h r IH]; simpl List.length; simpl visited_tiles.
  - split; [constructor | reflexivity].
  - pose proof (visited_tiles_bounds r) as B. unfold len in B.
    destruct (road_visited h) eqn:E; simpl b2z; split; intros H.
    + constructor; [exact E | apply IH; lia].
    + inversion H; subst. apply IH in H3. lia.
    + lia.
    + inversion H; subst. congruence.
Qed.

(** ** What a contact callback changes *)

Lemma store_tile_eq k tl s : store_tile k tl s = set_road (road_after k tl s) s.
Proof.
  unfold store_tile, road_after. destruct (update (road s) k tl); [reflexivity|].
  destruct s; reflexivity.
Qed.

Lemma with_wheel_eq w x s : with_wheel w x s = set_car (car_after w x s) s.
Proof.
  unfold with_wheel, car_after. destruct s as [? ? ? ? ? ? ? ? [c|] ? ? ? ? ? ? ? ?]; simpl.
  - destruct (update (wheel_tiles c) w x); [reflexivity|]. destruct c; reflexivity.
  - reflexivity.
Qed.

Lemma car_after_wheels w x s s0 :
  car s0 = car_after w x s -> wheels s0 = wheels s.
Proof.
  unfold wheels, car_after. intros ->. destruct (car s) as [c|]; simpl; [|reflexivity].
  destruct (update (wheel_tiles c) w x) eqn:E; [|reflexivity].
  f_equal. eapply update_length; eauto.
Qed.

Lemma wheel_of_wheels s s' u : wheels s' = wheels s -> wheel_of s' u = wheel_of s u.
Proof.
  unfold wheels, wheel_of. destruct (car s), (car s'); simpl; intros H;
    try discriminate; destruct u; try reflexivity.
  injection H as ->. reflexivity.
Qed.

Lemma wheels_car s c : car s = Some c -> forall s', wheels s' = wheels s -> exists c', car s' = Some c'.
Proof.
  unfold wheels. intros -> s'. destruct (car s'); simpl; [eauto | discriminate].
Qed.

Lemma road_after_length k tl s : List.length (road_after k tl s) = List.length (road s).
Proof.
  unfold road_after. destruct (update (road s) k tl) eqn:E; [|reflexivity].
  eapply update_length; eauto.
Qed.

Lemma road_after_visited k old new s :
  nth_error (road s) k = Some old ->
  visited_tiles (road_after k new s)
  = (visited_tiles (road s) - b2z (road_visited old) + b2z (road_visited new))%Z.
Proof.
  intros H. unfold road_after.
  destruct (update_of_nth _ _ new H) as [rd' E]. rewrite E.
  eapply visited_tiles_update; eauto.
Qed.

Lemma road_after_nth k new s old :
  nth_error (road s) k = Some old -> nth_error (road_after k new s) k = Some new.
Proof.
  intros H. unfold road_after.
  destruct (update_of_nth _ _ new H) as [rd' E]. rewrite E.
  rewrite (nth_error_update _ _ _ E). now rewrite Nat.eqb_refl.
Qed.

Lemma road_after_marked k old new s s0 :
  nth_error (road s) k = Some old ->
  (road_visited old = true -> road_visited new = true) ->
  road s0 = road_after k new s ->
  forall j, marked s j -> marked s0 j.
Proof.
  intros Hk Hmono E j (tl & Hj & Hv). unfold marked. rewrite E. unfold road_after.
  destruct (update_of_nth _ _ new Hk) as [rd' Hu]. rewrite Hu.
  rewrite (nth_error_update _ _ _ Hu).
  destruct (j =? k)%nat eqn:Ejk.
  - apply Nat.eqb_eq in Ejk. subst j. exists new. split; [reflexivity|].
    apply Hmono. congruence.
  - exists tl. auto.
Qed.

Lemma untouched_refl s : untouched s s.
Proof. unfold untouched; intuition. Qed.

Lemma untouched_trans s1 s2 s3 : untouched s1 s2 -> untouched s2 s3 -> untouched s1 s3.
Proof.
  intros (A1 & A2 & A3 & A4 & A5 & A6 & A7 & A8 & A9)
         (B1 & B2 & B3 & B4 & B5 & B6 & B7 & B8 & B9).
  unfold untouched. repeat split; try congruence. intros j Hj. auto.
Qed.

Ltac setters H := rewrite ?store_tile_eq, ?with_wheel_eq in H.

Ltac frame_goal :=
  unfold untouched; simpl;
  repeat match goal with |- _ /\ _ => split end; auto;
  try (eapply car_after_wheels; reflexivity).

Ltac no_first_visit :=
  right; intros k' (obj' & tile' & w' & F1 & F2 & F3 & F4); congruence.

Lemma contact_spec self c b s' :
  _contact self c b = Ok s' -> untouched self s' /\ contact_effect self c b s'.
Proof.
  intros H. unfold _contact in H.
  destruct (select_tile self c) as [[k obj]|] eqn:Hsel.
  2:{ injection H as <-. split; [apply untouched_refl|].
      apply NoCredit; auto. no_first_visit. }
  destruct (nth_error (road self) k) as [tile|] eqn:Hk; simpl in H; [|discriminate].
  set (tile0 := with_color (Qdiv255 (road_color self)) tile) in *.
  assert (V0 : visited_tiles (road_after k tile0 self) = visited_tiles (road self)).
  { rewrite (road_after_visited _ _ _ Hk). simpl. lia. }
  assert (L0 : List.length (road_after k tile0 self) = List.length (road self))
    by apply road_after_length.
  setters H.
  set (s1 := set_road (road_after k tile0 self) self) in *.
  assert (Hk1 : nth_error (road s1) k = Some tile0).
  { subst s1; simpl. eapply road_after_nth; eauto. }
  assert (M0 : forall s0, road s0 = road_after k tile0 self ->
                          forall j, marked self j -> marked s0 j).
  { intros s0 E. apply road_after_marked with (k := k) (old := tile) (new := tile0) (s := self); auto. }
  change (wheel_of s1 obj) with (wheel_of self obj) in H.
  destruct (wheel_of self obj) as [w|] eqn:Hw.
  2:{ injection H as <-. split; [frame_goal; now apply M0|].
      apply NoCredit; simpl; auto. no_first_visit. }
  destruct b.
  2:{ destruct (set_remove _ _) as [x|]; simpl in H; [|discriminate]. setters H.
      injection H as <-. split; [frame_goal; now apply M0 | apply NoCredit; simpl; auto]. }
  setters H.
  set (s2 := set_car (car_after w (set_add k (tiles_of_wheel w s1)) s1) s1) in *.
  assert (Hk2 : nth_error (road s2) k = Some tile0) by exact Hk1.
  assert (Hv0 : road_visited tile0 = road_visited tile) by reflexivity.
  change (road_visited tile0) with (road_visited tile) in H.
  destruct (road_visited tile) eqn:Hv; simpl negb in H; cbv iota in H.
  { injection H as <-. split; [frame_goal; now apply M0|].
    apply NoCredit; simpl; auto. no_first_visit. }
  setters H.
  unfold per_track in H; simpl in H.
  destruct (len (track self) =? 0)%Z eqn:Hlen; simpl in H; [discriminate|].
  apply Z.eqb_neq in Hlen.
  assert (V1 : visited_tiles (road_after k (with_visited true tile0) s2)
               = (visited_tiles (road self) + 1)%Z).
  { rewrite (road_after_visited _ _ _ Hk2). simpl visited_tiles.
    change (road s2) with (road_after k tile0 self). rewrite V0, Hv0. simpl. lia. }
  assert (L1 : List.length (road_after k (with_visited true tile0) s2)
               = List.length (road self)).
  { rewrite road_after_length. exact L0. }
  assert (FV : first_visit self c k) by (exists obj, tile, w; auto).
  assert (M1 : forall s0, road s0 = road_after k (with_visited true tile0) s2 ->
                          forall j, marked self j -> marked s0 j).
  { intros s0 E j Hj.
    apply road_after_marked
      with (k := k) (old := tile0) (new := with_visited true tile0) (s := s2); auto. }
  assert (M : marked (set_road (road_after k (with_visited true tile0) s2) s2) k).
  { exists (with_visited true tile0). split; [|reflexivity].
    simpl. eapply road_after_nth; eauto. }
  destruct (idx tile =? 0)%Z; simpl in H.
  - destruct (Qgtb _ _); injection H as <-;
      (split; [frame_goal; now apply M1 | apply Credit with (k := k); simpl; auto]).
  - injection H as <-. split; [frame_goal; now apply M1 | apply Credit with (k := k); simpl; auto].
Qed.

Lemma select_tile_untouched s s' c :
  untouched s s' -> select_tile s' c = select_tile s c.
Proof.
  intros (_ & _ & _ & _ & _ & _ & L & _).
  unfold select_tile, road_of. rewrite L. reflexivity.
Qed.

(** C6.  Crediting a tile is idempotent.  For a begin-contact whose road body
    is the tile at position [k]: if the tile is already visited, the
    cumulative reward and the visited count are unchanged; if it is unvisited
    and the other body is a wheel, the reward grows by [1000 / len(track)],
    the count by one, and the tile is marked; and in every case a second
    begin-contact of the same pair credits nothing. *)
Theorem tile_credit_idempotent :
  forall (self self' : CarRacing) (c : Contact) (k : nat) (obj : UserData) (tile : RoadTile),
    select_tile self c = Some (k, obj) ->
    nth_error (road self) k = Some tile ->
    BeginContact self c = Ok self' ->
    (road_visited tile = true ->
       reward self' = reward self /\
       tile_visited_count self' = tile_visited_count self) /\
    (road_visited tile = false ->
       forall w, wheel_of self obj = Some w ->
       reward self' = reward self + 1000 / inject_Z (len (track self)) /\
       tile_visited_count self' = (tile_visited_count self + 1)%Z /\
       marked self' k) /\
    (forall self'', BeginContact self' c = Ok self'' ->
       reward self'' = reward self' /\
       tile_visited_count self'' = tile_visited_count self').
Proof.
  intros self self' c k obj tile Hsel Hk H.
  unfold BeginContact in *.
  destruct (contact_spec _ _ _ H) as [U E].
  assert (Hone : forall j, first_visit self c j -> j = k).
  { intros j (o & tl & w & F1 & _). congruence. }
  repeat split.
  - destruct E as [_ R _ _ _ | j _ FV _ _ _ _ _]; [exact R|].
    destruct FV as (o & tl & w & F1 & F2 & F3 & F4). congruence.
  - destruct E as [_ _ C _ _ | j _ FV _ _ _ _ _]; [exact C|].
    destruct FV as (o & tl & w & F1 & F2 & F3 & F4). congruence.
  - destruct E as [[D|N] _ _ _ _ | j _ FV _ _ R _ _]; [discriminate| |exact R].
    exfalso. apply (N k). exists obj, tile, w. auto.
  - destruct E as [[D|N] _ _ _ _ | j _ FV _ _ _ C _]; [discriminate| |exact C].
    exfalso. apply (N k). exists obj, tile, w. auto.
  - destruct E as [[D|N] _ _ _ _ | j _ FV M _ _ _ _]; [discriminate| |].
    + exfalso. apply (N k). exists obj, tile, w. auto.
    + now rewrite <- (Hone _ FV).
  - destruct (contact_spec _ _ _ H0) as [_ [_ R _ _ _ | j _ FV2 _ _ _ _ _]]; [exact R|].
    exfalso. destruct FV2 as (o2 & t2 & w2 & G1 & G2 & G3 & G4).
    rewrite (select_tile_untouched c U) in G1.
    assert (j = k) by congruence. subst j.
    assert (o2 = obj) by congruence. subst o2.
    destruct E as [[D|N] _ _ _ _ | j _ FV M _ _ _ _]; [discriminate| |].
    * apply (N k). exists obj, tile, w2. repeat split; auto.
      -- destruct (road_visited tile) eqn:Hv; [|reflexivity]. exfalso.
         destruct U as (_ & _ & _ & _ & _ & _ & _ & _ & Mono).
         destruct (Mono k) as (t3 & T1 & T2); [exists tile; auto|]. congruence.
      -- rewrite <- G4. symmetry. apply wheel_of_wheels. apply U.
    * assert (j = k) by (apply Hone; exact FV). subst j.
      destruct M as (t3 & T1 & T2). congruence.
  - destruct (contact_spec _ _ _ H0) as [_ [_ _ C _ _ | j _ FV2 _ _ _ _ _]]; [exact C|].
    exfalso. destruct FV2 as (o2 & t2 & w2 & G1 & G2 & G3 & G4).
    rewrite (select_tile_untouched c U) in G1.
    assert (j = k) by congruence. subst j.
    assert (o2 = obj) by congruence. subst o2.
    destruct E as [[D|N] _ _ _ _ | j _ FV M _ _ _ _]; [discriminate| |].
    * apply (N k). exists obj, tile, w2. repeat split; auto.
      -- destruct (road_visited tile) eqn:Hv; [|reflexivity]. exfalso.
         destruct U as (_ & _ & _ & _ & _ & _ & _ & _ & Mono).
         destruct (Mono k) as (t3 & T1 & T2); [exists tile; auto|]. congruence.
      -- rewrite <- G4. symmetry. apply wheel_of_wheels. apply U.
    * assert (j = k) by (apply Hone; exact FV). subst j.
      destruct M as (t3 & T1 & T2). congruence.
Qed.

(** ** One frame of callbacks *)

Lemma fire_spec s ev s' :
  fire s ev = Ok s' -> untouched s s' /\ exists c b, contact_effect s c b s'.
Proof.
  destruct ev as [c|c]; simpl; unfold BeginContact, EndContact; intros H;
    destruct (contact_spec _ _ _ H) as [U E]; split; eauto.
Qed.

Lemma events_spec evs :
  forall s s', foldM fire evs s = Ok s' ->
    untouched s s' /\
    (tile_visited_count s <= tile_visited_count s')%Z /\
    (tile_visited_count s' - tile_visited_count s
     = visited_tiles (road s') - visited_tiles (road s))%Z /\
    reward s' == reward s
                 + inject_Z (tile_visited_count s' - tile_visited_count s) * credit_unit s.
Proof.
  induction evs as [|ev evs IH]; intros s s' H; simpl in H.
  - injection H as <-. split; [apply untouched_refl|].
    rewrite !Z.sub_diag. repeat split; try lia. simpl. ring.
  - destruct (fire s ev) as [s1|] eqn:F; simpl in H; [|discriminate].
    destruct (fire_spec _ _ F) as [U1 (c & b & E)].
    destruct (IH _ _ H) as (U2 & Hle & Hv & Hr).
    split; [eapply untouched_trans; eauto|].
    assert (Hu : credit_unit s1 = credit_unit s).
    { unfold credit_unit. destruct U1 as (_ & _ & _ & -> & _). reflexivity. }
    rewrite Hu in Hr.
    destruct E as [_ R C V _ | k _ _ _ _ R C V].
    + rewrite R, C, V in *. repeat split; auto.
    + repeat split; try lia.
      rewrite Hr, R, C.
      replace (tile_visited_count s' - tile_visited_count s)%Z
        with ((tile_visited_count s' - (tile_visited_count s + 1)) + 1)%Z by lia.
      rewrite inject_Z_plus. unfold credit_unit. simpl (inject_Z 1). ring.
Qed.

Lemma events_new_lap evs s s' :
  foldM fire evs s = Ok s' -> new_lap s' = new_lap s.
Proof. intros H. apply (events_spec _ _ H). Qed.

(** ** One step *)

Lemma Qgtb_spec (a b : Q) : Qgtb a b = true <-> b < a.
Proof.
  unfold Qgtb, Qltb. rewrite negb_true_iff.
  split; intros H.
  - apply Qnot_le_lt. intros L. apply Qle_bool_iff in L. congruence.
  - destruct (Qle_bool a b) eqn:E; [|reflexivity].
    apply Qle_bool_iff in E. exfalso. apply (Qlt_not_le _ _ H E).
Qed.

Lemma out_of_playfield_spec p : out_of_playfield p = true <-> beyond_playfield p.
Proof.
  destruct p as [x y]. unfold out_of_playfield, beyond_playfield. simpl.
  rewrite orb_true_iff, !Qgtb_spec. tauto.
Qed.

Lemma move_hull_fields p s :
  reward (move_hull p s) = reward s /\
  prev_reward (move_hull p s) = prev_reward s /\
  tile_visited_count (move_hull p s) = tile_visited_count s /\
  track (move_hull p s) = track s /\
  new_lap (move_hull p s) = new_lap s /\
  road (move_hull p s) = road s /\
  t (move_hull p s) = t s /\
  contactListener_keepref (move_hull p s) = contactListener_keepref s /\
  corner_num (move_hull p s) = corner_num s.
Proof. unfold move_hull. destruct (car s); simpl; repeat split. Qed.

Lemma move_hull_car p s c :
  car s = Some c ->
  car (move_hull p s) = Some (mkCar (init_angle c) (init_add_angle c) p (wheel_tiles c)).
Proof. unfold move_hull. intros ->. reflexivity. Qed.

Lemma step_with_action self a evs p c s1 :
  car self = Some c ->
  foldM fire evs self = Ok s1 ->
  step self (Some a) (mkFrame evs p) = Ok (after_action p s1, action_result p s1).
Proof.
  intros Hc Hf. unfold step. rewrite Hc. simpl. rewrite Hf. simpl.
  destruct (events_spec _ _ Hf) as (U & _).
  assert (exists c1, car s1 = Some c1) as [c1 Hc1]
    by (eapply wheels_car; [exact Hc | apply U]).
  erewrite move_hull_car by exact Hc1. simpl.
  destruct (move_hull_fields p s1) as (F1 & F2 & F3 & F4 & F5 & _).
  unfold action_result, after_action, after_frame. simpl.
  rewrite F1, F2, F3, F4, F5.
  destruct (out_of_playfield p); reflexivity.
Qed.

Lemma step_inversion self a f s' r :
  step self (Some a) f = Ok (s', r) ->
  exists c s1,
    car self = Some c /\
    foldM fire (events f) self = Ok s1 /\
    s' = after_action (position f) s1 /\
    r = action_result (position f) s1.
Proof.
  intros H. destruct f as [evs p].
  destruct (car self) as [c|] eqn:Hc.
  2:{ unfold step in H. rewrite Hc in H. discriminate. }
  destruct (foldM fire evs self) as [s1|] eqn:Hf.
  2:{ unfold step in H. rewrite Hc in H. simpl in H. rewrite Hf in H. discriminate. }
  erewrite step_with_action in H by eassumption. injection H as <- <-.
  exists c, s1. auto.
Qed.

Lemma after_action_fields p s1 :
  reward (after_action p s1) = reward s1 - (1 # 10) /\
  prev_reward (after_action p s1) = reward s1 - (1 # 10) /\
  tile_visited_count (after_action p s1) = tile_visited_count s1 /\
  track (after_action p s1) = track s1 /\
  new_lap (after_action p s1) = new_lap s1 /\
  road (after_action p s1) = road s1 /\
  contactListener_keepref (after_action p s1) = contactListener_keepref s1 /\
  corner_num (after_action p s1) = corner_num s1.
Proof.
  destruct (move_hull_fields p s1) as (F1 & F2 & F3 & F4 & F5 & F6 & F7 & F8 & F9).
  unfold after_action, after_frame. simpl. rewrite F1. repeat split; auto.
Qed.

(** ** Out-of-bounds termination *)

(** C5.  A step with an action whose physics advance leaves the hull beyond
    the playfield bound on either axis returns done = true and a step reward
    of exactly -100, whatever was credited or charged during the step; and
    the step does return whenever the car exists and the callbacks complete. *)
Theorem out_of_bounds_step :
  forall (self : CarRacing) (a : Action) (f : Frame),
    beyond_playfield (position f) ->
    (forall self' r, step self (Some a) f = Ok (self', r) ->
       step_reward r = (-100) /\ done r = true) /\
    (forall c s1, car self = Some c -> foldM fire (events f) self = Ok s1 ->
       exists self', step self (Some a) f = Ok (self', mkResult (-100) true)).
Proof.
  intros self a f Hout. apply out_of_playfield_spec in Hout. split.
  - intros self' r H.
    destruct (step_inversion _ _ _ H) as (c & s1 & _ & _ & _ & ->).
    unfold action_result. rewrite Hout. split; reflexivity.
  - intros c s1 Hc Hf. destruct f as [evs p]. simpl in *.
    exists (after_action p s1).
    erewrite step_with_action by eassumption.
    unfold action_result. rewrite Hout. reflexivity.
Qed.

Lemma out_of_bounds_step_witness :
  beyond_playfield (position (mkFrame [touch 1] (201, 0))) /\
  exists self',
    step (fresh_episode 3) (Some coast) (mkFrame [touch 1] (201, 0))
    = Ok (self', mkResult (-100) true).
Proof.
  assert (B : beyond_playfield (position (mkFrame [touch 1] (201, 0)))).
  { left. vm_compute. reflexivity. }
  split; [exact B|].
  refine (proj2 (out_of_bounds_step (fresh_episode 3) coast
                   (mkFrame [touch 1] (201, 0)) B) _ _ _ _).
  - reflexivity.
  - vm_compute. reflexivity.
Defined.

(** C9.  On an out-of-bounds step the -100 goes to the returned step reward
    only.  The cumulative reward and its snapshot are both the reward after
    the callbacks minus the per-step 0.1, exactly what the same frame leaves
    when the hull stays inside the playfield. *)
Theorem out_of_bounds_penalty_not_accumulated :
  forall (self self' : CarRacing) (a : Action) (evs : list ContactEvent) (p : Q * Q)
         (r : StepResult),
    beyond_playfield p ->
    step self (Some a) (mkFrame evs p) = Ok (self', r) ->
    step_reward r = (-100) /\
    exists s1,
      foldM fire evs self = Ok s1 /\
      reward self' = reward s1 - (1 # 10) /\
      prev_reward self' = reward s1 - (1 # 10) /\
      forall p', ~ beyond_playfield p' ->
        exists self'' r',
          step self (Some a) (mkFrame evs p') = Ok (self'', r') /\
          reward self'' = reward self' /\
          prev_reward self'' = prev_reward self' /\
          tile_visited_count self'' = tile_visited_count self' /\
          road self'' = road self' /\
          step_reward r' = reward self' - prev_reward s1.
Proof.
  intros self self' a evs p r Hout H.
  destruct (step_inversion _ _ _ H) as (c & s1 & Hc & Hf & -> & ->).
  cbn [position events] in *.
  apply out_of_playfield_spec in Hout.
  split; [unfold action_result; rewrite Hout; reflexivity|].
  exists s1. destruct (after_action_fields p s1) as (R & P & C & _ & _ & Rd & _).
  repeat split; auto.
  intros p' Hin.
  exists (after_action p' s1), (action_result p' s1).
  destruct (after_action_fields p' s1) as (R' & P' & C' & _ & _ & Rd' & _).
  split; [eapply step_with_action; eauto|].
  split; [now rewrite R, R'|].
  split; [now rewrite P, P'|].
  split; [now rewrite C, C'|].
  split; [now rewrite Rd, Rd'|].
  rewrite R. unfold action_result.
  destruct (out_of_playfield p') eqn:E.
  - exfalso. apply Hin. now apply out_of_playfield_spec.
  - reflexivity.
Qed.

Lemma out_of_bounds_penalty_not_accumulated_witness :
  beyond_playfield (0, -(250)) /\
  exists self' r,
    step (fresh_episode 4) (Some coast) (mkFrame [touch 2] (0, -(250))) = Ok (self', r) /\
    step_reward r = (-100) /\
    reward self' = 0 + 1000 / inject_Z 4 - (1 # 10) /\
    prev_reward self' = 0 + 1000 / inject_Z 4 - (1 # 10).
Proof.
  assert (B : beyond_playfield (0, -(250))) by (right; vm_compute; reflexivity).
  split; [exact B|].
  destruct (step (fresh_episode 4) (Some coast) (mkFrame [touch 2] (0, -(250))))
    as [[self' r]|] eqn:E; [|vm_compute in E; discriminate].
  exists self', r. split; [reflexivity|].
  destruct (out_of_bounds_penalty_not_accumulated (fresh_episode 4) coast
              [touch 2] B E) as (Hr & s1 & Hf & R & P & _).
  vm_compute in Hf. injection Hf as <-.
  repeat split; assumption.
Defined.

(** ** Termination flag *)

(** No callback writes [self.env.new_lap], and neither does [step]: the flag a
    step reads is the one [reset] cleared. *)
Lemma step_keeps_new_lap self a f self' r :
  step self (Some a) f = Ok (self', r) -> new_lap self' = new_lap self.
Proof.
  intros H. destruct (step_inversion _ _ _ H) as (c & s1 & _ & Hf & -> & _).
  destruct (after_action_fields (position f) s1) as (_ & _ & _ & _ & N & _).
  rewrite N. eapply events_new_lap; eauto.
Qed.

(** When a step with an action reports done. *)
Lemma step_done_cases self a f self' r :
  step self (Some a) f = Ok (self', r) ->
  done r = out_of_playfield (position f)
           || (tile_visited_count self' =? len (track self'))%Z
           || new_lap self.
Proof.
  intros H. destruct (step_inversion _ _ _ H) as (c & s1 & _ & Hf & -> & ->).
  destruct (after_action_fields (position f) s1) as (_ & _ & C & T & _).
  rewrite C, T, <- (events_new_lap _ _ Hf). unfold action_result.
  destruct (out_of_playfield (position f)); reflexivity.
Qed.

(** C1.  After a reset onto an unrestricted 21-tile track with the default
    [lap_complete_percent] of 0.95, tile 0 is first contacted when 19 other
    tiles are visited, so the listener detects the lap (20/21 > 0.95) and
    records it in its own attribute [env_new_lap]; the environment's
    [new_lap] stays false and the step, like the next one, returns
    done = false. *)
Theorem lap_completion_not_reported :
  exists s0 s1 s2 s3 r1 r2 r3,
    reset cos_at_0 sin_at_0 sqrt_at_0 pi_approx decimal_float (walk_two_laps 21)
          1 no_files None same_draws (0, 0, 0) (at_rest [])
          (constructed None None) = Some (Ok s0) /\
    step s0 (Some coast) lap_frame1 = Ok (s1, r1) /\
    step s1 (Some coast) lap_frame2 = Ok (s2, r2) /\
    step s2 (Some coast) lap_frame3 = Ok (s3, r3) /\
    tile_visited_count s2 = 20%Z /\
    len (track s2) = 21%Z /\
    env_new_lap (contactListener_keepref s2) = true /\
    new_lap s2 = false /\
    done r2 = false /\
    done r3 = false.
Proof.
  destruct (reset cos_at_0 sin_at_0 sqrt_at_0 pi_approx decimal_float (walk_two_laps 21)
              1 no_files None same_draws (0, 0, 0) (at_rest [])
              (constructed None None)) as [[s0|e]|] eqn:E0;
    [|vm_compute in E0; discriminate ..].
  assert (C0 := E0). vm_compute in C0. injection C0 as C0.
  destruct (step s0 (Some coast) lap_frame1) as [[s1 r1]|] eqn:E1;
    [|rewrite <- C0 in E1; vm_compute in E1; discriminate].
  assert (C1 := E1). rewrite <- C0 in C1. vm_compute in C1. injection C1 as C1 D1.
  destruct (step s1 (Some coast) lap_frame2) as [[s2 r2]|] eqn:E2;
    [|rewrite <- C1 in E2; vm_compute in E2; discriminate].
  assert (C2 := E2). rewrite <- C1 in C2. vm_compute in C2. injection C2 as C2 D2.
  destruct (step s2 (Some coast) lap_frame3) as [[s3 r3]|] eqn:E3;
    [|rewrite <- C2 in E3; vm_compute in E3; discriminate].
  assert (C3 := E3). rewrite <- C2 in C3. vm_compute in C3. injection C3 as C3 D3.
  exists s0, s1, s2, s3, r1, r2, r3.
  split; [reflexivity|]. split; [exact E1|]. split; [exact E2|]. split; [exact E3|].
  rewrite <- C2, <- D2, <- D3. repeat split; reflexivity.
Qed.

(** ** The closed-loop scan *)

Lemma find_loop_bounds trk sa :
  forall i i2 a b,
    find_loop trk sa i (-1) i2 = Ok (Some (a, b)) ->
    (1 <= a <= Z.of_nat i - 1)%Z /\
    ((i2 = (-1)%Z /\ (a < b <= Z.of_nat i - 1)%Z) \/ (i2 <> (-1)%Z /\ b = i2)).
Proof.
  induction i as [|i IH]; intros i2 a b H; simpl in H; [discriminate|].
  destruct (i =? 0)%nat eqn:E0; [discriminate|].
  apply Nat.eqb_neq in E0.
  destruct (pass_through_start trk sa (Z.of_nat i)) as [p|]; simpl in H; [|discriminate].
  destruct p; simpl in H.
  - destruct (i2 =? -1)%Z eqn:E2; simpl in H.
    + apply Z.eqb_eq in E2. apply IH in H. destruct H as [Ha [[Hb _]|[_ Hb]]]; [lia|].
      split; [lia|]. left. split; [exact E2|]. lia.
    + apply Z.eqb_neq in E2. injection H as <- <-.
      split; [lia|]. right. auto.
  - apply IH in H. destruct H as [Ha [[Hb Hc]|[Hb Hc]]].
    + split; [lia|]. left. split; [exact Hb|]. lia.
    + split; [lia|]. right. auto.
Qed.

Lemma slice_length {A} (l : list A) (a b : Z) :
  (0 <= a <= b)%Z -> (b <= len l)%Z -> len (slice l (Some a) (Some b)) = (b - a)%Z.
Proof.
  intros Hab Hb. unfold slice, clamp, len in *.
  assert (Ea : (a <? 0)%Z = false) by (apply Z.ltb_ge; lia).
  assert (Eb : (b <? 0)%Z = false) by (apply Z.ltb_ge; lia).
  rewrite Ea, Eb.
  rewrite length_firstn, length_skipn. lia.
Qed.

Lemma range_length a b : List.length (range a b) = Z.to_nat (b - a).
Proof. unfold range. now rewrite length_map, length_seq. Qed.

Lemma range_nth a b j v :
  nth_error (range a b) j = Some v -> v = (a + Z.of_nat j)%Z.
Proof.
  unfold range. intros H.
  rewrite nth_error_map in H.
  destruct (nth_error (seq 0 (Z.to_nat (b - a))) j) as [k|] eqn:E; simpl in H; [|discriminate].
  injection H as <-.
  assert (Hj : (j < List.length (seq 0 (Z.to_nat (b - a))))%nat)
    by (apply nth_error_Some; congruence).
  rewrite length_seq in Hj.
  rewrite (nth_error_nth' _ 0%nat) in E by (rewrite length_seq; exact Hj).
  rewrite seq_nth in E by exact Hj. injection E as <-. reflexivity.
Qed.

(** C2.  When the backward scan finds the crossings [i1 < i2], the generator
    reports [i2 - i1] tiles, but the slice [track[i1 : i2 - 1]] keeps
    [i2 - i1 - 1] points, and an unrestricted track gets as many tiles: one
    fewer than reported. *)
Theorem kept_points_one_short_of_report :
  forall (trk : list TrackPoint) (sa : Q) (i1 i2 : Z),
    find_loop trk sa (List.length trk) (-1) (-1) = Ok (Some (i1, i2)) ->
    (i1 < i2)%Z /\
    reported_tiles i1 i2 = (i2 - i1)%Z /\
    len (keep_lap trk i1 i2) = (i2 - i1 - 1)%Z /\
    forall g, exists iter,
      tile_indices None g (keep_lap trk i1 i2) = Ok iter /\
      len iter = (reported_tiles i1 i2 - 1)%Z.
Proof.
  intros trk sa i1 i2 H.
  destruct (find_loop_bounds _ _ _ _ H) as [Ha [[_ Hb]|[Hb _]]]; [|congruence].
  assert (L : len (keep_lap trk i1 i2) = (i2 - i1 - 1)%Z).
  { unfold keep_lap. rewrite slice_length; unfold len; lia. }
  repeat split; try lia; try reflexivity; auto.
  intros g. exists (range 0 (len (keep_lap trk i1 i2))). split; [reflexivity|].
  unfold len at 1. rewrite range_length. unfold reported_tiles. rewrite L. lia.
Qed.

Lemma kept_points_one_short_of_report_witness :
  find_loop (two_laps 5) (- (1 # 4)) (List.length (two_laps 5)) (-1) (-1)
  = Ok (Some (1%Z, 7%Z)) /\
  reported_tiles 1 7 = 6%Z /\
  len (keep_lap (two_laps 5) 1 7) = 5%Z.
Proof.
  assert (F : find_loop (two_laps 5) (- (1 # 4)) (List.length (two_laps 5)) (-1) (-1)
              = Ok (Some (1%Z, 7%Z))) by (vm_compute; reflexivity).
  split; [exact F|].
  destruct (kept_points_one_short_of_report (two_laps 5) (- (1 # 4)) F)
    as (_ & R & K & _).
  split; [exact R | exact K].
Defined.

(** ** Track generation *)

(** Case analysis on the first computation of a sequence that succeeded. *)
Ltac bind_ok H :=
  match type of H with
  | Py.bind ?m _ = Ok _ =>
      let E := fresh "E" in
      destruct m eqn:E; simpl in H; [|discriminate]
  end.

Lemma same_episode_refl s : same_episode s s.
Proof. unfold same_episode; intuition. Qed.

Lemma same_episode_trans s1 s2 s3 :
  same_episode s1 s2 -> same_episode s2 s3 -> same_episode s1 s3.
Proof. unfold same_episode; intuition congruence. Qed.

Section TrackProperties.

Variables (cos sin sqrt : Q -> Q) (pi : Q).
Variable py_float : string -> option Q.
Variable walk : list Checkpoint -> list TrackPoint.

Lemma create_tile_spec rc trk border rd poly i rd' poly' :
  create_tile cos sin rc trk border (rd, poly) i = Ok (rd', poly') ->
  exists tl, rd' = rd ++ [tl] /\ idx tl = i /\ built_from cos sin trk tl.
Proof.
  unfold create_tile. intros H.
  destruct (index trk i) as [p1|] eqn:E1; simpl in H; [|discriminate].
  destruct (index trk (i - 1)) as [p2|] eqn:E2; simpl in H; [|discriminate].
  destruct (index border i) as [b|] eqn:E3; simpl in H; [|discriminate].
  assert (Hrd : rd' = rd ++ [mkTile i false 1
                   (shade rc ((1 # 100) * inject_Z (i mod 3) * 255))
                   [edge cos sin p1 (- TRACK_WIDTH); edge cos sin p1 TRACK_WIDTH;
                    edge cos sin p2 TRACK_WIDTH; edge cos sin p2 (- TRACK_WIDTH)]]).
  { destruct b; injection H as <- _; reflexivity. }
  eexists. split; [exact Hrd|]. split; [reflexivity|].
  exists p1, p2. simpl. auto.
Qed.

Lemma tiles_spec rc trk border :
  forall iter rd poly rd' poly',
    foldM (create_tile cos sin rc trk border) iter (rd, poly) = Ok (rd', poly') ->
    exists fresh,
      rd' = rd ++ fresh /\ map idx fresh = iter /\ Forall (built_from cos sin trk) fresh.
Proof.
  induction iter as [|i iter IH]; intros rd poly rd' poly' H; cbn [foldM] in H.
  - injection H as <- <-. exists []. rewrite app_nil_r. auto.
  - destruct (create_tile cos sin rc trk border (rd, poly) i) as [[rd1 poly1]|] eqn:E;
      cbn [Py.bind] in H; [|discriminate].
    destruct (create_tile_spec _ _ _ _ _ _ E) as (tl & -> & Hi & Hb).
    destruct (IH _ _ _ _ H) as (fresh & -> & Hm & Hf).
    exists (tl :: fresh). rewrite <- app_assoc. simpl.
    repeat split; auto. now rewrite Hi, Hm.
Qed.

Lemma finalise_track_fields fs draws self fin s1 :
  finalise_track cos sin sqrt pi py_float walk fs draws self = Ok (fin, s1) ->
  same_episode self s1 /\ road s1 = [] /\ road_poly s1 = road_poly self.
Proof.
  unfold finalise_track. intros H.
  bind_ok H. destruct a as [cps sa].
  bind_ok H. bind_ok H.
  destruct a0 as [[i1 i2]|].
  - bind_ok H.
    destruct (Qgtb a0 TRACK_DETAIL_STEP).
    + injection H as _ <-.
      destruct (verbose self); simpl; unfold same_episode; simpl; intuition.
    + bind_ok H. injection H as _ <-.
      destruct (verbose self); simpl; unfold same_episode; simpl; intuition.
  - injection H as _ <-. unfold same_episode; simpl; intuition.
Qed.

Lemma create_tiles_spec g trk border s1 s2 :
  create_tiles cos sin g trk border s1 = Ok s2 ->
  same_episode s1 s2 /\
  exists iter fresh,
    tile_indices (corner_num s1) g trk = Ok iter /\
    road s2 = road s1 ++ fresh /\
    map idx fresh = iter /\
    Forall (built_from cos sin trk) fresh /\
    exposed_track (corner_num s1) g trk = Ok (track s2).
Proof.
  unfold create_tiles. intros H.
  bind_ok H. bind_ok H. destruct a0 as [rd poly].
  bind_ok H. injection H as <-.
  destruct (tiles_spec _ _ _ _ _ _ E0) as (fresh & -> & Hm & Hf).
  split; [unfold same_episode; simpl; repeat split|].
  exists a, fresh. simpl. repeat split; assumption.
Qed.

Lemma tile_indices_nth k g trk iter :
  tile_indices k g trk = Ok iter ->
  exists start,
    first_index k g = Ok start /\
    forall j v, nth_error iter j = Some v -> v = (start + Z.of_nat j)%Z.
Proof.
  unfold tile_indices, first_index. destruct (restricted k).
  - intros H. bind_ok H. bind_ok H. injection H as <-.
    cbn [Py.bind]. rewrite E0. cbn [Py.bind].
    eexists; split; [reflexivity|]. intros j v. apply range_nth.
  - intros H. injection H as <-.
    eexists; split; [reflexivity|]. intros j v. apply range_nth.
Qed.

Lemma tile_indices_range k g trk iter :
  tile_indices k g trk = Ok iter ->
  exists start stop,
    first_index k g = Ok start /\
    iter = range start stop /\
    (restricted k = false -> start = 0%Z /\ stop = len trk) /\
    (restricted k = true ->
     exists n e, read_global g = Ok n /\ corners n = Ok e /\
                 start = tile_start e /\ stop = tile_end e).
Proof.
  unfold tile_indices, first_index. destruct (restricted k).
  - intros H. bind_ok H. bind_ok H. injection H as <-.
    cbn [Py.bind]. rewrite E0. cbn [Py.bind].
    exists (tile_start a0), (tile_end a0).
    split; [reflexivity|]. split; [reflexivity|]. split; [discriminate|].
    intros _. exists a, a0. repeat split; assumption.
  - intros H. injection H as <-.
    exists 0%Z, (len trk).
    split; [reflexivity|]. split; [reflexivity|]. split; [intros _; split; reflexivity|].
    discriminate.
Qed.

Lemma range_at a b i :
  (a <= i < b)%Z -> nth_error (range a b) (Z.to_nat (i - a)) = Some i.
Proof.
  intros H. unfold range.
  rewrite nth_error_map, nth_error_seq.
  assert (E : (Z.to_nat (i - a) <? Z.to_nat (b - a))%nat = true)
    by (apply Nat.ltb_lt; lia).
  rewrite E. cbn [option_map]. f_equal. lia.
Qed.

(** C8.  After a successful generation, restricted to a scenario or not,
    the tile loop has emitted exactly one road body for every index from
    [start] up to (not including) [stop], in that order, where [start] and
    [stop] are the range of the scenario (0 and the length of the finalised
    track without restriction): the stable indices of [road] are
    [start, start + 1, ..., stop - 1].  The road body at position [j] of
    [road] carries the stable index [start + j] and spans the points [idx]
    and [idx - 1] of the unsliced finalised track: the stable index is the
    position in the original track. *)
Theorem stable_indices_follow_unsliced_track :
  forall (fs : FileSystem) (g : global_binding) (draws : nat -> Q * Q)
         (self self' : CarRacing),
    _create_track cos sin sqrt pi py_float walk fs g draws self = Ok (true, self') ->
    exists trk border s1 start stop,
      finalise_track cos sin sqrt pi py_float walk fs draws self
      = Ok (Some (trk, border), s1) /\
      first_index (corner_num self) g = Ok start /\
      (restricted (corner_num self) = false -> stop = len trk) /\
      (restricted (corner_num self) = true ->
       exists n e, read_global g = Ok n /\ corners n = Ok e /\ stop = tile_end e) /\
      map idx (road self') = range start stop /\
      (forall i, (start <= i < stop)%Z ->
         exists tl, nth_error (road self') (Z.to_nat (i - start)) = Some tl /\
                    idx tl = i /\ built_from cos sin trk tl) /\
      (forall j tl, nth_error (road self') j = Some tl ->
         idx tl = (start + Z.of_nat j)%Z /\ built_from cos sin trk tl).
Proof.
  intros fs g draws self self' H. unfold _create_track in H.
  bind_ok H. destruct a as [fin s1].
  destruct fin as [[trk border]|]; [|discriminate].
  bind_ok H. injection H as <-.
  destruct (finalise_track_fields _ _ _ E) as (S1 & R1 & _).
  destruct (create_tiles_spec _ _ _ _ E0) as (_ & iter & fresh & Hi & Hr & Hm & Hf & _).
  rewrite R1 in Hr. simpl in Hr.
  assert (Hc : corner_num s1 = corner_num self) by apply S1.
  rewrite Hc in Hi.
  destruct (tile_indices_range _ _ _ Hi) as (start & stop & Hs & Hrange & Hfree & Hres).
  exists trk, border, s1, start, stop.
  split; [reflexivity|]. split; [exact Hs|].
  split; [intros Hu; apply Hfree; exact Hu|].
  split.
  { intros Hu. destruct (Hres Hu) as (n & e & Hg & He & _ & Hstop).
    exists n, e. repeat split; assumption. }
  split; [rewrite Hr, Hm; exact Hrange|].
  split.
  - intros i Hi'.
    pose proof (range_at Hi') as N. rewrite <- Hrange, <- Hm, nth_error_map in N.
    rewrite Hr.
    destruct (nth_error fresh (Z.to_nat (i - start))) as [tl|] eqn:T; [|discriminate].
    cbn [option_map] in N. injection N as N.
    exists tl. split; [reflexivity|]. split; [exact N|].
    eapply Forall_forall; [exact Hf|]. eapply nth_error_In; eauto.
  - intros j tl Hj. rewrite Hr in Hj. split.
    + eapply range_nth. rewrite <- Hrange, <- Hm, nth_error_map, Hj. reflexivity.
    + eapply Forall_forall; [exact Hf|]. eapply nth_error_In; eauto.
Qed.

End TrackProperties.

(** ** Reset *)

Section ResetProperties.

Variables (cos sin sqrt : Q -> Q) (pi : Q).
Variable py_float : string -> option Q.
Variable walk : list Checkpoint -> list TrackPoint.

Local Abbreviation create_track := (_create_track cos sin sqrt pi py_float walk).
Local Abbreviation finalise := (finalise_track cos sin sqrt pi py_float walk).
Local Abbreviation retry := (create_until_success cos sin sqrt pi py_float walk).
Local Abbreviation do_reset := (reset cos sin sqrt pi py_float walk).

Lemma built_unvisited trk fresh :
  Forall (built_from cos sin trk) fresh -> visited_tiles fresh = 0%Z.
Proof.
  induction 1 as [|tl r (p1 & p2 & _ & _ & _ & Hv) _ IH]; simpl; [reflexivity|].
  rewrite Hv, IH. reflexivity.
Qed.

Lemma create_track_spec fs g draws self ok s' :
  create_track fs g draws self = Ok (ok, s') ->
  same_episode self s' /\
  (ok = true ->
     visited_tiles (road s') = 0%Z /\
     exists trk border s1 iter,
       finalise fs draws self = Ok (Some (trk, border), s1) /\
       tile_indices (corner_num self) g trk = Ok iter /\
       len (road s') = len iter /\
       exposed_track (corner_num self) g trk = Ok (track s')).
Proof.
  unfold _create_track. intros H.
  bind_ok H. destruct a as [fin s1].
  pose proof E as F. apply finalise_track_fields in F as (S1 & R1 & _).
  destruct fin as [[trk border]|].
  - bind_ok H. injection H as <- <-.
    apply create_tiles_spec in E0 as (S2 & iter & fresh & Hi & Hr & Hm & Hf & Hx).
    rewrite R1 in Hr. simpl in Hr.
    assert (Hc : corner_num s1 = corner_num self) by apply S1.
    rewrite Hc in Hi, Hx.
    split; [eapply same_episode_trans; eauto|]. intros _.
    split; [rewrite Hr; eapply built_unvisited; eauto|].
    exists trk, border, s1, iter. repeat split; auto.
    unfold len. now rewrite Hr, <- Hm, length_map.
  - injection H as <- <-. split; [exact S1 | discriminate].
Qed.

Lemma print_same_episode m s : same_episode s (print m s).
Proof. unfold same_episode; simpl; repeat split. Qed.

Lemma retry_spec fs g draws :
  forall fuel k self s',
    retry fuel k fs g draws self = Some (Ok s') ->
    same_episode self s' /\
    visited_tiles (road s') = 0%Z /\
    exists j start_state ok_state,
      same_episode self start_state /\
      create_track fs g (draws j) start_state = Ok (true, ok_state) /\
      s' = ok_state.
Proof.
  induction fuel as [|fuel IH]; intros k self s' H; simpl in H; [discriminate|].
  destruct (create_track fs g (draws k) self) as [[[|] s1]|] eqn:E.
  - injection H as <-.
    pose proof E as F. apply create_track_spec in F as (S1 & Hok).
    destruct (Hok eq_refl) as (V & _).
    split; [exact S1|]. split; [exact V|].
    exists k, self, s1.
    split; [apply same_episode_refl|]. split; [exact E | reflexivity].
  - pose proof E as F. apply create_track_spec in F as (S1 & _).
    apply IH in H. destruct H as (S2 & V & j & st & ok & S3 & C & ->).
    assert (S4 : same_episode s1 (if verbose s1 then print MsgRetry s1 else s1)).
    { destruct (verbose s1); [apply print_same_episode | apply same_episode_refl]. }
    assert (S5 : same_episode self (if verbose s1 then print MsgRetry s1 else s1))
      by (eapply same_episode_trans; eauto).
    split; [eapply same_episode_trans; eauto|]. split; [exact V|].
    exists j, st, ok.
    split; [eapply same_episode_trans; eauto|]. split; [exact C | reflexivity].
  - discriminate.
Qed.

Lemma reset_counters_spec colour self s :
  reset_counters colour self = Ok s ->
  corner_num s = corner_num self /\
  sim_params_path s = sim_params_path self /\
  reward s = 0 /\ prev_reward s = 0 /\ tile_visited_count s = 0%Z /\ new_lap s = false.
Proof.
  unfold reset_counters, _destroy, _init_colors. intros H.
  destruct (road self).
  - simpl in H. injection H as <-.
    destruct (domain_randomize self); simpl; repeat split.
  - destruct (car self); simpl in H; [|discriminate].
    injection H as <-. destruct (domain_randomize self); simpl; repeat split.
Qed.

Lemma step_without_action self f s' r :
  step self None f = Ok (s', r) ->
  exists s1, foldM fire (events f) self = Ok s1 /\ s' = after_frame (position f) s1.
Proof.
  unfold step. intros H. bind_ok H. bind_ok H. injection H as <- _.
  exists a0. split; reflexivity.
Qed.

Lemma after_frame_fields p s1 :
  reward (after_frame p s1) = reward s1 /\
  prev_reward (after_frame p s1) = prev_reward s1 /\
  tile_visited_count (after_frame p s1) = tile_visited_count s1 /\
  track (after_frame p s1) = track s1 /\
  new_lap (after_frame p s1) = new_lap s1 /\
  road (after_frame p s1) = road s1 /\
  corner_num (after_frame p s1) = corner_num s1.
Proof.
  destruct (move_hull_fields p s1) as (F1 & F2 & F3 & F4 & F5 & F6 & F7 & F8 & F9).
  unfold after_frame. simpl. repeat split; assumption.
Qed.

Lemma corners_in_table k e : corners k = Ok e -> in_corners k = true.
Proof.
  unfold corners, in_corners. destruct (assoc k corners_table); [reflexivity|discriminate].
Qed.

Lemma place_and_prime_spec frame s s0 :
  place_and_prime frame s = Ok s0 ->
  reward s = 0 -> tile_visited_count s = 0%Z -> visited_tiles (road s) = 0%Z ->
  in_corners (corner_num s) = true /\
  len (track s) <> 0%Z /\
  corner_num s0 = corner_num s /\
  track s0 = track s /\
  prev_reward s0 = prev_reward s /\
  new_lap s0 = new_lap s /\
  List.length (road s0) = List.length (road s) /\
  ledger 0 s0.
Proof.
  unfold place_and_prime. intros H R0 C0 V0.
  bind_ok H. bind_ok H. bind_ok H. destruct a1 as [s2 r]. injection H as <-.
  apply step_without_action in E1 as (s1 & Hf & ->).
  apply events_spec in Hf as (U & _ & Hv & Hr).
  destruct U as (U1 & U2 & U3 & U4 & U5 & U6 & U7 & _).
  simpl in U1, U2, U3, U4, U7, Hv, Hr.
  destruct (after_frame_fields (position frame) s1) as (F1 & F2 & F3 & F4 & F5 & F6 & F7).
  split; [eapply corners_in_table; eauto|].
  split.
  { unfold index in E. simpl in E. unfold len.
    destruct (track s); [discriminate | simpl; lia]. }
  split; [congruence|]. split; [congruence|]. split; [congruence|].
  split; [congruence|]. split; [congruence|].
  unfold ledger, credit_unit. rewrite F1, F3, F4, F6, U4.
  rewrite C0, V0 in Hv. rewrite R0, C0 in Hr.
  split; [lia|].
  rewrite Hr. unfold credit_unit. simpl. rewrite Z.sub_0_r. ring.
Qed.

Lemma reset_spec fuel fs g draws colour frame self s0 :
  do_reset fuel fs g draws colour frame self = Some (Ok s0) ->
  in_corners (corner_num self) = true /\
  corner_num s0 = corner_num self /\
  len (track s0) <> 0%Z /\
  prev_reward s0 = 0 /\
  new_lap s0 = false /\
  ledger 0 s0.
Proof.
  unfold reset. intros H.
  destruct (reset_counters colour self) as [s1|] eqn:E1; [|discriminate].
  apply reset_counters_spec in E1 as (K1 & _ & R1 & P1 & C1 & N1).
  destruct (retry fuel 0 fs g draws s1) as [[s2|]|] eqn:E2; try discriminate.
  injection H as H.
  apply retry_spec in E2 as ((K2 & _ & _ & R2 & P2 & C2 & N2 & _) & V2 & _).
  apply place_and_prime_spec in H as (I & L & K3 & T3 & P3 & N3 & _ & Ld);
    try congruence.
  rewrite T3. rewrite K2, K1 in I.
  repeat split; try congruence; apply Ld.
Qed.

(** ** Unknown scenario identifiers *)

(** With an identifier missing from the table, [reset] never returns: when
    its retry loop ends, it ends with an exception. *)
Lemma reset_unknown_identifier fuel fs g draws colour frame self out :
  in_corners (corner_num self) = false ->
  do_reset fuel fs g draws colour frame self = Some out ->
  exists e, out = Raise e.
Proof.
  intros Hk H. destruct out as [s0|e]; [|eauto].
  apply reset_spec in H as (I & _). congruence.
Qed.

End ResetProperties.

(** ** Loading checkpoints *)

Lemma slice_prefix_all {A} (l : list A) (n : nat) :
  (List.length l <= n)%nat -> slice l None (Some (Z.of_nat n)) = l.
Proof.
  intros H. unfold slice, clamp, len.
  assert (E : (Z.of_nat n <? 0)%Z = false) by (apply Z.ltb_ge; lia). rewrite E.
  rewrite Z.min_l by lia. rewrite Z.sub_0_r, Nat2Z.id. simpl.
  apply firstn_all.
Qed.

Lemma slice_suffix_all {A} (l : list A) (n : nat) :
  (List.length l <= n)%nat -> slice l (Some (- Z.of_nat n)%Z) None = l.
Proof.
  intros H. unfold slice, clamp, len.
  destruct (- Z.of_nat n <? 0)%Z eqn:E.
  - rewrite Z.max_l by lia. rewrite Z.sub_0_r, Nat2Z.id. simpl. apply firstn_all.
  - apply Z.ltb_ge in E. rewrite Z.min_r by lia.
    assert (n = 0)%nat by lia. subst n. simpl.
    rewrite Z.sub_0_r, Nat2Z.id. apply firstn_all.
Qed.

Section LoadProperties.

Variables (cos sin : Q -> Q) (pi : Q).
Variable py_float : string -> option Q.

Lemma parse_floats_raise ls e :
  parse_floats py_float ls = Raise e -> e = ValueError.
Proof.
  induction ls as [|s r IH]; simpl; [discriminate|].
  destruct (py_float s); simpl; [|congruence].
  destruct (parse_floats py_float r); simpl; [discriminate|].
  intros H. injection H as <-. now apply IH.
Qed.

Lemma parse_floats_length ls vs :
  parse_floats py_float ls = Ok vs -> List.length vs = List.length ls.
Proof.
  revert vs. induction ls as [|s r IH]; simpl; intros vs H.
  - injection H as <-. reflexivity.
  - destruct (py_float s); simpl in H; [|discriminate].
    destruct (parse_floats py_float r) as [vs'|]; simpl in H; [|discriminate].
    injection H as <-. simpl. f_equal. now apply IH.
Qed.

Lemma index_raise {A} (l : list A) i e : index l i = Raise e -> e = IndexError.
Proof.
  unfold index, of_option.
  destruct (0 <=? i)%Z; [destruct (nth_error _ _); congruence|].
  destruct (- len l <=? i)%Z; [destruct (nth_error _ _); congruence | congruence].
Qed.

Lemma set_index_raise {A} (l : list A) i v e : set_index l i v = Raise e -> e = IndexError.
Proof.
  unfold set_index, of_option.
  destruct (0 <=? i)%Z; [destruct (update _ _ _); congruence|].
  destruct (- len l <=? i)%Z; [destruct (update _ _ _); congruence | congruence].
Qed.

Lemma load_step_raise n noise c st e :
  load_step cos sin pi n noise c st = Raise e -> e = IndexError.
Proof.
  unfold load_step. destruct st as [[rad sa] acc].
  destruct (nth_error noise c); simpl; [|congruence].
  destruct (c =? 0)%nat; simpl.
  - destruct (set_index rad (Z.of_nat c) _) as [r0|] eqn:E0; simpl;
      [|intros H; injection H as <-; eapply set_index_raise; eauto].
    destruct (c =? n - 1)%nat; simpl.
    + destruct (set_index r0 (Z.of_nat c) _) as [r1|] eqn:E1; simpl;
        [|intros H; injection H as <-; eapply set_index_raise; eauto].
      destruct (index r1 (Z.of_nat c)) eqn:E2; simpl; [discriminate|].
      intros H; injection H as <-; eapply index_raise; eauto.
    + destruct (index r0 (Z.of_nat c)) eqn:E2; simpl; [discriminate|].
      intros H; injection H as <-; eapply index_raise; eauto.
  - destruct (c =? n - 1)%nat; simpl.
    + destruct (set_index rad (Z.of_nat c) _) as [r1|] eqn:E1; simpl;
        [|intros H; injection H as <-; eapply set_index_raise; eauto].
      destruct (index r1 (Z.of_nat c)) eqn:E2; simpl; [discriminate|].
      intros H; injection H as <-; eapply index_raise; eauto.
    + destruct (index rad (Z.of_nat c)) eqn:E2; simpl; [discriminate|].
      intros H; injection H as <-; eapply index_raise; eauto.
Qed.

Lemma load_step_short n noise c st :
  (List.length noise <= c)%nat ->
  load_step cos sin pi n noise c st = Raise IndexError.
Proof.
  intros H. unfold load_step. destruct st as [[rad sa] acc].
  apply nth_error_None in H. rewrite H. reflexivity.
Qed.

Lemma load_loop_short n noise :
  forall cs st c,
    In c cs -> (List.length noise <= c)%nat ->
    load_loop cos sin pi n noise cs st = Raise IndexError.
Proof.
  induction cs as [|c0 cs IH]; intros st c Hin Hc; [destruct Hin|].
  simpl. destruct (load_step cos sin pi n noise c0 st) as [st'|e] eqn:E; simpl.
  - destruct Hin as [->|Hin]; [|eauto].
    rewrite load_step_short in E by exact Hc. discriminate.
  - f_equal. eapply load_step_raise; eauto.
Qed.

(** With fewer lines than checkpoints, both slices are the whole file and
    the loop runs off the end of [noise]. *)
Lemma load_checkpoints_short fs sa n path lines :
  fs path = Some lines ->
  (List.length lines < n)%nat ->
  load_checkpoints cos sin pi py_float fs sa n path = Raise ValueError \/
  load_checkpoints cos sin pi py_float fs sa n path = Raise IndexError.
Proof.
  intros Hfs Hlen. unfold load_checkpoints. rewrite Hfs. simpl.
  rewrite slice_prefix_all, slice_suffix_all by lia.
  destruct (parse_floats py_float lines) as [noise|e] eqn:E; simpl.
  - right. apply parse_floats_length in E.
    rewrite (load_loop_short n noise (seq 0 n) _ (c := List.length lines)).
    + reflexivity.
    + apply in_seq. lia.
    + lia.
  - left. f_equal. eapply parse_floats_raise; eauto.
Qed.

End LoadProperties.

(** ** Reward accounting over an episode *)

Lemma total_reward_from (rs : list StepResult) :
  forall acc, fold_left (fun a r => a + step_reward r) rs acc
              == acc + total_reward rs.
Proof.
  unfold total_reward.
  induction rs as [|r rs IH]; intros acc; simpl.
  - ring.
  - rewrite IH. rewrite (IH (0 + step_reward r)). ring.
Qed.

Lemma total_reward_cons r rs :
  total_reward (r :: rs) == step_reward r + total_reward rs.
Proof.
  unfold total_reward at 1. simpl. rewrite total_reward_from. ring.
Qed.

Lemma step_ledger self a f self' r n :
  step self (Some a) f = Ok (self', r) ->
  ledger n self ->
  ledger (n + 1) self' /\
  track self' = track self /\
  List.length (road self') = List.length (road self) /\
  prev_reward self' = reward self' /\
  (~ beyond_playfield (position f) ->
   step_reward r = reward self' - prev_reward self).
Proof.
  intros H [Lc Lr].
  apply step_inversion in H as (c & s1 & _ & Hf & -> & ->).
  apply events_spec in Hf as (U & _ & Hv & Hr).
  destruct U as (_ & U2 & _ & U4 & _ & _ & U7 & _).
  destruct (after_action_fields (position f) s1) as (R & P & C & T & _ & Rd & _).
  unfold ledger, credit_unit in *. rewrite R, P, C, T, Rd, U4.
  repeat split; try congruence.
  - lia.
  - rewrite Hr, Lr.
    replace (tile_visited_count s1)
      with (tile_visited_count self + (tile_visited_count s1 - tile_visited_count self))%Z
      at 2 by lia.
    rewrite !inject_Z_plus. simpl (inject_Z 1). ring.
  - intros Hin. unfold action_result.
    destruct (out_of_playfield (position f)) eqn:E.
    + exfalso. apply Hin. now apply out_of_playfield_spec.
    + simpl. now rewrite U2.
Qed.

Lemma run_ledger :
  forall steps self self' rs n,
    run self steps = Ok (self', rs) ->
    ledger n self ->
    ledger (n + len steps) self' /\
    track self' = track self /\
    List.length (road self') = List.length (road self) /\
    List.length rs = List.length steps /\
    (steps <> [] -> prev_reward self' = reward self') /\
    (Forall inside steps ->
     total_reward rs == prev_reward self' - prev_reward self).
Proof.
  induction steps as [|[a f] rest IH]; intros self self' rs n H L; simpl in H.
  - injection H as <- <-.
    split; [unfold len; simpl; rewrite Z.add_0_r; exact L|].
    split; [reflexivity|]. split; [reflexivity|]. split; [reflexivity|].
    split; [congruence|].
    intros _. unfold total_reward. simpl. ring.
  - destruct (step self (Some a) f) as [[s1 r]|] eqn:E; simpl in H; [|discriminate].
    destruct (run s1 rest) as [[s2 rs']|] eqn:E'; simpl in H; [|discriminate].
    injection H as <- <-.
    destruct (step_ledger _ _ E L) as (L1 & T1 & R1 & P1 & S1).
    destruct (IH _ _ _ _ E' L1) as (L2 & T2 & R2 & N2 & P2 & S2).
    split.
    { replace (n + len ((a, f) :: rest))%Z with (n + 1 + len rest)%Z; [exact L2|].
      unfold len. simpl List.length. lia. }
    split; [congruence|]. split; [congruence|].
    split; [simpl; congruence|].
    split.
    { intros _. destruct rest as [|st rest'].
      - simpl in E'. injection E' as <- _. exact P1.
      - apply P2. discriminate. }
    intros Hin. inversion Hin as [|x l Hx Hl]; subst.
    rewrite total_reward_cons, (S2 Hl), (S1 Hx), P1. ring.
Qed.

Lemma run_last_done :
  forall steps self self' rs,
    run self steps = Ok (self', rs) ->
    steps <> [] ->
    tile_visited_count self' = len (track self') ->
    forall d, done (last rs d) = true.
Proof.
  induction steps as [|[a f] rest IH]; intros self self' rs H Hne Hc d; [congruence|].
  simpl in H.
  destruct (step self (Some a) f) as [[s1 r]|] eqn:E; simpl in H; [|discriminate].
  destruct (run s1 rest) as [[s2 rs']|] eqn:E'; simpl in H; [|discriminate].
  injection H as <- <-.
  destruct rest as [|st rest'].
  - simpl in E'. injection E' as <- <-. simpl.
    apply step_done_cases in E. rewrite E. apply Z.eqb_eq in Hc. rewrite Hc.
    now rewrite orb_true_r.
  - assert (Hrs : rs' <> []).
    { destruct st as [a' f']. simpl in E'.
      destruct (step s1 (Some a') f') as [[? ?]|]; simpl in E'; [|discriminate].
      destruct (run _ rest') as [[? ?]|]; simpl in E'; [|discriminate].
      injection E' as _ <-. discriminate. }
    destruct rs' as [|r' rs'']; [congruence|].
    change (last (r :: r' :: rs'') d) with (last (r' :: rs'') d).
    eapply IH; eauto. discriminate.
Qed.

(** ** Claims about whole episodes *)

Section EpisodeClaims.

Variables (cos sin sqrt : Q -> Q) (pi : Q).
Variable py_float : string -> option Q.
Variable walk : list Checkpoint -> list TrackPoint.

Local Abbreviation create_track := (_create_track cos sin sqrt pi py_float walk).
Local Abbreviation finalise := (finalise_track cos sin sqrt pi py_float walk).
Local Abbreviation do_reset := (reset cos sin sqrt pi py_float walk).

(** The accounting on the paths that create one road body per exposed point
    (no scenario, or a scenario above 10).  An episode starts with [reset]
    and runs [F] steps with an action, none of which leaves the playfield.
    If the track has as many tiles as points ([K] of each) and all of them
    end up visited, the cumulative reward is [1000 - 0.1 * F]; when [F > 0]
    so is the sum of the returned step rewards, and the last step returns
    done = true. *)
Theorem reward_accounting :
  forall (fuel : nat) (fs : FileSystem) (g : global_binding)
         (draws : nat -> nat -> Q * Q) (colour : Colour) (frame0 : Frame)
         (self s0 sF : CarRacing) (steps : list (Action * Frame))
         (rs : list StepResult),
    do_reset fuel fs g draws colour frame0 self = Some (Ok s0) ->
    run s0 steps = Ok (sF, rs) ->
    Forall inside steps ->
    len (road sF) = len (track sF) ->
    Forall (fun tl => road_visited tl = true) (road sF) ->
    reward sF == 1000 - (1 # 10) * inject_Z (len steps) /\
    (steps <> [] ->
     total_reward rs == 1000 - (1 # 10) * inject_Z (len steps) /\
     forall d, done (last rs d) = true).
Proof.
  intros fuel fs g draws colour frame0 self s0 sF steps rs Hreset Hrun Hin HK Hall.
  apply reset_spec in Hreset as (_ & _ & Hlen & Hprev & _ & L0).
  destruct (@run_ledger steps s0 sF rs 0%Z Hrun L0) as ((Lc & Lr) & T & _ & _ & P & S).
  apply visited_tiles_all in Hall.
  assert (Hcount : tile_visited_count sF = len (track sF)) by congruence.
  assert (HKnz : ~ inject_Z (len (track sF)) == 0).
  { rewrite T. unfold Qeq. simpl. lia. }
  assert (R : reward sF == 1000 - (1 # 10) * inject_Z (len steps)).
  { rewrite Lr, Hcount. unfold credit_unit. rewrite Z.add_0_l. field. exact HKnz. }
  split; [exact R|].
  intros Hne. split.
  - rewrite (S Hin), (P Hne), Hprev, R. ring.
  - eapply run_last_done; eauto.
Qed.

(** What follows an identifier missing from the table.  The constructor
    stores it unchecked; it is [reset] that cannot complete with it:
    whenever its retry loop ends, [reset] raises. *)
Theorem unknown_identifier_fails_at_reset :
  forall (k : scenario_id),
    in_corners k = false ->
    (forall verbose pct randomize path draw,
       exists env,
         __init__ verbose pct randomize k path draw = Ok env /\ corner_num env = k) /\
    (forall self fuel fs g draws colour frame out,
       corner_num self = k ->
       do_reset fuel fs g draws colour frame self = Some out ->
       exists e, out = Raise e).
Proof.
  intros k Hk. split.
  - intros verbose pct randomize path draw. eexists. split; [reflexivity|].
    unfold _init_colors. destruct randomize; reflexivity.
  - intros self fuel fs g draws colour frame out Hc H.
    eapply reset_unknown_identifier; [|exact H]. now rewrite Hc.
Qed.

(** C4, as amended.  A parameter file with fewer lines than checkpoints
    cannot be loaded: the loader raises [ValueError] on a line that is not a
    float and [IndexError] otherwise, and [reset] fails on its first
    attempt. *)
Theorem short_parameter_file_fails :
  forall (fs : FileSystem) (path : string) (lines : list string),
    fs path = Some lines ->
    (List.length lines < CHECKPOINTS)%nat ->
    (forall sa,
       load_checkpoints cos sin pi py_float fs sa CHECKPOINTS path = Raise ValueError \/
       load_checkpoints cos sin pi py_float fs sa CHECKPOINTS path = Raise IndexError) /\
    (forall self fuel g draws colour frame,
       nonempty (sim_params_path self) = Some path ->
       exists e, do_reset (S fuel) fs g draws colour frame self = Some (Raise e)).
Proof.
  intros fs path lines Hfs Hlen. split.
  - intros sa. eapply load_checkpoints_short; eauto.
  - intros self fuel g draws colour frame Hp. unfold reset.
    destruct (reset_counters colour self) as [s1|e] eqn:E1; [|eauto].
    apply reset_counters_spec in E1 as (_ & P1 & _).
    simpl. unfold _create_track, finalise_track. rewrite P1, Hp.
    destruct (load_checkpoints_short cos sin pi py_float fs (start_alpha s1) _ Hfs Hlen)
      as [-> | ->]; simpl; eauto.
Qed.

(** C10.  With a scenario identifier above 10 and the module-level name
    [corner_num] unbound, a generation that gets as far as the tile loop
    raises [NameError], and so does [reset]; with the name bound, the tile
    range is the one of the scenario the name designates, whatever the
    instance stores. *)
Theorem library_scenario_name_error :
  forall (fs : FileSystem) (draws : nat -> Q * Q) (self s1 : CarRacing)
         (trk : list TrackPoint) (border : list bool) (n : Z),
    corner_num self = Some n ->
    (10 < n)%Z ->
    finalise fs draws self = Ok (Some (trk, border), s1) ->
    create_track fs None draws self = Raise NameError /\
    (forall k,
       tile_indices (corner_num self) (Some k) trk
       = (e <- corners k ;; Ok (range (tile_start e) (tile_end e)))) /\
    (forall fuel attempts colour frame self0,
       reset_counters colour self0 = Ok self ->
       attempts 0%nat = draws ->
       do_reset (S fuel) fs None attempts colour frame self0 = Some (Raise NameError)).
Proof.
  intros fs draws self s1 trk border n Hc Hn Hfin.
  assert (Hr : restricted (Some n) = true).
  { unfold restricted, truthy.
    destruct (n =? 0)%Z eqn:E0; [apply Z.eqb_eq in E0; lia|].
    simpl. apply Z.ltb_lt. exact Hn. }
  assert (Hcreate : create_track fs None draws self = Raise NameError).
  { unfold _create_track. rewrite Hfin. simpl.
    unfold create_tiles, tile_indices.
    apply finalise_track_fields in Hfin as ((K1 & _) & _).
    rewrite K1, Hc, Hr. reflexivity. }
  split; [exact Hcreate|]. split.
  - intros k. unfold tile_indices. rewrite Hc, Hr. reflexivity.
  - intros fuel attempts colour frame self0 H0 Ha.
    unfold reset. rewrite H0. simpl. rewrite Ha, Hcreate. reflexivity.
Qed.

End EpisodeClaims.

(** ** Concrete runs *)

Lemma tile_credit_idempotent_witness :
  exists self',
    BeginContact (fresh_episode 3) (mkContact (URoad 1) (UWheel 0)) = Ok self' /\
    reward self' = 0 + 1000 / inject_Z 3 /\
    tile_visited_count self' = 1%Z /\
    forall self'',
      BeginContact self' (mkContact (URoad 1) (UWheel 0)) = Ok self'' ->
      reward self'' = reward self' /\
      tile_visited_count self'' = tile_visited_count self'.
Proof.
  destruct (BeginContact (fresh_episode 3) (mkContact (URoad 1) (UWheel 0)))
    as [self'|e] eqn:E; [|vm_compute in E; discriminate].
  exists self'. split; [reflexivity|].
  destruct (@tile_credit_idempotent (fresh_episode 3) self'
              (mkContact (URoad 1) (UWheel 0)) 1%nat (UWheel 0) (blank_tile 1)
              eq_refl eq_refl E) as (_ & First & Second).
  destruct (First eq_refl 0%nat eq_refl) as (R & C & _).
  split; [exact R|]. split; [exact C|]. exact Second.
Defined.

Lemma reward_accounting_witness :
  exists s0 sF rs,
    reset cos_at_0 sin_at_0 sqrt_at_0 pi_approx decimal_float (walk_two_laps 5)
          1 no_files None same_draws (0, 0, 0) (at_rest [touch 0; touch 1])
          (constructed None None) = Some (Ok s0) /\
    run s0 two_frames = Ok (sF, rs) /\
    reward sF == 1000 - (1 # 10) * 2 /\
    total_reward rs == 1000 - (1 # 10) * 2.
Proof.
  destruct (reset cos_at_0 sin_at_0 sqrt_at_0 pi_approx decimal_float (walk_two_laps 5)
              1 no_files None same_draws (0, 0, 0) (at_rest [touch 0; touch 1])
              (constructed None None)) as [[s0|e]|] eqn:E;
    [|vm_compute in E; discriminate ..].
  pose proof E as E'. vm_compute in E'. injection E' as <-.
  match type of E with _ = Some (Ok ?c) => set (s0 := c) in * end.
  destruct (run s0 two_frames) as [[sF rs]|e] eqn:R;
    [|vm_compute in R; discriminate].
  exists s0, sF, rs. split; [exact E|]. split; [exact R|].
  assert (Hin : Forall inside two_frames).
  { repeat constructor; intros [H|H]; vm_compute in H; discriminate. }
  pose proof R as R'. vm_compute in R'. injection R' as HsF Hrs.
  assert (HK : len (road sF) = len (track sF)) by (rewrite <- HsF; reflexivity).
  assert (Hall : Forall (fun tl => road_visited tl = true) (road sF)).
  { rewrite <- HsF. simpl. repeat constructor. }
  destruct (@reward_accounting cos_at_0 sin_at_0 sqrt_at_0 pi_approx decimal_float
              (walk_two_laps 5) 1%nat no_files None same_draws (0, 0, 0)
              (at_rest [touch 0; touch 1]) (constructed None None)
              s0 sF two_frames rs E R Hin HK Hall) as [A B].
  split; [exact A|]. apply B. discriminate.
Defined.

Lemma stable_indices_follow_unsliced_track_witness :
  exists self',
    _create_track cos_at_0 sin_at_0 sqrt_at_0 pi_approx decimal_float
                  (walk_two_laps 130) no_files (Some (Some 85%Z)) (same_draws 0)
                  (constructed (Some 85%Z) None) = Ok (true, self') /\
    map idx (road self') = range 58 125 /\
    List.length (road self') = 67%nat /\
    (forall i, (58 <= i < 125)%Z ->
       exists tl, nth_error (road self') (Z.to_nat (i - 58)) = Some tl /\ idx tl = i) /\
    forall j tl, nth_error (road self') j = Some tl -> idx tl = (58 + Z.of_nat j)%Z.
Proof.
  destruct (_create_track cos_at_0 sin_at_0 sqrt_at_0 pi_approx decimal_float
              (walk_two_laps 130) no_files (Some (Some 85%Z)) (same_draws 0)
              (constructed (Some 85%Z) None)) as [[[|] self']|e] eqn:E;
    [|vm_compute in E; discriminate ..].
  exists self'. split; [reflexivity|].
  destruct (@stable_indices_follow_unsliced_track cos_at_0 sin_at_0 sqrt_at_0 pi_approx
              decimal_float (walk_two_laps 130) no_files (Some (Some 85%Z))
              (same_draws 0) (constructed (Some 85%Z) None) self' E)
    as (trk & border & s1 & start & stop & _ & Hs & _ & Hres & Hm & He & Hn).
  vm_compute in Hs. injection Hs as <-.
  destruct (Hres eq_refl) as (n & e & Hg & Hc & Hstop).
  vm_compute in Hg. injection Hg as <-.
  vm_compute in Hc. injection Hc as <-.
  cbn [tile_end] in Hstop. subst stop.
  split; [exact Hm|].
  split; [rewrite <- (length_map idx), Hm; reflexivity|].
  split.
  - intros i Hi. destruct (He i Hi) as (tl & Ht & Hi' & _). exists tl. split; assumption.
  - intros j tl Hj. apply (Hn j tl Hj).
Defined.

Lemma library_scenario_name_error_witness :
  _create_track cos_at_0 sin_at_0 sqrt_at_0 pi_approx decimal_float
                (walk_two_laps 130) no_files None (same_draws 0)
                (constructed (Some 85%Z) None) = Raise NameError /\
  reset cos_at_0 sin_at_0 sqrt_at_0 pi_approx decimal_float (walk_two_laps 130)
        1 no_files None same_draws (0, 0, 0) (at_rest [])
        (constructed (Some 85%Z) None) = Some (Raise NameError).
Proof.
  destruct (finalise_track cos_at_0 sin_at_0 sqrt_at_0 pi_approx decimal_float
              (walk_two_laps 130) no_files (same_draws 0)
              (set_road_poly [] (constructed (Some 85%Z) None)))
    as [[[[trk border]|] s1]|e] eqn:F; [|vm_compute in F; discriminate ..].
  assert (Hlt : (10 < 85)%Z) by reflexivity.
  destruct (@library_scenario_name_error cos_at_0 sin_at_0 sqrt_at_0 pi_approx
              decimal_float (walk_two_laps 130) no_files (same_draws 0)
              (set_road_poly [] (constructed (Some 85%Z) None)) s1 trk border 85%Z
              eq_refl Hlt F) as (Hc & _ & Hr).
  split; [exact Hc|].
  exact (Hr 0%nat same_draws (0, 0, 0) (at_rest []) (constructed (Some 85%Z) None)
            eq_refl eq_refl).
Defined.

Lemma unknown_identifier_fails_at_reset_witness :
  in_corners (Some 77%Z) = false /\
  (exists env,
     __init__ true (95 # 100) false (Some 77%Z) None (0, 0, 0) = Ok env /\
     corner_num env = Some 77%Z) /\
  (exists e,
     reset cos_at_0 sin_at_0 sqrt_at_0 pi_approx decimal_float (walk_two_laps 130)
           1 no_files (Some (Some 77%Z)) same_draws (0, 0, 0) (at_rest [])
           (constructed (Some 77%Z) None) = Some (Raise e)).
Proof.
  assert (Hk : in_corners (Some 77%Z) = false) by reflexivity.
  destruct (@unknown_identifier_fails_at_reset cos_at_0 sin_at_0 sqrt_at_0 pi_approx
              decimal_float (walk_two_laps 130) (Some 77%Z) Hk) as [Hinit Hreset].
  split; [exact Hk|]. split; [apply Hinit|].
  destruct (reset cos_at_0 sin_at_0 sqrt_at_0 pi_approx decimal_float (walk_two_laps 130)
              1 no_files (Some (Some 77%Z)) same_draws (0, 0, 0) (at_rest [])
              (constructed (Some 77%Z) None)) as [out|] eqn:E;
    [|vm_compute in E; discriminate].
  destruct (Hreset (constructed (Some 77%Z) None) _ _ _ _ _ _ out eq_refl E) as [e ->].
  exists e. reflexivity.
Defined.

(** 77 is not a key of the table, and both the constructor and the
    command-line entry point return an environment for it; the entry point
    only prints its message. *)
Lemma unknown_identifier_is_constructed :
  in_corners (Some 77%Z) = false /\
  is_ok (__init__ true (95 # 100) false (Some 77%Z) None (0, 0, 0)) = true /\
  main_construct (Some 77%Z) (0, 0, 0)
  = Ok ([MsgNotIncluded], Some (Some 77%Z), constructed (Some 77%Z) None).
Proof. repeat split; reflexivity. Qed.

(** C3.  The entry point tests the identifier against the table and prints
    its rejection message, but what follows the message is the bare name
    [exit], which is never called: for every identifier that is not a key of
    the table (and is not -1), the entry point goes on and constructs the
    environment for that identifier, exactly as the constructor alone would.
    Nothing fails at construction time. *)
Theorem unknown_identifier_not_fatal :
  forall (n : Z) (draw : Colour),
    in_corners (Some n) = false ->
    n <> (-1)%Z ->
    exists env,
      main_construct (Some n) draw = Ok ([MsgNotIncluded], Some (Some n), env) /\
      __init__ true (95 # 100) false (Some n) None draw = Ok env /\
      corner_num env = Some n /\
      sim_params_path env = None.
Proof.
  intros n draw Hk Hn. unfold main_construct.
  assert (E : (n =? -1)%Z = false) by (apply Z.eqb_neq; exact Hn).
  rewrite E, Hk. cbn [negb Py.bind].
  eexists. split; [reflexivity|]. split; [reflexivity|]. split; reflexivity.
Qed.

Lemma unknown_identifier_not_fatal_witness :
  in_corners (Some 77%Z) = false /\
  exists env,
    main_construct (Some 77%Z) (0, 0, 0)
    = Ok ([MsgNotIncluded], Some (Some 77%Z), env) /\
    corner_num env = Some 77%Z.
Proof.
  assert (Hk : in_corners (Some 77%Z) = false) by reflexivity.
  assert (Hn : 77%Z <> (-1)%Z) by lia.
  destruct (unknown_identifier_not_fatal (0, 0, 0) Hk Hn) as (env & Hm & _ & Hc & _).
  split; [exact Hk|]. exists env. split; [exact Hm | exact Hc].
Defined.

(** C7.  Run from the command line with scenario 1, the generation creates
    one road body per point of the finalised lap (five here) but exposes
    [track[0:-1]] (four points), and each first visit is credited
    [1000 / len(self.track)].  Over three steps with an action, none of which
    leaves the playfield, all five road bodies are visited: the cumulative
    reward, and the sum of the returned step rewards, is [1250 - 0.1 * 3],
    not [1000 - 0.1 * 3], and no step returns done = true. *)
Theorem full_track_scenario_overpays :
  exists env s0 sF rs,
    main_construct (Some 1%Z) (0, 0, 0) = Ok ([], Some (Some 1%Z), env) /\
    reset cos_at_0 sin_at_0 sqrt_at_0 pi_approx decimal_float (walk_two_laps 5)
          1 (file_of 12) (Some (Some 1%Z)) same_draws (0, 0, 0) (at_rest []) env
    = Some (Ok s0) /\
    len (road s0) = 5%Z /\
    len (track s0) = 4%Z /\
    run s0 full_track_frames = Ok (sF, rs) /\
    Forall inside full_track_frames /\
    len (road sF) = 5%Z /\
    Forall (fun tl => road_visited tl = true) (road sF) /\
    reward sF == 1250 - (1 # 10) * 3 /\
    total_reward rs == 1250 - (1 # 10) * 3 /\
    ~ reward sF == 1000 - (1 # 10) * 3 /\
    Forall (fun r => done r = false) rs.
Proof.
  destruct (main_construct (Some 1%Z) (0, 0, 0)) as [[[msgs g] env]|e] eqn:M;
    [|vm_compute in M; discriminate].
  assert (CM := M). vm_compute in CM. injection CM as Cmsgs Cg Cenv.
  destruct (reset cos_at_0 sin_at_0 sqrt_at_0 pi_approx decimal_float (walk_two_laps 5)
                  1 (file_of 12) (Some (Some 1%Z)) same_draws (0, 0, 0) (at_rest []) env)
    as [[s0|e]|] eqn:E0;
    [|rewrite <- Cenv in E0; vm_compute in E0; discriminate ..].
  assert (C0 := E0). rewrite <- Cenv in C0. vm_compute in C0. injection C0 as C0.
  destruct (run s0 full_track_frames) as [[sF rs]|e] eqn:R;
    [|rewrite <- C0 in R; vm_compute in R; discriminate].
  assert (CR := R). rewrite <- C0 in CR. vm_compute in CR. injection CR as CF Crs.
  exists env, s0, sF, rs.
  split; [rewrite <- Cmsgs, <- Cg; reflexivity|].
  split; [exact E0|].
  split; [rewrite <- C0; reflexivity|].
  split; [rewrite <- C0; reflexivity|].
  split; [exact R|].
  split; [repeat constructor; intros [H|H]; vm_compute in H; discriminate|].
  split; [rewrite <- CF; reflexivity|].
  split; [rewrite <- CF; cbn [road]; repeat constructor|].
  split; [rewrite <- CF; vm_compute; reflexivity|].
  split; [rewrite <- Crs; vm_compute; reflexivity|].
  split; [rewrite <- CF; intros H; vm_compute in H; discriminate|].
  rewrite <- Crs. repeat constructor.
Qed.

Lemma short_parameter_file_fails_witness :
  load_checkpoints cos_at_0 sin_at_0 pi_approx decimal_float (file_of 11) None
                   CHECKPOINTS sim_params_path_v1 = Raise IndexError /\
  exists e,
    reset cos_at_0 sin_at_0 sqrt_at_0 pi_approx decimal_float (walk_two_laps 130)
          1 (file_of 11) (Some (Some 85%Z)) same_draws (0, 0, 0) (at_rest [])
          (constructed (Some 85%Z) (Some sim_params_path_v1)) = Some (Raise e).
Proof.
  assert (Hlen : (List.length (repeat "0.1"%string 11) < CHECKPOINTS)%nat)
    by (vm_compute; lia).
  destruct (@short_parameter_file_fails cos_at_0 sin_at_0 sqrt_at_0 pi_approx
              decimal_float (walk_two_laps 130) (file_of 11) sim_params_path_v1
              (repeat "0.1"%string 11) eq_refl Hlen) as [Hload Hreset].
  split.
  - destruct (Hload None) as [H|H]; [vm_compute in H; discriminate | exact H].
  - exact (Hreset (constructed (Some 85%Z) (Some sim_params_path_v1)) 0%nat
             (Some (Some 85%Z)) same_draws (0, 0, 0) (at_rest []) eq_refl).
Defined.

(** C4, counterexample.  A file of twelve parsable lines has fewer than
    [2 * 12] lines and loads: the first twelve lines and the last twelve
    lines are the same lines. *)
Lemma twelve_lines_load :
  (List.length (repeat "0.1"%string 12) < 2 * CHECKPOINTS)%nat /\
  is_ok (load_checkpoints cos_at_0 sin_at_0 pi_approx decimal_float (file_of 12) None
                          CHECKPOINTS sim_params_path_v1) = true.
Proof. split; [vm_compute; lia | vm_compute; reflexivity]. Qed.

(** * Further properties of the code *)

(** ** Contacts *)

Lemma car_after_pose w x s s0 : car s0 = car_after w x s -> car_pose s0 = car_pose s.
Proof.
  unfold car_pose, car_after. intros ->. destruct (car s); reflexivity.
Qed.

Lemma tiles_of_wheel_after w x s s0 n :
  wheels s = Some n -> (w < n)%nat ->
  car s0 = car_after w x s -> tiles_of_wheel w s0 = x.
Proof.
  unfold wheels, tiles_of_wheel, car_after. intros Hn Hw ->.
  destruct (car s) as [c|]; simpl in *; [|discriminate]. injection Hn as Hn.
  destruct (@update_defined _ (wheel_tiles c) w x) as [ws E]; [lia|].
  rewrite E. pose proof (nth_error_update _ _ _ E w) as E'.
  rewrite Nat.eqb_refl in E'. now apply nth_error_nth.
Qed.

Lemma wheel_of_bound s u w :
  wheel_of s u = Some w -> exists n, wheels s = Some n /\ (w < n)%nat /\ u = UWheel w.
Proof.
  unfold wheel_of, wheels. destruct u; try discriminate.
  destruct (car s) as [c|]; [|discriminate]. simpl.
  destruct (w0 <? List.length (wheel_tiles c))%nat eqn:E; [|discriminate].
  intros H. injection H as <-. apply Nat.ltb_lt in E. eauto.
Qed.

(** What a callback of a wheel on a road body leaves in the car: the wheel's
    set after [add] on a begin-contact. *)
Lemma begin_contact_car self c k obj w s' :
  select_tile self c = Some (k, obj) ->
  wheel_of self obj = Some w ->
  BeginContact self c = Ok s' ->
  car s' = car_after w (set_add k (tiles_of_wheel w self)) self /\
  exists tile, nth_error (road s') k = Some tile.
Proof.
  intros Hsel Hw H. unfold BeginContact, _contact in H. rewrite Hsel in H.
  destruct (nth_error (road self) k) as [tile|] eqn:Hk; simpl in H; [|discriminate].
  set (tile0 := with_color (Qdiv255 (road_color self)) tile) in *.
  setters H.
  set (s1 := set_road (road_after k tile0 self) self) in *.
  assert (Hk1 : nth_error (road s1) k = Some tile0).
  { subst s1; simpl. eapply road_after_nth; eauto. }
  change (wheel_of s1 obj) with (wheel_of self obj) in H. rewrite Hw in H.
  setters H.
  set (s2 := set_car (car_after w (set_add k (tiles_of_wheel w s1)) s1) s1) in *.
  change (road_visited tile0) with (road_visited tile) in H.
  destruct (road_visited tile); simpl negb in H; cbv iota in H.
  { injection H as <-. split; [reflexivity|]. exists tile0. exact Hk1. }
  setters H. unfold per_track in H; simpl in H.
  destruct (len (track self) =? 0)%Z; simpl in H; [discriminate|].
  assert (Hk2 : nth_error (road_after k (with_visited true tile0) s2) k
                = Some (with_visited true tile0)).
  { eapply road_after_nth. exact Hk1. }
  destruct (idx tile =? 0)%Z; simpl in H.
  - destruct (Qgtb _ _); injection H as <-; (split; [reflexivity|]); eexists; exact Hk2.
  - injection H as <-. split; [reflexivity|]. eexists; exact Hk2.
Qed.

Lemma mem_set_add k s : mem k (set_add k s) = true.
Proof.
  unfold set_add. destruct (mem k s) eqn:E; [exact E|].
  unfold mem. simpl. now rewrite Nat.eqb_refl.
Qed.

Lemma mem_filter_out k s : mem k (filter (fun j => negb (Nat.eqb k j)) s) = false.
Proof.
  unfold mem. induction s as [|a r IH]; simpl; [reflexivity|].
  destruct (Nat.eqb k a) eqn:E; simpl; [exact IH|]. now rewrite E.
Qed.

Lemma end_contact_ledger (self self' : CarRacing) (c : Contact) :
  EndContact self c = Ok self' ->
  reward self' = reward self /\ tile_visited_count self' = tile_visited_count self.
Proof.
  intros H. unfold EndContact in H.
  apply contact_spec in H as [U E].
  destruct E as [_ R C V _ | k B _ _ _ _ _ _]; [|discriminate].
  split; assumption.
Qed.

(** X1.  An end-contact never credits: whatever the bodies, it leaves the
    cumulative reward, the visited count, the number of visited tiles, the
    reward snapshot, the lap flag and the exposed track as they were, and
    clears no visited flag. *)
Theorem end_contact_never_credits :
  forall (self self' : CarRacing) (c : Contact),
    EndContact self c = Ok self' ->
    reward self' = reward self /\
    tile_visited_count self' = tile_visited_count self /\
    visited_tiles (road self') = visited_tiles (road self) /\
    prev_reward self' = prev_reward self /\
    new_lap self' = new_lap self /\
    track self' = track self /\
    (forall j, marked self j -> marked self' j).
Proof.
  intros self self' c H. unfold EndContact in H.
  apply contact_spec in H as [U E].
  destruct U as (_ & U2 & U3 & U4 & _ & _ & _ & _ & U9).
  destruct E as [_ R C V _ | k B _ _ _ _ _ _]; [|discriminate].
  repeat split; auto.
Qed.

Lemma end_contact_never_credits_witness :
  exists self',
    EndContact touched_episode (mkContact (URoad 1) (UWheel 0)) = Ok self' /\
    reward self' = reward touched_episode /\
    tile_visited_count self' = 1%Z.
Proof.
  destruct (EndContact touched_episode (mkContact (URoad 1) (UWheel 0)))
    as [self'|e] eqn:E; [|vm_compute in E; discriminate].
  exists self'. split; [reflexivity|].
  destruct (@end_contact_never_credits touched_episode self'
              (mkContact (URoad 1) (UWheel 0)) E) as (R & C & _).
  split; [exact R|]. rewrite C. reflexivity.
Defined.

(** X2.  Begin-contact followed by end-contact of the same wheel and road
    body always completes: the [remove] finds the tile the [add] put in the
    wheel's set, the tile is then out of that set, and the end-contact
    changes neither reward nor count. *)
Theorem begin_then_end_contact :
  forall (self s1 : CarRacing) (c : Contact) (k w : nat) (obj : UserData),
    select_tile self c = Some (k, obj) ->
    wheel_of self obj = Some w ->
    BeginContact self c = Ok s1 ->
    exists s2,
      EndContact s1 c = Ok s2 /\
      mem k (tiles_of_wheel w s2) = false /\
      reward s2 = reward s1 /\
      tile_visited_count s2 = tile_visited_count s1.
Proof.
  intros self s1 c k w obj Hsel Hw H.
  pose proof H as HB. unfold BeginContact in HB. apply contact_spec in HB as [U _].
  destruct (@begin_contact_car self c k obj w s1 Hsel Hw H) as (Hcar & tile1 & Hk1).
  destruct (@wheel_of_bound self obj w Hw) as (n & Hn & Hlt & ->).
  assert (Ht : tiles_of_wheel w s1 = set_add k (tiles_of_wheel w self))
    by (eapply tiles_of_wheel_after; eauto).
  assert (Hsel1 : select_tile s1 c = Some (k, UWheel w))
    by (rewrite (select_tile_untouched c U); exact Hsel).
  assert (Hw1 : wheel_of s1 (UWheel w) = Some w).
  { rewrite <- Hw. apply wheel_of_wheels. apply U. }
  assert (Hn1 : wheels s1 = Some n).
  { rewrite <- Hn. apply U. }
  assert (E : exists s2, EndContact s1 c = Ok s2 /\
                         car s2 = car_after w (filter (fun j => negb (Nat.eqb k j))
                                                      (tiles_of_wheel w s1)) s1).
  { unfold EndContact, _contact. rewrite Hsel1, Hk1. cbn [Py.bind of_option].
    rewrite !store_tile_eq.
    match goal with |- context [wheel_of ?s (UWheel w)] =>
      change (wheel_of s (UWheel w)) with (wheel_of s1 (UWheel w)) end.
    rewrite Hw1.
    match goal with |- context [tiles_of_wheel w ?s] =>
      change (tiles_of_wheel w s) with (tiles_of_wheel w s1) end.
    unfold set_remove. rewrite Ht, mem_set_add. cbn [Py.bind].
    rewrite with_wheel_eq. eexists. split; [reflexivity|]. reflexivity. }
  destruct E as (s2 & HE & Hcar2).
  exists s2. split; [exact HE|].
  destruct (@end_contact_ledger s1 s2 c HE) as (R & C).
  split; [|split; assumption].
  erewrite tiles_of_wheel_after; [apply mem_filter_out | exact Hn1 | exact Hlt | exact Hcar2].
Qed.

Lemma begin_then_end_contact_witness :
  exists s1 s2,
    BeginContact (fresh_episode 3) (mkContact (URoad 1) (UWheel 0)) = Ok s1 /\
    EndContact s1 (mkContact (URoad 1) (UWheel 0)) = Ok s2 /\
    mem 1 (tiles_of_wheel 0 s2) = false.
Proof.
  destruct (BeginContact (fresh_episode 3) (mkContact (URoad 1) (UWheel 0)))
    as [s1|e] eqn:E; [|vm_compute in E; discriminate].
  destruct (@begin_then_end_contact (fresh_episode 3) s1
              (mkContact (URoad 1) (UWheel 0)) 1%nat 0%nat (UWheel 0)
              eq_refl eq_refl E) as (s2 & HE & Hm & _).
  exists s1, s2. split; [reflexivity|]. split; [exact HE | exact Hm].
Defined.

(** ** Steps *)

Lemma contact_pose self c b s' : _contact self c b = Ok s' -> car_pose s' = car_pose self.
Proof.
  intros H. unfold _contact in H.
  destruct (select_tile self c) as [[k obj]|]; [|injection H as <-; reflexivity].
  destruct (nth_error (road self) k) as [tile|]; cbn [Py.bind of_option] in H; [|discriminate].
  setters H.
  match type of H with context [wheel_of ?s obj] => destruct (wheel_of s obj) as [w|] end.
  2:{ injection H as <-. reflexivity. }
  destruct b.
  2:{ destruct (set_remove _ _); cbn [Py.bind] in H; [|discriminate]. setters H.
      injection H as <-. eapply car_after_pose. reflexivity. }
  setters H.
  destruct (negb _).
  2:{ injection H as <-. eapply car_after_pose. reflexivity. }
  setters H.
  destruct (per_track 1000 _); cbn [Py.bind] in H; [|discriminate].
  destruct (_ =? 0)%Z.
  - destruct (per_track _ _); cbn [Py.bind] in H; [|discriminate].
    destruct (Qgtb _ _); injection H as <-; (eapply car_after_pose; reflexivity).
  - injection H as <-. eapply car_after_pose. reflexivity.
Qed.

Lemma events_pose evs :
  forall s s', foldM fire evs s = Ok s' -> car_pose s' = car_pose s.
Proof.
  induction evs as [|ev evs IH]; intros s s' H; cbn [foldM] in H.
  - injection H as <-. reflexivity.
  - destruct (fire s ev) as [s1|] eqn:F; cbn [Py.bind] in H; [|discriminate].
    rewrite (IH _ _ H).
    destruct ev; simpl in F; unfold BeginContact, EndContact in F;
      eapply contact_pose; eauto.
Qed.

(** X3.  A step without an action (the priming step of [reset]) only advances
    the backend: it returns reward 0 and done = false even when the hull is
    beyond the playfield, charges no per-step penalty, leaves the reward
    snapshot and the lap flag alone, and still credits the tiles contacted
    during the frame. *)
Theorem step_without_action_is_neutral :
  forall (self self' : CarRacing) (f : Frame) (r : StepResult),
    step self None f = Ok (self', r) ->
    r = mkResult 0 false /\
    prev_reward self' = prev_reward self /\
    new_lap self' = new_lap self /\
    (tile_visited_count self <= tile_visited_count self')%Z /\
    reward self' == reward self
                    + inject_Z (tile_visited_count self' - tile_visited_count self)
                      * credit_unit self.
Proof.
  intros self self' f r H. unfold step in H.
  bind_ok H. bind_ok H. injection H as <- <-.
  apply events_spec in E0 as (U & Hle & _ & Hr).
  destruct U as (_ & U2 & U3 & _).
  destruct (move_hull_fields (position f) a0) as (F1 & F2 & F3 & F4 & F5 & _).
  cbn [reward prev_reward new_lap tile_visited_count set_t].
  rewrite F1, F2, F3, F5. repeat split; auto.
Qed.

Lemma step_without_action_is_neutral_witness :
  beyond_playfield (201, 0) /\
  exists self',
    step (fresh_episode 3) None (mkFrame [touch 1] (201, 0))
    = Ok (self', mkResult 0 false) /\
    tile_visited_count self' = 1%Z.
Proof.
  assert (B : beyond_playfield (201, 0)) by (left; vm_compute; reflexivity).
  split; [exact B|].
  destruct (step (fresh_episode 3) None (mkFrame [touch 1] (201, 0)))
    as [[self' r]|e] eqn:E; [|vm_compute in E; discriminate].
  destruct (@step_without_action_is_neutral (fresh_episode 3) self'
              (mkFrame [touch 1] (201, 0)) r E) as (-> & _).
  exists self'. split; [reflexivity|].
  vm_compute in E. injection E as <-. reflexivity.
Defined.

Lemma step_count_monotone self a f self' r :
  step self (Some a) f = Ok (self', r) ->
  (tile_visited_count self <= tile_visited_count self')%Z.
Proof.
  intros H. apply step_inversion in H as (c & s1 & _ & Hf & -> & _).
  apply events_spec in Hf as (_ & Hle & _).
  destruct (after_action_fields (position f) s1) as (_ & _ & C & _).
  rewrite C. exact Hle.
Qed.

Section FurtherEpisodes.

Variables (cos sin sqrt : Q -> Q) (pi : Q).
Variable py_float : string -> option Q.
Variable walk : list Checkpoint -> list TrackPoint.

Local Abbreviation create_track := (_create_track cos sin sqrt pi py_float walk).
Local Abbreviation finalise := (finalise_track cos sin sqrt pi py_float walk).
Local Abbreviation do_reset := (reset cos sin sqrt pi py_float walk).

(** X4.  Throughout an episode, [tile_visited_count] is the number of road
    bodies whose visited flag is set; it is never negative and never exceeds
    the number of road bodies. *)
Theorem visited_count_counts_marked_tiles :
  forall (fuel : nat) (fs : FileSystem) (g : global_binding)
         (draws : nat -> nat -> Q * Q) (colour : Colour) (frame0 : Frame)
         (self s0 s : CarRacing) (steps : list (Action * Frame))
         (rs : list StepResult),
    do_reset fuel fs g draws colour frame0 self = Some (Ok s0) ->
    run s0 steps = Ok (s, rs) ->
    tile_visited_count s = visited_tiles (road s) /\
    (0 <= tile_visited_count s <= len (road s))%Z /\
    (tile_visited_count s0 <= tile_visited_count s)%Z.
Proof.
  intros fuel fs g draws colour frame0 self s0 s steps rs Hreset Hrun.
  apply reset_spec in Hreset as (_ & _ & _ & _ & _ & L0).
  destruct (@run_ledger steps s0 s rs 0%Z Hrun L0) as ((Lc & _) & _).
  split; [exact Lc|]. split; [rewrite Lc; apply visited_tiles_bounds|].
  clear L0 Lc. revert s0 s rs Hrun.
  induction steps as [|[a f] rest IH]; intros s0 s rs Hrun; simpl in Hrun.
  - injection Hrun as <- _. lia.
  - destruct (step s0 (Some a) f) as [[s1 r]|] eqn:E; cbn [Py.bind] in Hrun; [|discriminate].
    destruct (run s1 rest) as [[s2 rs']|] eqn:E'; cbn [Py.bind] in Hrun; [|discriminate].
    injection Hrun as <- _.
    apply step_count_monotone in E. specialize (IH _ _ _ E'). lia.
Qed.

(** X5.  Termination by visitation is sticky.  In an episode with as many
    road bodies as track points, once the visited count has reached
    [len(track)] every further step with an action returns done = true and
    the count stays there. *)
Theorem visitation_termination_is_sticky :
  forall (fuel : nat) (fs : FileSystem) (g : global_binding)
         (draws : nat -> nat -> Q * Q) (colour : Colour) (frame0 : Frame)
         (self s0 s s' : CarRacing) (steps : list (Action * Frame))
         (rs : list StepResult) (a : Action) (f : Frame) (r : StepResult),
    do_reset fuel fs g draws colour frame0 self = Some (Ok s0) ->
    run s0 steps = Ok (s, rs) ->
    len (road s) = len (track s) ->
    tile_visited_count s = len (track s) ->
    step s (Some a) f = Ok (s', r) ->
    done r = true /\ tile_visited_count s' = len (track s').
Proof.
  intros fuel fs g draws colour frame0 self s0 s s' steps rs a f r
         Hreset Hrun HK Hfull Hstep.
  apply reset_spec in Hreset as (_ & _ & _ & _ & _ & L0).
  destruct (@run_ledger steps s0 s rs 0%Z Hrun L0) as (L & _).
  destruct (@step_ledger s a f s' r _ Hstep L) as ((Lc & _) & T & R & _).
  pose proof (visited_tiles_bounds (road s')) as B.
  pose proof (@step_count_monotone s a f s' r Hstep) as M.
  assert (C : tile_visited_count s' = len (track s')).
  { rewrite T. unfold len in *. lia. }
  split; [|exact C].
  apply step_done_cases in Hstep. rewrite Hstep.
  apply Z.eqb_eq in C. rewrite C. now rewrite orb_true_r.
Qed.

(** X6.  [reset] places a new car on the first point of the exposed track:
    the car's heading is that point's heading, its heading offset the one of
    the instance's row of the scenario table, and it has four wheels; the
    reward snapshot is zero and the lap flag is cleared. *)
Theorem reset_places_car_on_first_point :
  forall (fuel : nat) (fs : FileSystem) (g : global_binding)
         (draws : nat -> nat -> Q * Q) (colour : Colour) (frame0 : Frame)
         (self s0 : CarRacing),
    do_reset fuel fs g draws colour frame0 self = Some (Ok s0) ->
    exists first e c,
      index (track s0) 0 = Ok first /\
      corners (corner_num self) = Ok e /\
      car s0 = Some c /\
      init_angle c = beta first /\
      init_add_angle c = add_angle e /\
      hull_position c = position frame0 /\
      wheels s0 = Some 4%nat /\
      prev_reward s0 = 0 /\
      new_lap s0 = false.
Proof.
  intros fuel fs g draws colour frame0 self s0 H.
  pose proof H as Hspec. apply reset_spec in Hspec as (_ & _ & _ & P & N & _).
  unfold reset in H.
  destruct (reset_counters colour self) as [s1|] eqn:E1; [|discriminate].
  apply reset_counters_spec in E1 as (K1 & _).
  destruct (create_until_success _ _ _ _ _ _ _ _ _ _ _) as [[s2|]|] eqn:E2;
    try discriminate.
  injection H as H.
  apply retry_spec in E2 as ((K2 & _) & _).
  unfold place_and_prime in H.
  destruct (index (track s2) 0) as [first|] eqn:Ei; cbn [Py.bind] in H; [|discriminate].
  destruct (corners (corner_num s2)) as [e|] eqn:Ec; cbn [Py.bind] in H; [|discriminate].
  bind_ok H. destruct a as [s3 r]. injection H as <-.
  unfold step in E. cbn [car set_car of_option Py.bind] in E.
  bind_ok E. injection E as <- _.
  pose proof E0 as Hp. apply events_pose in Hp.
  apply events_spec in E0 as (U & _).
  destruct U as (_ & _ & _ & U4 & _ & _ & _ & U8 & _).
  unfold car_pose in Hp. cbn [car set_car option_map] in Hp.
  destruct (car a) as [c1|] eqn:Hc1; [|discriminate]. simpl in Hp.
  injection Hp as A1 A2 A3.
  exists first, e, (mkCar (init_angle c1) (init_add_angle c1) (position frame0) (wheel_tiles c1)).
  destruct (move_hull_fields (position frame0) a) as (_ & _ & _ & F4 & _).
  cbn [track set_t car]. rewrite F4, U4. cbn [track set_car].
  split; [exact Ei|]. split; [now rewrite <- K1, <- K2|].
  split; [erewrite move_hull_car by exact Hc1; reflexivity|].
  split; [exact A1|]. split; [exact A2|]. split; [reflexivity|].
  split.
  { unfold wheels in *. cbn [car set_t]. erewrite move_hull_car by exact Hc1.
    rewrite Hc1 in U8. simpl in *. exact U8. }
  split; assumption.
Qed.

End FurtherEpisodes.

Lemma visited_count_counts_marked_tiles_witness :
  exists s0 s rs,
    reset cos_at_0 sin_at_0 sqrt_at_0 pi_approx decimal_float (walk_two_laps 5)
          1 no_files None same_draws (0, 0, 0) (at_rest [touch 0; touch 1])
          (constructed None None) = Some (Ok s0) /\
    run s0 two_frames = Ok (s, rs) /\
    tile_visited_count s = visited_tiles (road s) /\
    (0 <= tile_visited_count s <= len (road s))%Z.
Proof.
  destruct (reset cos_at_0 sin_at_0 sqrt_at_0 pi_approx decimal_float (walk_two_laps 5)
              1 no_files None same_draws (0, 0, 0) (at_rest [touch 0; touch 1])
              (constructed None None)) as [[s0|e]|] eqn:E;
    [|vm_compute in E; discriminate ..].
  destruct (run s0 two_frames) as [[s rs]|e] eqn:R.
  2:{ assert (C := E). vm_compute in C. injection C as C.
      rewrite <- C in R. vm_compute in R. discriminate. }
  exists s0, s, rs. split; [reflexivity|]. split; [exact R|].
  destruct (@visited_count_counts_marked_tiles cos_at_0 sin_at_0 sqrt_at_0 pi_approx
              decimal_float (walk_two_laps 5) 1%nat no_files None same_draws (0, 0, 0)
              (at_rest [touch 0; touch 1]) (constructed None None) s0 s two_frames rs
              E R) as (A & B & _).
  split; assumption.
Defined.

Lemma visitation_termination_is_sticky_witness :
  exists s0 s rs s' r,
    reset cos_at_0 sin_at_0 sqrt_at_0 pi_approx decimal_float (walk_two_laps 5)
          1 no_files None same_draws (0, 0, 0) (at_rest [touch 0; touch 1])
          (constructed None None) = Some (Ok s0) /\
    run s0 two_frames = Ok (s, rs) /\
    step s (Some coast) (at_rest []) = Ok (s', r) /\
    done r = true.
Proof.
  destruct (reset cos_at_0 sin_at_0 sqrt_at_0 pi_approx decimal_float (walk_two_laps 5)
              1 no_files None same_draws (0, 0, 0) (at_rest [touch 0; touch 1])
              (constructed None None)) as [[s0|e]|] eqn:E;
    [|vm_compute in E; discriminate ..].
  assert (C0 := E). vm_compute in C0. injection C0 as C0.
  destruct (run s0 two_frames) as [[s rs]|e] eqn:R;
    [|rewrite <- C0 in R; vm_compute in R; discriminate].
  assert (C1 := R). rewrite <- C0 in C1. vm_compute in C1. injection C1 as C1 _.
  destruct (step s (Some coast) (at_rest [])) as [[s' r]|e] eqn:S;
    [|rewrite <- C1 in S; vm_compute in S; discriminate].
  exists s0, s, rs, s', r.
  split; [reflexivity|]. split; [exact R|]. split; [exact S|].
  assert (HK : len (road s) = len (track s)) by (rewrite <- C1; reflexivity).
  assert (HF : tile_visited_count s = len (track s)) by (rewrite <- C1; reflexivity).
  exact (proj1 (@visitation_termination_is_sticky cos_at_0 sin_at_0 sqrt_at_0 pi_approx
                  decimal_float (walk_two_laps 5) 1%nat no_files None same_draws (0, 0, 0)
                  (at_rest [touch 0; touch 1]) (constructed None None) s0 s s'
                  two_frames rs coast (at_rest []) r E R HK HF S)).
Defined.

Lemma reset_places_car_on_first_point_witness :
  exists s0 c,
    reset cos_at_0 sin_at_0 sqrt_at_0 pi_approx decimal_float (walk_two_laps 340)
          1 no_files (Some (Some 60%Z)) same_draws (0, 0, 0) (mkFrame [] (3, 4))
          (constructed (Some 60%Z) None) = Some (Ok s0) /\
    car s0 = Some c /\
    init_add_angle c = Some (- (6 # 100)) /\
    hull_position c = (3, 4).
Proof.
  destruct (reset cos_at_0 sin_at_0 sqrt_at_0 pi_approx decimal_float (walk_two_laps 340)
              1 no_files (Some (Some 60%Z)) same_draws (0, 0, 0) (mkFrame [] (3, 4))
              (constructed (Some 60%Z) None)) as [[s0|e]|] eqn:E;
    [|vm_compute in E; discriminate ..].
  destruct (@reset_places_car_on_first_point cos_at_0 sin_at_0 sqrt_at_0 pi_approx
              decimal_float (walk_two_laps 340) 1%nat no_files (Some (Some 60%Z))
              same_draws (0, 0, 0) (mkFrame [] (3, 4)) (constructed (Some 60%Z) None)
              s0 E) as (first & e & c & _ & He & Hc & _ & Ha & Hp & _).
  exists s0, c. split; [reflexivity|]. split; [exact Hc|].
  vm_compute in He. injection He as <-.
  split; [exact Ha | exact Hp].
Defined.

(** ** Generation *)

Lemma index_ok_bound {A} (l : list A) i v :
  index l i = Ok v -> (0 <= i)%Z -> (i < len l)%Z.
Proof.
  unfold index, len. intros H Hi.
  assert (E : (0 <=? i)%Z = true) by (apply Z.leb_le; exact Hi). rewrite E in H.
  destruct (nth_error l (Z.to_nat i)) eqn:N; [|discriminate].
  assert (Z.to_nat i < List.length l)%nat by (apply nth_error_Some; congruence). lia.
Qed.

Lemma range_In a b i : (a <= i < b)%Z -> In i (range a b).
Proof.
  intros H. unfold range. apply in_map_iff. exists (Z.to_nat (i - a)).
  split; [lia|]. apply in_seq. lia.
Qed.

Lemma range_len a b : (a <= b)%Z -> len (range a b) = (b - a)%Z.
Proof. intros H. unfold len. rewrite range_length. lia. Qed.

Lemma slice_drop_last {A} (l : list A) :
  (1 <= len l)%Z -> len (slice l (Some 0%Z) (Some (-1)%Z)) = (len l - 1)%Z.
Proof.
  intros H. unfold slice, clamp, len in *.
  change (0 <? 0)%Z with false. change (-1 <? 0)%Z with true. cbv iota.
  rewrite length_firstn, length_skipn. lia.
Qed.

(** Every scenario above 10 in the table has a non-empty range of
    non-negative indices. *)
Lemma restricted_rows_are_ranges n e :
  corners (Some n) = Ok e -> (10 < n)%Z -> (0 <= tile_start e < tile_end e)%Z.
Proof.
  unfold corners, corners_table. cbn [assoc id_eqb]. intros H Hn.
  repeat match type of H with
  | context [if (n =? ?v)%Z then _ else _] =>
      let E := fresh "E" in
      destruct (n =? v)%Z eqn:E;
      [ apply Z.eqb_eq in E; first [lia | injection H as <-; simpl; lia] | clear E ]
  end.
  discriminate.
Qed.

(** The scenarios 1 to 5 all have the row [[0, -1, ...]]. *)
Lemma full_track_rows n :
  (1 <= n <= 5)%Z ->
  exists e, corners (Some n) = Ok e /\ tile_start e = 0%Z /\ tile_end e = (-1)%Z.
Proof.
  intros H.
  assert (C : (n = 1 \/ n = 2 \/ n = 3 \/ n = 4 \/ n = 5)%Z) by lia.
  destruct C as [C | [C | [C | [C | C] ] ] ]; subst n;
    eexists; (split; [reflexivity|]); split; reflexivity.
Qed.

Section FurtherGeneration.

Variables (cos sin sqrt : Q -> Q) (pi : Q).
Variable py_float : string -> option Q.
Variable walk : list Checkpoint -> list TrackPoint.

Local Abbreviation create_track := (_create_track cos sin sqrt pi py_float walk).
Local Abbreviation finalise := (finalise_track cos sin sqrt pi py_float walk).

(** What an accepted finalisation went through: the head and tail of the
    lap glue within one step length, and the border flags were computed. *)
Lemma finalise_track_accepted fs draws self trk border s1 :
  finalise fs draws self = Ok (Some (trk, border), s1) ->
  track s1 = track self /\
  (1 <= len trk)%Z /\
  border_flags trk = Ok border /\
  exists gap, well_glued_together cos sin sqrt trk = Ok gap /\ gap <= TRACK_DETAIL_STEP.
Proof.
  unfold finalise_track. intros H.
  bind_ok H. destruct a as [cps sa].
  bind_ok H. bind_ok H.
  destruct a0 as [[i1 i2]|]; [|discriminate].
  bind_ok H.
  destruct (Qgtb a0 TRACK_DETAIL_STEP) eqn:G; [discriminate|].
  bind_ok H. injection H as <- <- <-.
  split; [destruct (verbose self); reflexivity|].
  split.
  { unfold well_glued_together in E2.
    destruct (index (keep_lap _ i1 i2) 0) as [p|] eqn:I; [|discriminate].
    apply index_ok_bound in I; lia. }
  split; [exact E3|].
  exists a0. split; [exact E2|].
  apply Qnot_lt_le. intros L. apply Qgtb_spec in L. congruence.
Qed.

Lemma finalise_track_rejected fs draws self s1 :
  finalise fs draws self = Ok (None, s1) -> track s1 = track self.
Proof.
  unfold finalise_track. intros H.
  bind_ok H. destruct a as [cps sa].
  bind_ok H. bind_ok H.
  destruct a0 as [[i1 i2]|].
  - bind_ok H. destruct (Qgtb a0 TRACK_DETAIL_STEP).
    + injection H as <-. destruct (verbose self); reflexivity.
    + bind_ok H. discriminate.
  - injection H as <-. reflexivity.
Qed.

(** X7.  A rejected generation ([return False]) creates nothing: the road
    is empty, no polygon was added, the exposed track and the episode
    counters are untouched. *)
Theorem rejected_generation_creates_nothing :
  forall (fs : FileSystem) (g : global_binding) (draws : nat -> Q * Q)
         (self self' : CarRacing),
    create_track fs g draws self = Ok (false, self') ->
    road self' = [] /\
    road_poly self' = road_poly self /\
    track self' = track self /\
    reward self' = reward self /\
    tile_visited_count self' = tile_visited_count self.
Proof.
  intros fs g draws self self' H. unfold _create_track in H.
  bind_ok H. destruct a as [fin s1].
  destruct fin as [[trk border]|].
  - bind_ok H. discriminate.
  - injection H as <-.
    pose proof E as F. apply finalise_track_fields in F as (S & R & P).
    apply finalise_track_rejected in E.
    destruct S as (_ & _ & _ & S4 & _ & S6 & _).
    repeat split; assumption.
Qed.

(** The tile loop found every index of its range in the finalised track. *)
Lemma create_track_accepted fs g draws self s' :
  create_track fs g draws self = Ok (true, s') ->
  exists trk border s1 iter,
    finalise fs draws self = Ok (Some (trk, border), s1) /\
    tile_indices (corner_num self) g trk = Ok iter /\
    (forall i, In i iter -> exists p, index trk i = Ok p) /\
    len (road s') = len iter /\
    exposed_track (corner_num self) g trk = Ok (track s').
Proof.
  intros H. unfold _create_track in H.
  bind_ok H. destruct a as [fin s1].
  destruct fin as [[trk border]|]; [|discriminate].
  bind_ok H. injection H as <-.
  pose proof E as F. apply finalise_track_fields in F as (S1 & R1 & _).
  apply create_tiles_spec in E0 as (_ & iter & fresh & Hi & Hr & Hm & Hf & Hx).
  rewrite R1 in Hr. simpl in Hr.
  assert (Hc : corner_num s1 = corner_num self) by apply S1.
  rewrite Hc in Hi, Hx.
  exists trk, border, s1, iter.
  split; [reflexivity|]. split; [exact Hi|]. split.
  - intros i Hin. rewrite <- Hm in Hin. apply in_map_iff in Hin as (tl & <- & Htl).
    rewrite Forall_forall in Hf. destruct (Hf _ Htl) as (p1 & _ & Hp & _). eauto.
  - split; [|exact Hx]. unfold len. now rewrite Hr, <- Hm, length_map.
Qed.

(** X8.  Run from the command line with a scenario above 10 (so the
    module-level name and the instance hold the same identifier), an
    accepted generation exposes exactly [end - start] track points, at least
    one, and creates as many road bodies. *)
Theorem restricted_scenario_lengths :
  forall (fs : FileSystem) (draws : nat -> Q * Q) (self self' : CarRacing)
         (n : Z) (e : ScenarioEntry),
    corner_num self = Some n ->
    (10 < n)%Z ->
    corners (Some n) = Ok e ->
    create_track fs (Some (Some n)) draws self = Ok (true, self') ->
    len (track self') = (tile_end e - tile_start e)%Z /\
    len (road self') = len (track self') /\
    (0 < len (track self'))%Z.
Proof.
  intros fs draws self self' n e Hc Hn He H.
  pose proof (restricted_rows_are_ranges He Hn) as Hrow.
  apply create_track_accepted in H as (trk & border & s1 & iter & _ & Hi & Hin & Hl & Hx).
  assert (Hr : restricted (Some n) = true).
  { unfold restricted, truthy.
    destruct (n =? 0)%Z eqn:E0; [apply Z.eqb_eq in E0; lia|].
    simpl. apply Z.ltb_lt. exact Hn. }
  assert (Ht : truthy (Some n) = true).
  { unfold truthy. destruct (n =? 0)%Z eqn:E0; [apply Z.eqb_eq in E0; lia | reflexivity]. }
  unfold tile_indices in Hi. rewrite Hc, Hr in Hi. cbn [read_global of_option Py.bind] in Hi.
  rewrite He in Hi. cbn [Py.bind] in Hi. injection Hi as <-.
  unfold exposed_track in Hx. rewrite Hc, Ht in Hx.
  cbn [read_global of_option Py.bind] in Hx. rewrite He in Hx. cbn [Py.bind] in Hx.
  injection Hx as Hx.
  destruct (Hin (tile_end e - 1)%Z) as (p & Hp); [apply range_In; lia|].
  apply index_ok_bound in Hp; [|lia].
  assert (L : len (track self') = (tile_end e - tile_start e)%Z).
  { rewrite <- Hx. apply slice_length; lia. }
  split; [exact L|]. split; [|lia].
  rewrite Hl, L. apply range_len. lia.
Qed.

(** X9.  Run from the command line with one of the full-track scenarios 1
    to 5, an accepted generation creates one road body per finalised point
    but exposes [track[0:-1]]: there is one more road body than
    [len(self.track)]. *)
Theorem full_track_scenarios_one_tile_extra :
  forall (fs : FileSystem) (draws : nat -> Q * Q) (self self' : CarRacing) (n : Z),
    corner_num self = Some n ->
    (1 <= n <= 5)%Z ->
    create_track fs (Some (Some n)) draws self = Ok (true, self') ->
    len (road self') = (len (track self') + 1)%Z.
Proof.
  intros fs draws self self' n Hc Hn H.
  destruct (full_track_rows Hn) as (e & He & Ha & Hb).
  apply create_track_accepted in H as (trk & border & s1 & iter & Hf & Hi & _ & Hl & Hx).
  apply finalise_track_accepted in Hf as (_ & Hlen & _).
  assert (Hr : restricted (Some n) = false).
  { unfold restricted. destruct (10 <? n)%Z eqn:E; [apply Z.ltb_lt in E; lia|].
    now rewrite andb_false_r. }
  assert (Ht : truthy (Some n) = true).
  { unfold truthy. destruct (n =? 0)%Z eqn:E0; [apply Z.eqb_eq in E0; lia | reflexivity]. }
  unfold tile_indices in Hi. rewrite Hc, Hr in Hi. injection Hi as <-.
  unfold exposed_track in Hx. rewrite Hc, Ht in Hx.
  cbn [read_global of_option Py.bind] in Hx. rewrite He in Hx. cbn [Py.bind] in Hx.
  injection Hx as Hx. rewrite Ha, Hb in Hx.
  rewrite Hl, <- Hx, slice_drop_last by exact Hlen.
  rewrite range_len; lia.
Qed.

(** X10.  Without a scenario, an accepted generation exposes the whole
    finalised lap: one road body per exposed point, and the perpendicular
    gap between its first and last point is at most one step length. *)
Theorem unrestricted_track_is_glued :
  forall (fs : FileSystem) (g : global_binding) (draws : nat -> Q * Q)
         (self self' : CarRacing),
    corner_num self = None ->
    create_track fs g draws self = Ok (true, self') ->
    len (road self') = len (track self') /\
    (1 <= len (track self'))%Z /\
    exists gap,
      well_glued_together cos sin sqrt (track self') = Ok gap /\
      gap <= TRACK_DETAIL_STEP.
Proof.
  intros fs g draws self self' Hc H.
  apply create_track_accepted in H as (trk & border & s1 & iter & Hf & Hi & _ & Hl & Hx).
  apply finalise_track_accepted in Hf as (_ & Hlen & _ & Hgap).
  unfold tile_indices in Hi. rewrite Hc in Hi. injection Hi as <-.
  unfold exposed_track in Hx. rewrite Hc in Hx. injection Hx as <-.
  split; [rewrite Hl, range_len; lia|]. split; [exact Hlen | exact Hgap].
Qed.

End FurtherGeneration.

Lemma rejected_generation_creates_nothing_witness :
  exists self',
    _create_track cos_at_0 sin_at_0 sqrt_at_0 pi_approx decimal_float walk_no_lap
                  no_files None (same_draws 0) (constructed None None)
    = Ok (false, self') /\
    road self' = [] /\ track self' = [].
Proof.
  destruct (_create_track cos_at_0 sin_at_0 sqrt_at_0 pi_approx decimal_float walk_no_lap
              no_files None (same_draws 0) (constructed None None))
    as [[[|] self']|e] eqn:E; [vm_compute in E; discriminate | | vm_compute in E; discriminate].
  exists self'. split; [reflexivity|].
  destruct (@rejected_generation_creates_nothing cos_at_0 sin_at_0 sqrt_at_0 pi_approx
              decimal_float walk_no_lap no_files None (same_draws 0)
              (constructed None None) self' E) as (R & _ & T & _).
  split; [exact R | exact T].
Defined.

Lemma restricted_scenario_lengths_witness :
  exists self',
    _create_track cos_at_0 sin_at_0 sqrt_at_0 pi_approx decimal_float
                  (walk_two_laps 130) no_files (Some (Some 85%Z)) (same_draws 0)
                  (constructed (Some 85%Z) None) = Ok (true, self') /\
    len (track self') = 67%Z /\
    len (road self') = 67%Z.
Proof.
  destruct (_create_track cos_at_0 sin_at_0 sqrt_at_0 pi_approx decimal_float
              (walk_two_laps 130) no_files (Some (Some 85%Z)) (same_draws 0)
              (constructed (Some 85%Z) None)) as [[[|] self']|e] eqn:E;
    [|vm_compute in E; discriminate ..].
  exists self'. split; [reflexivity|].
  assert (Hlt : (10 < 85)%Z) by reflexivity.
  destruct (@restricted_scenario_lengths cos_at_0 sin_at_0 sqrt_at_0 pi_approx
              decimal_float (walk_two_laps 130) no_files (same_draws 0)
              (constructed (Some 85%Z) None) self' 85%Z
              (row 58 125 (- (363 # 10), 375 # 10) 0 10 sim_params_path_v1)
              eq_refl Hlt eq_refl E) as (L & R & _).
  split; [exact L | rewrite R; exact L].
Defined.

Lemma full_track_scenarios_one_tile_extra_witness :
  exists self',
    _create_track cos_at_0 sin_at_0 sqrt_at_0 pi_approx decimal_float
                  (walk_two_laps 10) no_files (Some (Some 1%Z)) (same_draws 0)
                  (constructed (Some 1%Z) None) = Ok (true, self') /\
    len (road self') = (len (track self') + 1)%Z.
Proof.
  destruct (_create_track cos_at_0 sin_at_0 sqrt_at_0 pi_approx decimal_float
              (walk_two_laps 10) no_files (Some (Some 1%Z)) (same_draws 0)
              (constructed (Some 1%Z) None)) as [[[|] self']|e] eqn:E;
    [|vm_compute in E; discriminate ..].
  exists self'. split; [reflexivity|].
  assert (Hn : (1 <= 1 <= 5)%Z) by lia.
  exact (@full_track_scenarios_one_tile_extra cos_at_0 sin_at_0 sqrt_at_0 pi_approx
           decimal_float (walk_two_laps 10) no_files (same_draws 0)
           (constructed (Some 1%Z) None) self' 1%Z eq_refl Hn E).
Defined.

Lemma unrestricted_track_is_glued_witness :
  exists self',
    _create_track cos_at_0 sin_at_0 sqrt_at_0 pi_approx decimal_float
                  (walk_two_laps 5) no_files None (same_draws 0)
                  (constructed None None) = Ok (true, self') /\
    len (road self') = len (track self').
Proof.
  destruct (_create_track cos_at_0 sin_at_0 sqrt_at_0 pi_approx decimal_float
              (walk_two_laps 5) no_files None (same_draws 0)
              (constructed None None)) as [[[|] self']|e] eqn:E;
    [|vm_compute in E; discriminate ..].
  exists self'. split; [reflexivity|].
  exact (proj1 (@unrestricted_track_is_glued cos_at_0 sin_at_0 sqrt_at_0 pi_approx
                  decimal_float (walk_two_laps 5) no_files None (same_draws 0)
                  (constructed None None) self' eq_refl E)).
Defined.

(** ** The entry point *)

(** Every integer key of the table has its six entries. *)
Lemma integer_rows_are_complete n e :
  corners (Some n) = Ok e ->
  exists sc p, entry_scale e = Some sc /\ entry_path e = Some p.
Proof.
  unfold corners, corners_table. cbn [assoc id_eqb]. intros H.
  repeat match type of H with
  | context [if (n =? ?v)%Z then _ else _] =>
      let E := fresh "E" in
      destruct (n =? v)%Z eqn:E;
      [ injection H as <-; simpl; eauto | clear E ]
  end.
  discriminate.
Qed.

(** X11.  Called with a scenario of the table above 10, the entry point
    constructs the environment for that scenario with the scenario's own
    parameter file and binds the module-level name to the same identifier, so
    the tile loop starts at the scenario's own range start; called with -1 it
    constructs an unrestricted environment with random checkpoints. *)
Theorem command_line_selects_scenario :
  forall (n : Z) (e : ScenarioEntry) (draw : Colour),
    corners (Some n) = Ok e ->
    (10 < n)%Z ->
    (exists env,
       main_construct (Some n) draw = Ok ([], Some (Some n), env) /\
       corner_num env = Some n /\
       sim_params_path env = entry_path e /\
       first_index (corner_num env) (Some (Some n)) = Ok (tile_start e)) /\
    (exists env,
       main_construct (Some (-1)%Z) draw = Ok ([], Some None, env) /\
       corner_num env = None /\
       sim_params_path env = None).
Proof.
  intros n e draw He Hn. split.
  - destruct (@integer_rows_are_complete n e He) as (sc & p & Hs & Hp).
    unfold main_construct.
    assert (E1 : (n =? -1)%Z = false) by (apply Z.eqb_neq; lia).
    rewrite E1. rewrite (@corners_in_table (Some n) e He). cbn [negb].
    rewrite He. cbn [Py.bind]. rewrite Hs, Hp. cbn [of_option Py.bind].
    unfold __init__. cbn [Py.bind].
    eexists. split; [reflexivity|].
    unfold _init_colors. cbn [domain_randomize]. cbn [corner_num sim_params_path set_road_color].
    split; [reflexivity|]. split; [reflexivity|].
    unfold first_index, restricted, truthy.
    destruct (n =? 0)%Z eqn:E0; [apply Z.eqb_eq in E0; lia|].
    assert (E10 : (10 <? n)%Z = true) by (apply Z.ltb_lt; exact Hn).
    rewrite E10. cbn [negb andb read_global of_option Py.bind]. rewrite He. reflexivity.
  - eexists. split; [reflexivity|]. split; reflexivity.
Qed.

Lemma command_line_selects_scenario_witness :
  exists env,
    main_construct (Some 85%Z) (0, 0, 0) = Ok ([], Some (Some 85%Z), env) /\
    sim_params_path env = Some sim_params_path_v1 /\
    first_index (corner_num env) (Some (Some 85%Z)) = Ok 58%Z.
Proof.
  assert (Hlt : (10 < 85)%Z) by reflexivity.
  destruct (proj1 (@command_line_selects_scenario 85%Z
                     (row 58 125 (- (363 # 10), 375 # 10) 0 10 sim_params_path_v1)
                     (0, 0, 0) eq_refl Hlt)) as (env & Hm & _ & Hp & Hf).
  exists env. split; [exact Hm|]. split; [exact Hp | exact Hf].
Defined.

(** ** The closed-loop scan, continued *)

Lemma find_loop_second trk sa :
  forall i i2 r,
    find_loop trk sa i (-1) i2 = Ok r ->
    i2 <> (-1)%Z ->
    match r with
    | Some (a, b) =>
        b = i2 /\ crossing trk sa a /\ (1 <= a < Z.of_nat i)%Z /\
        no_crossing_between trk sa a (Z.of_nat i)
    | None => no_crossing_between trk sa 0 (Z.of_nat i)
    end.
Proof.
  induction i as [|i IH]; intros i2 r H Hi2; simpl in H; [discriminate|].
  destruct (i =? 0)%nat eqn:E0.
  { injection H as <-. intros j Hj. apply Nat.eqb_eq in E0. lia. }
  apply Nat.eqb_neq in E0.
  destruct (pass_through_start trk sa (Z.of_nat i)) as [p|] eqn:P; simpl in H; [|discriminate].
  assert (E2 : (i2 =? -1)%Z = false) by (apply Z.eqb_neq; exact Hi2).
  rewrite E2, andb_false_r in H. destruct p; simpl in H.
  - injection H as <-. repeat split; try lia; auto. intros j Hj. lia.
  - apply IH in H; [|exact Hi2].
    assert (N : ~ crossing trk sa (Z.of_nat i)) by (unfold crossing; congruence).
    destruct r as [[a b]|].
    + destruct H as (Hb & Ha & Hr & Hn). repeat split; try lia; auto.
      intros j Hj. destruct (Z.eq_dec j (Z.of_nat i)) as [->|Hne]; [exact N|].
      apply Hn. lia.
    + intros j Hj. destruct (Z.eq_dec j (Z.of_nat i)) as [->|Hne]; [exact N|].
      apply H. lia.
Qed.

Lemma find_loop_first trk sa :
  forall i r,
    find_loop trk sa i (-1) (-1) = Ok r ->
    match r with
    | Some (a, b) =>
        crossing trk sa a /\ crossing trk sa b /\
        (1 <= a < b)%Z /\ (b < Z.of_nat i)%Z /\
        no_crossing_between trk sa a b /\
        no_crossing_between trk sa b (Z.of_nat i)
    | None =>
        forall j k, (1 <= j < k)%Z -> (k < Z.of_nat i)%Z ->
                    ~ (crossing trk sa j /\ crossing trk sa k)
    end.
Proof.
  induction i as [|i IH]; intros r H; simpl in H; [discriminate|].
  destruct (i =? 0)%nat eqn:E0.
  { injection H as <-. intros j k Hj Hk. apply Nat.eqb_eq in E0. lia. }
  apply Nat.eqb_neq in E0.
  destruct (pass_through_start trk sa (Z.of_nat i)) as [p|] eqn:P; simpl in H; [|discriminate].
  destruct p; simpl in H.
  - apply find_loop_second in H; [|lia].
    destruct r as [[a b]|].
    + destruct H as (-> & Ha & Hr & Hn).
      repeat split; try lia; auto. intros j Hj. lia.
    + intros j k Hj Hk [Cj Ck].
      destruct (Z.eq_dec k (Z.of_nat i)) as [->|Hne].
      * apply (H j); [lia | exact Cj].
      * apply (H k); [lia | exact Ck].
  - assert (N : ~ crossing trk sa (Z.of_nat i)) by (unfold crossing; congruence).
    apply IH in H. destruct r as [[a b]|].
    + destruct H as (Ha & Hb & Hab & Hbi & Hn1 & Hn2).
      repeat split; try lia; auto.
      intros j Hj. destruct (Z.eq_dec j (Z.of_nat i)) as [->|Hne]; [exact N|].
      apply Hn2. lia.
    + intros j k Hj Hk [Cj Ck].
      destruct (Z.eq_dec k (Z.of_nat i)) as [->|Hne]; [exact (N Ck)|].
      apply (H j k); [lia | lia | split; assumption].
Qed.

(** X12.  The backward scan returns the last two passes through the start
    angle.  When it succeeds, [i2] is the last index at which the polar
    angle rises above the start angle and [i1] the last one before it; when
    it gives up ([return False]) the raw sequence has fewer than two such
    passes. *)
Theorem scan_finds_last_two_crossings :
  forall (trk : list TrackPoint) (sa : Q) (r : option (Z * Z)),
    find_loop trk sa (List.length trk) (-1) (-1) = Ok r ->
    match r with
    | Some (i1, i2) =>
        crossing trk sa i1 /\ crossing trk sa i2 /\
        (1 <= i1 < i2)%Z /\ (i2 < len trk)%Z /\
        no_crossing_between trk sa i1 i2 /\
        no_crossing_between trk sa i2 (len trk)
    | None =>
        forall j k, (1 <= j < k)%Z -> (k < len trk)%Z ->
                    ~ (crossing trk sa j /\ crossing trk sa k)
    end.
Proof.
  intros trk sa r H. apply find_loop_first in H. exact H.
Qed.

Lemma scan_finds_last_two_crossings_witness :
  crossing (two_laps 5) (- (1 # 4)) 1 /\
  crossing (two_laps 5) (- (1 # 4)) 7 /\
  no_crossing_between (two_laps 5) (- (1 # 4)) 1 7.
Proof.
  assert (F : find_loop (two_laps 5) (- (1 # 4)) (List.length (two_laps 5)) (-1) (-1)
              = Ok (Some (1%Z, 7%Z))) by (vm_compute; reflexivity).
  pose proof (@scan_finds_last_two_crossings (two_laps 5) (- (1 # 4)) _ F) as H.
  cbv beta iota in H. destruct H as (A & B & _ & _ & C & _).
  split; [exact A|]. split; [exact B | exact C].
Defined.

(** ** Border runs *)

Lemma index_defined {A} (l : list A) i :
  (- len l <= i < len l)%Z -> exists v, index l i = Ok v.
Proof.
  intros H. unfold index, len in *.
  destruct (0 <=? i)%Z eqn:E0.
  - apply Z.leb_le in E0.
    destruct (nth_error l (Z.to_nat i)) eqn:N; [eexists; reflexivity|].
    apply nth_error_None in N. lia.
  - apply Z.leb_gt in E0.
    assert (E1 : (- Z.of_nat (List.length l) <=? i)%Z = true) by (apply Z.leb_le; lia).
    rewrite E1.
    destruct (nth_error l (Z.to_nat (Z.of_nat (List.length l) + i))) eqn:N;
      [eexists; reflexivity|].
    apply nth_error_None in N. lia.
Qed.

Lemma update_repeat {A} (b : A) :
  forall n k, (k < n)%nat -> update (repeat b n) k b = Some (repeat b n).
Proof.
  induction n as [|n IH]; intros k Hk; [lia|]. simpl.
  destruct k as [|k]; [reflexivity|]. rewrite IH by lia. reflexivity.
Qed.

Lemma set_index_repeat {A} (b : A) n i :
  (- Z.of_nat n <= i < Z.of_nat n)%Z -> set_index (repeat b n) i b = Ok (repeat b n).
Proof.
  intros H. unfold set_index, len. rewrite repeat_length.
  destruct (0 <=? i)%Z eqn:E0.
  - apply Z.leb_le in E0. rewrite update_repeat by lia. reflexivity.
  - apply Z.leb_gt in E0.
    assert (E1 : (- Z.of_nat n <=? i)%Z = true) by (apply Z.leb_le; lia).
    rewrite E1, update_repeat by lia. reflexivity.
Qed.

Lemma index_repeat {A} (b : A) n i :
  (- Z.of_nat n <= i < Z.of_nat n)%Z -> index (repeat b n) i = Ok b.
Proof.
  intros H.
  destruct (@index_defined _ (repeat b n) i) as [v Hv].
  { unfold len. rewrite repeat_length. exact H. }
  rewrite Hv. f_equal. unfold index in Hv.
  destruct (0 <=? i)%Z.
  - destruct (nth_error _ _) eqn:N; [|discriminate]. injection Hv as <-.
    apply nth_error_In in N. now apply repeat_spec in N.
  - destruct (- len (repeat b n) <=? i)%Z; [|discriminate].
    destruct (nth_error _ _) eqn:N; [|discriminate]. injection Hv as <-.
    apply nth_error_In in N. now apply repeat_spec in N.
Qed.

Lemma foldM_fixed {A S} (f : S -> A -> outcome S) (s : S) :
  forall l, (forall a, In a l -> f s a = Ok s) -> foldM f l s = Ok s.
Proof.
  induction l as [|a l IH]; intros H; [reflexivity|].
  cbn [foldM]. rewrite H by (left; reflexivity). cbn [Py.bind].
  apply IH. intros b Hb. apply H. right. exact Hb.
Qed.

Lemma range_bounds a b i : In i (range a b) -> (a <= i < b)%Z.
Proof.
  unfold range. intros H. apply in_map_iff in H as (k & <- & Hk).
  apply in_seq in Hk. lia.
Qed.

(** X13.  A finalised lap of one, two or three points makes the border
    computation raise [IndexError]: the run test reads [track[i - 4]], which
    wraps past the front of so short a list. *)
Theorem short_lap_breaks_border_computation :
  forall (trk : list TrackPoint),
    (1 <= List.length trk <= 3)%nat ->
    border_flags trk = Raise IndexError.
Proof.
  intros trk H.
  destruct trk as [|a [|b [|c [|d r]]]]; simpl in H; try lia; vm_compute; reflexivity.
Qed.

Lemma short_lap_breaks_border_computation_witness :
  border_flags (repeat origin 3) = Raise IndexError.
Proof.
  apply short_lap_breaks_border_computation. simpl. lia.
Defined.

Lemma gentle_probe trk i st neg :
  (4 <= len trk)%Z -> (0 <= i < len trk)%Z -> (0 <= neg <= 3)%Z ->
  (forall j p q, index trk j = Ok p -> index trk (j - 1) = Ok q ->
                 Qabs (beta p - beta q) <= TRACK_TURN_RATE * (2 # 10)) ->
  exists st',
    border_probe trk i st neg = Ok st' /\
    (fst st = false \/ neg = 0%Z -> fst st' = false).
Proof.
  intros Hlen Hi Hneg Hgentle. destruct st as [good oneside]. unfold border_probe.
  destruct (@index_defined _ trk (i - neg - 0)) as [p1 H1]; [lia|].
  destruct (@index_defined _ trk (i - neg - 1)) as [p2 H2]; [lia|].
  rewrite H1, H2. cbn [Py.bind]. eexists. split; [reflexivity|].
  cbn [fst]. intros [-> | ->]; [reflexivity|].
  replace (i - 0 - 0)%Z with i in H1 by lia.
  replace (i - 0 - 1)%Z with (i - 1)%Z in H2 by lia.
  pose proof (Hgentle _ _ _ H1 H2) as G.
  destruct (Qgtb (Qabs (beta p1 - beta p2)) (TRACK_TURN_RATE * (2 # 10))) eqn:E.
  - apply Qgtb_spec in E. exfalso. apply (Qlt_not_le _ _ E G).
  - apply andb_false_r.
Qed.

(** X14.  When no two neighbouring samples of the lap (the first and the
    last included) differ in heading by more than 20% of the turn rate, no
    sample is flagged for a kerb. *)
Theorem gentle_lap_has_no_border :
  forall (trk : list TrackPoint),
    (4 <= len trk)%Z ->
    (forall j p q, index trk j = Ok p -> index trk (j - 1) = Ok q ->
                   Qabs (beta p - beta q) <= TRACK_TURN_RATE * (2 # 10)) ->
    border_flags trk = Ok (repeat false (List.length trk)).
Proof.
  intros trk Hlen Hgentle. unfold border_flags.
  assert (D : forall i, In i (range 0 (len trk)) ->
                border_detect trk (repeat false (List.length trk)) i
                = Ok (repeat false (List.length trk))).
  { intros i Hi. apply range_bounds in Hi. unfold border_detect.
    change (range 0 (Z.of_nat BORDER_MIN_COUNT)) with [0; 1; 2; 3]%Z.
    cbn [foldM].
    destruct (@gentle_probe trk i (true, 0) 0%Z Hlen Hi ltac:(lia) Hgentle) as (s0 & -> & F0).
    cbn [Py.bind].
    destruct (@gentle_probe trk i s0 1%Z Hlen Hi ltac:(lia) Hgentle) as (s1 & -> & F1).
    cbn [Py.bind].
    destruct (@gentle_probe trk i s1 2%Z Hlen Hi ltac:(lia) Hgentle) as (s2 & -> & F2).
    cbn [Py.bind].
    destruct (@gentle_probe trk i s2 3%Z Hlen Hi ltac:(lia) Hgentle) as (s3 & -> & F3).
    cbn [Py.bind].
    assert (G3 : fst s3 = false) by auto 10.
    destruct s3 as [good oneside]. cbn [fst] in G3. subst good. cbn [andb].
    apply set_index_repeat. unfold len in Hi. lia. }
  rewrite (@foldM_fixed _ _ (border_detect trk) (repeat false (List.length trk))
             (range 0 (len trk)) D). cbn [Py.bind].
  apply foldM_fixed. intros i Hi. apply range_bounds in Hi.
  apply foldM_fixed. intros neg Hneg.
  change (range 0 (Z.of_nat BORDER_MIN_COUNT)) with [0; 1; 2; 3]%Z in Hneg.
  assert (Hn : (0 <= neg <= 3)%Z) by (simpl in Hneg; lia).
  unfold border_spread, len in *.
  rewrite !index_repeat by lia. cbn [Py.bind orb].
  apply set_index_repeat. lia.
Qed.

Lemma gentle_lap_has_no_border_witness :
  border_flags (repeat origin 5) = Ok (repeat false 5).
Proof.
  apply (@gentle_lap_has_no_border (repeat origin 5)).
  - vm_compute. discriminate.
  - intros j p q Hp Hq.
    assert (Bp : beta p = 0).
    { unfold index in Hp. destruct (0 <=? j)%Z; [|destruct (_ <=? j)%Z; [|discriminate]];
        (destruct (nth_error _ _) eqn:N; [|discriminate]; injection Hp as <-;
         apply nth_error_In in N; apply repeat_spec in N; subst; reflexivity). }
    assert (Bq : beta q = 0).
    { unfold index in Hq. destruct (0 <=? j - 1)%Z; [|destruct (_ <=? j - 1)%Z; [|discriminate]];
        (destruct (nth_error _ _) eqn:N; [|discriminate]; injection Hq as <-;
         apply nth_error_In in N; apply repeat_spec in N; subst; reflexivity). }
    rewrite Bp, Bq. vm_compute. discriminate.
Defined.

(** ** The walk *)

Section WalkProperties.

Variables (cos sin : Q -> Q) (atan2 : Q -> Q -> Q) (pi : Q) (scale : Q).
Variable checkpoints : list Checkpoint.

Local Abbreviation iteration := (walk_iteration cos sin atan2 pi scale checkpoints).
Local Abbreviation loop := (walk_loop cos sin atan2 pi scale checkpoints).

(** Each pass appends one point, at the position the walk has moved to: one
    step along the perpendicular of the heading it had. *)
Lemma walk_iteration_spec fuel w w' :
  iteration fuel w = Some (Ok w') ->
  exists p,
    wtrack w' = wtrack w ++ [p] /\
    px p = wx w' /\ py p = wy w' /\
    wx w' = wx w + - sin (wbeta w) * TRACK_DETAIL_STEP /\
    wy w' = wy w + cos (wbeta w) * TRACK_DETAIL_STEP.
Proof.
  unfold walk_iteration. intros H.
  destruct (wvisited_other_side w && Qgtb (atan2 (wy w) (wx w)) 0);
    destruct (Qltb (atan2 (wy w) (wx w)) 0);
    (destruct (find_destination _ _ _ _ _) as [[[[a d] [[da dx] dy]]|]|]; try discriminate;
     destruct (wind_down _ _ _ _) as [b1|]; try discriminate;
     destruct (wind_up _ _ _ _) as [b2|]; try discriminate;
     injection H as <-; eexists; cbn [wtrack wx wy px py];
     repeat split; reflexivity).
Qed.

Lemma walk_loop_spec fuel :
  forall n w trk,
    loop n fuel w = Some (Ok trk) ->
    exists suffix,
      trk = wtrack w ++ suffix /\
      (1 <= List.length suffix <= n)%nat /\
      ((forall b, cos b * cos b + sin b * sin b == 1) ->
       spaced (wx w) (wy w) suffix).
Proof.
  induction n as [|n IH]; intros w trk H; cbn [walk_loop] in H; [discriminate|].
  destruct (iteration fuel w) as [[w'|]|] eqn:E; try discriminate.
  apply walk_iteration_spec in E as (p & Ht & Hx & Hy & Hmx & Hmy).
  assert (D : (forall b, cos b * cos b + sin b * sin b == 1) ->
              square (px p - wx w) + square (py p - wy w) == square TRACK_DETAIL_STEP).
  { intros T. rewrite Hx, Hy, Hmx, Hmy. unfold square.
    transitivity ((cos (wbeta w) * cos (wbeta w) + sin (wbeta w) * sin (wbeta w))
                  * (TRACK_DETAIL_STEP * TRACK_DETAIL_STEP)); [ring|].
    rewrite T. ring. }
  destruct (4 <? wlaps w')%Z.
  { injection H as <-. exists [p]. split; [exact Ht|]. split; [simpl; lia|].
    intros T. simpl. split; [apply D; exact T | exact I]. }
  destruct (n =? 0)%nat eqn:E0.
  { injection H as <-. exists [p]. split; [exact Ht|]. split; [simpl; lia|].
    intros T. simpl. split; [apply D; exact T | exact I]. }
  apply IH in H as (suffix & -> & Hl & Hs).
  exists (p :: suffix). split; [rewrite Ht, <- app_assoc; reflexivity|].
  split; [simpl; lia|].
  intros T. simpl. split; [apply D; exact T|].
  rewrite Hx, Hy. apply Hs. exact T.
Qed.

(** X15.  The stall guard bounds the walk: whenever the generation loop
    ends, the raw sequence has at least one and at most 2500 points. *)
Theorem walk_length_is_bounded :
  forall (fuel : nat) (trk : list TrackPoint),
    walk_track cos sin atan2 pi scale checkpoints fuel = Some (Ok trk) ->
    (1 <= List.length trk <= 2500)%nat.
Proof.
  intros fuel trk H. unfold walk_track in H.
  apply walk_loop_spec in H as (suffix & -> & Hl & _). exact Hl.
Qed.

(** X16.  Consecutive points of the raw sequence are spaced by the fixed
    step length: with [cos^2 + sin^2 = 1], the first point lies one
    [TRACK_DETAIL_STEP] from the start [(1.5 * TRACK_RAD, 0)] and every other
    point one [TRACK_DETAIL_STEP] from the one before it. *)
Theorem walk_is_evenly_spaced :
  forall (fuel : nat) (trk : list TrackPoint),
    (forall b, cos b * cos b + sin b * sin b == 1) ->
    walk_track cos sin atan2 pi scale checkpoints fuel = Some (Ok trk) ->
    spaced ((15 # 10) * TRACK_RAD) 0 trk.
Proof.
  intros fuel trk T H. unfold walk_track in H.
  apply walk_loop_spec in H as (suffix & -> & _ & Hs). apply Hs. exact T.
Qed.

End WalkProperties.

Lemma walk_length_is_bounded_witness :
  exists trk,
    walk_track cos_at_0 sin_at_0 zigzag_atan2 pi_approx 10 ring_checkpoints 5
    = Some (Ok trk) /\
    (1 <= List.length trk <= 2500)%nat.
Proof.
  destruct (walk_track cos_at_0 sin_at_0 zigzag_atan2 pi_approx 10 ring_checkpoints 5)
    as [[trk|e]|] eqn:E; [|vm_compute in E; discriminate ..].
  exists trk. split; [reflexivity|].
  exact (@walk_length_is_bounded cos_at_0 sin_at_0 zigzag_atan2 pi_approx 10
           ring_checkpoints 5%nat trk E).
Defined.

Lemma walk_is_evenly_spaced_witness :
  exists trk,
    walk_track cos_at_0 sin_at_0 zigzag_atan2 pi_approx 10 ring_checkpoints 5
    = Some (Ok trk) /\
    spaced ((15 # 10) * TRACK_RAD) 0 trk.
Proof.
  destruct (walk_track cos_at_0 sin_at_0 zigzag_atan2 pi_approx 10 ring_checkpoints 5)
    as [[trk|e]|] eqn:E; [|vm_compute in E; discriminate ..].
  exists trk. split; [reflexivity|].
  assert (T : forall b, cos_at_0 b * cos_at_0 b + sin_at_0 b * sin_at_0 b == 1)
    by (intros b; reflexivity).
  exact (@walk_is_evenly_spaced cos_at_0 sin_at_0 zigzag_atan2 pi_approx 10
           ring_checkpoints 5%nat trk T E).
Defined.

(** ** The hand controller *)

Lemma index_byte (l : list Z) (k : Z) :
  (0 <= k < len l)%Z -> Forall byte l -> exists v, index l k = Ok v /\ byte v.
Proof.
  intros Hk Hb. destruct (@index_defined _ l k) as [v Hv]; [lia|].
  exists v. split; [exact Hv|].
  unfold index in Hv.
  assert (E : (0 <=? k)%Z = true) by (apply Z.leb_le; lia). rewrite E in Hv.
  destruct (nth_error l (Z.to_nat k)) eqn:N; [|discriminate]. injection Hv as <-.
  rewrite Forall_forall in Hb. apply Hb. eapply nth_error_In; eauto.
Qed.

Lemma byte_ratio (z : Z) : byte z -> 0 <= inject_Z z / 255 /\ inject_Z z / 255 <= 1.
Proof.
  unfold byte. intros H. unfold Qle, Qdiv, Qmult, Qinv, inject_Z; simpl. lia.
Qed.

Lemma byte_steer (z : Z) :
  byte z -> - (128 # 127) <= (inject_Z z - 128) / 127 /\ (inject_Z z - 128) / 127 <= 1.
Proof.
  unfold byte. intros H.
  unfold Qle, Qdiv, Qminus, Qplus, Qopp, Qmult, Qinv, inject_Z; simpl. lia.
Qed.

(** X17.  Polling the hand controller.  With nothing pending the action is
    returned unchanged.  A pending report of at most 12 bytes raises
    [IndexError].  A report of at least 15 bytes is always accepted: when
    the restart or quit button is pressed the action is unchanged, and
    otherwise gas and brake lie in [0, 1] while steer lies in
    [-128/127, 1], so slightly below -1 at the left stop. *)
Theorem controller_input_ranges :
  forall (report : list Z) (a : Action),
    (report = [] -> controller_input report a = Ok (mkPolled a false false)) /\
    ((1 <= List.length report <= 12)%nat ->
     controller_input report a = Raise IndexError) /\
    ((15 <= List.length report)%nat -> Forall byte report ->
     exists out,
       controller_input report a = Ok out /\
       (restart_set out = true \/ close_called out = true -> polled_action out = a) /\
       (restart_set out = false -> close_called out = false ->
        exists steer gas brake,
          polled_action out = (steer, gas, brake) /\
          - (128 # 127) <= steer /\ steer <= 1 /\
          0 <= gas /\ gas <= 1 /\ 0 <= brake /\ brake <= 1)).
Proof.
  intros report a. split; [intros ->; reflexivity|]. split.
  - intros H. destruct report as [|z r]; [simpl in H; lia|].
    unfold controller_input.
    assert (N : index (z :: r) 12 = Raise IndexError).
    { unfold index. simpl (0 <=? 12)%Z. cbv iota.
      assert (E : nth_error (z :: r) (Z.to_nat 12) = None)
        by (apply nth_error_None; simpl in *; lia).
      rewrite E. reflexivity. }
    rewrite N. reflexivity.
  - intros H Hb. destruct report as [|z r]; [simpl in H; lia|].
    assert (L : (15 <= len (z :: r))%Z) by (unfold len; lia).
    unfold controller_input.
    destruct (@index_byte (z :: r) 12 ltac:(lia) Hb) as (r12 & -> & _). cbn [Py.bind].
    destruct (100 <? r12)%Z.
    { eexists. split; [reflexivity|]. cbn. split; [reflexivity|]. discriminate. }
    destruct (@index_byte (z :: r) 11 ltac:(lia) Hb) as (r11 & -> & _). cbn [Py.bind].
    destruct (100 <? r11)%Z.
    { eexists. split; [reflexivity|]. cbn. split; [reflexivity|]. intros _; discriminate. }
    destruct (@index_byte (z :: r) 3 ltac:(lia) Hb) as (r3 & -> & B3). cbn [Py.bind].
    destruct (@index_byte (z :: r) 13 ltac:(lia) Hb) as (r13 & -> & B13). cbn [Py.bind].
    destruct (@index_byte (z :: r) 14 ltac:(lia) Hb) as (r14 & -> & B14). cbn [Py.bind].
    eexists. split; [reflexivity|]. cbn [restart_set close_called polled_action].
    split; [intros [D|D]; discriminate|].
    intros _ _. do 3 eexists. split; [reflexivity|].
    destruct (byte_steer B3) as [S1 S2].
    destruct (byte_ratio B13) as [G1 G2].
    destruct (byte_ratio B14) as [K1 K2].
    repeat split; assumption.
Qed.

(** ** Checkpoints and the parameter file *)

Lemma nth_error_map_seq {B : Type} (f : nat -> B) :
  forall n k c, (c < n)%nat -> nth_error (map f (seq k n)) c = Some (f (k + c)%nat).
Proof.
  induction n as [|n IH]; intros k c Hc; [lia|].
  destruct c as [|c]; simpl.
  - rewrite Nat.add_0_r. reflexivity.
  - rewrite IH by lia. f_equal. f_equal. lia.
Qed.

Lemma update_same {A : Type} (l : list A) :
  forall k v, nth_error l k = Some v -> update l k v = Some l.
Proof.
  induction l as [|h r IH]; intros [|k] v H; simpl in H; try discriminate.
  - injection H as ->. reflexivity.
  - simpl. rewrite IH by exact H. reflexivity.
Qed.

Lemma set_index_same {A : Type} (l : list A) (c : nat) (v : A) :
  nth_error l c = Some v -> set_index l (Z.of_nat c) v = Ok l.
Proof.
  intros H. unfold set_index.
  assert (E : (0 <=? Z.of_nat c)%Z = true) by (apply Z.leb_le; lia).
  rewrite E, Nat2Z.id, update_same by exact H. reflexivity.
Qed.

Lemma index_of_nth {A : Type} (l : list A) (c : nat) (v : A) :
  nth_error l c = Some v -> index l (Z.of_nat c) = Ok v.
Proof.
  intros H. unfold index.
  assert (E : (0 <=? Z.of_nat c)%Z = true) by (apply Z.leb_le; lia).
  rewrite E, Nat2Z.id, H. reflexivity.
Qed.

Lemma index_set_index {A : Type} (l l' : list A) (c : nat) (v w : A) :
  set_index l (Z.of_nat c) v = Ok l' -> index l' (Z.of_nat c) = Ok w -> w = v.
Proof.
  unfold set_index, index.
  assert (E : (0 <=? Z.of_nat c)%Z = true) by (apply Z.leb_le; lia).
  rewrite E, Nat2Z.id. intros H1 H2.
  destruct (update l c v) as [u|] eqn:U; [|discriminate]. injection H1 as ->.
  pose proof (nth_error_update _ _ _ U c) as N. rewrite Nat.eqb_refl in N.
  rewrite N in H2. injection H2 as ->. reflexivity.
Qed.

Lemma slice_head {A : Type} (a b : list A) :
  slice (a ++ b) None (Some (Z.of_nat (List.length a))) = a.
Proof.
  unfold slice, clamp, len. rewrite length_app.
  assert (E : (Z.of_nat (List.length a) <? 0)%Z = false) by (apply Z.ltb_ge; lia).
  rewrite E.
  replace (Z.to_nat (Z.min (Z.of_nat (List.length a + List.length b))
                           (Z.of_nat (List.length a)) - 0))
    with (List.length a) by lia.
  change (Z.to_nat 0) with 0%nat. cbn [skipn].
  rewrite firstn_app, firstn_all, Nat.sub_diag. cbn [firstn]. apply app_nil_r.
Qed.

Lemma slice_tail {A : Type} (a b : list A) :
  (1 <= List.length b)%nat ->
  slice (a ++ b) (Some (- Z.of_nat (List.length b))%Z) None = b.
Proof.
  intros H. unfold slice, clamp, len. rewrite length_app.
  assert (E : (- Z.of_nat (List.length b) <? 0)%Z = true) by (apply Z.ltb_lt; lia).
  rewrite E.
  replace (Z.to_nat (Z.max 0 (Z.of_nat (List.length a + List.length b)
                              + - Z.of_nat (List.length b))))
    with (List.length a) by lia.
  replace (Z.to_nat (Z.of_nat (List.length a + List.length b)
                     - Z.max 0 (Z.of_nat (List.length a + List.length b)
                                + - Z.of_nat (List.length b))))
    with (List.length b) by lia.
  rewrite skipn_app, skipn_all, Nat.sub_diag. cbn [skipn app].
  apply firstn_all.
Qed.

Section CheckpointProperties.

Variables (cos sin : Q -> Q) (pi : Q).
Variable py_float : string -> option Q.
Variable fmt : Q -> string.

Local Open Scope nat_scope.

Local Abbreviation pinned_radius := ((15 # 10) * TRACK_RAD)%Q.

(** One iteration appends one checkpoint; the first and the last iteration
    pin it, and only the last touches [start_alpha]. *)
Lemma load_step_spec n noise c rad sa acc rad' sa' acc' :
  load_step cos sin pi n noise c (rad, sa, acc) = Ok (rad', sa', acc') ->
  exists a r,
    acc' = acc ++ [checkpoint_at cos sin a r] /\
    (c = n - 1 ->
     a = ring_angle pi c n /\ r = pinned_radius /\
     sa' = Some (pinned_start_alpha pi n)) /\
    (c <> n - 1 -> sa' = sa /\ (c = 0 -> a = 0%Q /\ r = pinned_radius)).
Proof.
  unfold load_step. intros H.
  destruct (nth_error noise c) as [nz|]; cbn [of_option Py.bind] in H; [|discriminate].
  destruct (c =? 0) eqn:E0.
  - destruct (set_index rad (Z.of_nat c) pinned_radius) as [r1|] eqn:S1;
      cbn [Py.bind] in H; [|discriminate].
    destruct (c =? n - 1) eqn:E1.
    + destruct (set_index r1 (Z.of_nat c) pinned_radius) as [r2|] eqn:S2;
        cbn [Py.bind] in H; [|discriminate].
      destruct (index r2 (Z.of_nat c)) as [rc|] eqn:I; cbn [Py.bind] in H; [|discriminate].
      injection H as <- <- <-.
      pose proof (@index_set_index _ _ _ _ _ _ S2 I); subst rc.
      apply Nat.eqb_eq in E1.
      do 2 eexists. split; [reflexivity|]. split; [|intros D; contradiction].
      intros _. repeat split; reflexivity.
    + cbn [Py.bind] in H.
      destruct (index r1 (Z.of_nat c)) as [rc|] eqn:I; cbn [Py.bind] in H; [|discriminate].
      injection H as <- <- <-.
      pose proof (@index_set_index _ _ _ _ _ _ S1 I); subst rc.
      apply Nat.eqb_neq in E1.
      do 2 eexists. split; [reflexivity|]. split; [intros D; contradiction|].
      intros _. repeat split; reflexivity.
  - cbn [Py.bind] in H. apply Nat.eqb_neq in E0.
    destruct (c =? n - 1) eqn:E1.
    + destruct (set_index rad (Z.of_nat c) pinned_radius) as [r2|] eqn:S2;
        cbn [Py.bind] in H; [|discriminate].
      destruct (index r2 (Z.of_nat c)) as [rc|] eqn:I; cbn [Py.bind] in H; [|discriminate].
      injection H as <- <- <-.
      pose proof (@index_set_index _ _ _ _ _ _ S2 I); subst rc.
      apply Nat.eqb_eq in E1.
      do 2 eexists. split; [reflexivity|]. split; [|intros D; contradiction].
      intros _. repeat split; reflexivity.
    + cbn [Py.bind] in H.
      destruct (index rad (Z.of_nat c)) as [rc|] eqn:I; cbn [Py.bind] in H; [|discriminate].
      injection H as <- <- <-.
      apply Nat.eqb_neq in E1.
      do 2 eexists. split; [reflexivity|]. split; [intros D; contradiction|].
      intros _. split; [reflexivity|]. intros D; contradiction.
Qed.

Lemma load_loop_spec n noise :
  forall m k rad sa acc rad' sa' acc',
    load_loop cos sin pi n noise (seq k m) (rad, sa, acc) = Ok (rad', sa', acc') ->
    List.length acc = k ->
    List.length acc' = k + m /\
    (forall i, i < k -> nth_error acc' i = nth_error acc i) /\
    (k = 0 -> 1 <= m -> 0 <> n - 1 ->
     nth_error acc' 0 = Some (checkpoint_at cos sin 0 pinned_radius)) /\
    (k <= n - 1 < k + m ->
     nth_error acc' (n - 1)
     = Some (checkpoint_at cos sin (ring_angle pi (n - 1) n) pinned_radius) /\
     sa' = Some (pinned_start_alpha pi n)) /\
    (n - 1 < k \/ m = 0 -> sa' = sa).
Proof.
  induction m as [|m IH]; intros k rad sa acc rad' sa' acc' H L; cbn [seq load_loop] in H.
  - injection H as <- <- <-. repeat split; try lia; auto.
  - destruct (load_step cos sin pi n noise k (rad, sa, acc)) as [[[r1 s1] a1]|] eqn:E;
      cbn [Py.bind] in H; [|discriminate].
    apply load_step_spec in E as (a & r & -> & Hlast & Hother).
    apply IH in H as (Hl & Hp & _ & Hn & Hs); [|rewrite length_app; simpl; lia].
    assert (P : forall i, i < k ->
                nth_error acc' i = nth_error acc i).
    { intros i Hi. rewrite Hp by lia. apply nth_error_app1. lia. }
    assert (K : nth_error acc' k = Some (checkpoint_at cos sin a r)).
    { rewrite Hp by lia. rewrite nth_error_app2 by lia.
      rewrite L, Nat.sub_diag. reflexivity. }
    split; [lia|]. split; [exact P|]. split; [|split].
    + intros -> _ D. rewrite K.
      destruct (Hother D) as (_ & Hz). destruct (Hz eq_refl) as (-> & ->). reflexivity.
    + intros Hk. destruct (Nat.eq_dec k (n - 1)) as [D|D].
      * destruct (Hlast D) as (-> & -> & ->). rewrite <- D. split; [exact K|].
        apply Hs. left. lia.
      * apply Hn. lia.
    + intros [Hk|Hk]; [|discriminate].
      assert (D : k <> n - 1) by lia.
      destruct (Hother D) as (<- & _). apply Hs. left. lia.
Qed.

(** X18.  Whatever the parameter file holds, a successful
    [load_checkpoints] of [n >= 1] checkpoints returns exactly [n] of them,
    leaves [start_alpha] at [2 * pi * (-0.5) / n], pins the last checkpoint
    to the angle [2 * pi * (n - 1) / n] at radius [1.5 * TRACK_RAD], and for
    [n >= 2] pins the first to the angle 0 at the same radius. *)
Theorem loaded_checkpoints_are_pinned :
  forall (fs : FileSystem) (sa0 : option Q) (n : nat) (path : string)
         (cps : list Checkpoint) (sa : option Q),
    1 <= n ->
    load_checkpoints cos sin pi py_float fs sa0 n path = Ok (cps, sa) ->
    List.length cps = n /\
    sa = Some (pinned_start_alpha pi n) /\
    nth_error cps (n - 1)
    = Some (checkpoint_at cos sin (ring_angle pi (n - 1) n) pinned_radius) /\
    (2 <= n -> nth_error cps 0 = Some (checkpoint_at cos sin 0 pinned_radius)).
Proof.
  intros fs sa0 n path cps sa Hn H. unfold load_checkpoints in H.
  destruct (fs path) as [lines|]; cbn [of_option Py.bind] in H; [|discriminate].
  destruct (parse_floats py_float (slice lines None (Some (Z.of_nat n)))) as [noise|];
    cbn [Py.bind] in H; [|discriminate].
  destruct (parse_floats py_float (slice lines (Some (- Z.of_nat n)%Z) None)) as [rad|];
    cbn [Py.bind] in H; [|discriminate].
  destruct (load_loop cos sin pi n noise (seq 0 n) (rad, sa0, []))
    as [[[r1 s1] c1]|] eqn:E; cbn [Py.bind] in H; [|discriminate].
  injection H as <- <-.
  apply load_loop_spec in E as (Hl & _ & Hf & Hlast & _); [|reflexivity].
  destruct Hlast as (Hc & Hs); [lia|].
  split; [exact Hl|]. split; [exact Hs|]. split; [exact Hc|].
  intros H2. apply Hf; lia.
Qed.

Lemma parse_floats_map (f : nat -> Q) (cs : list nat) :
  (forall c, In c cs -> py_float (fmt (f c) ++ newline) = Some (f c)) ->
  parse_floats py_float (map (fun c => (fmt (f c) ++ newline)%string) cs)
  = Ok (map f cs).
Proof.
  induction cs as [|c cs IH]; intros H; [reflexivity|].
  cbn [map parse_floats]. rewrite H by (left; reflexivity). cbn [of_option Py.bind].
  rewrite IH by (intros c' Hc'; apply H; right; exact Hc'). reflexivity.
Qed.

(** On the lists the stored file holds, an iteration of the reader computes
    what the same iteration of the writer computed. *)
Lemma load_step_stored n draws noise rad c sa acc :
  nth_error noise c = Some (fst (draws c)) ->
  nth_error rad c = Some (stored_radius n draws c) ->
  load_step cos sin pi n noise c (rad, sa, acc)
  = Ok (rad, fst (store_step cos sin pi n draws c (sa, acc)),
        snd (store_step cos sin pi n draws c (sa, acc))).
Proof.
  intros Hn Hr. unfold load_step, store_step, stored_radius in *.
  rewrite Hn. cbn [of_option Py.bind].
  destruct (draws c) as [nz rd]. cbn [fst snd] in *.
  destruct (c =? 0) eqn:E0; destruct (c =? n - 1) eqn:E1; cbn [Py.bind];
    repeat (rewrite (@set_index_same _ _ _ _ Hr); cbn [Py.bind]);
    rewrite (@index_of_nth _ _ _ _ Hr); reflexivity.
Qed.

Lemma load_loop_stored n draws noise rad :
  forall cs sa acc,
    (forall c, In c cs ->
       nth_error noise c = Some (fst (draws c)) /\
       nth_error rad c = Some (stored_radius n draws c)) ->
    load_loop cos sin pi n noise cs (rad, sa, acc)
    = Ok (rad,
          fst (fold_left (fun st c => store_step cos sin pi n draws c st) cs (sa, acc)),
          snd (fold_left (fun st c => store_step cos sin pi n draws c st) cs (sa, acc))).
Proof.
  induction cs as [|c cs IH]; intros sa acc H; [reflexivity|].
  cbn [load_loop fold_left].
  destruct (H c (or_introl eq_refl)) as (Hn & Hr).
  rewrite (@load_step_stored n draws _ _ _ sa acc Hn Hr). cbn [Py.bind].
  destruct (store_step cos sin pi n draws c (sa, acc)) as [s a]. cbn [fst snd].
  apply IH. intros c' Hc'. apply H. right. exact Hc'.
Qed.

(** X19.  Round trip through the parameter file.  If every number
    [store_checkpoints] writes reads back as itself, then
    [load_checkpoints] on the written file returns the checkpoints and the
    [start_alpha] that [store_checkpoints] returned: the empty line between
    the two blocks is never read. *)
Theorem stored_parameters_load_back :
  forall (fs : FileSystem) (sa0 : option Q) (n : nat) (draws : nat -> Q * Q)
         (path : string),
    1 <= n ->
    (forall c, c < n ->
       py_float (fmt (fst (draws c)) ++ newline) = Some (fst (draws c)) /\
       py_float (fmt (stored_radius n draws c) ++ newline)
       = Some (stored_radius n draws c)) ->
    fs path = Some (stored_lines fmt n draws) ->
    load_checkpoints cos sin pi py_float fs sa0 n path
    = Ok (store_checkpoints cos sin pi sa0 n draws).
Proof.
  intros fs sa0 n draws path Hn Hrt Hfs.
  unfold load_checkpoints, store_checkpoints. rewrite Hfs. cbn [of_option Py.bind].
  unfold stored_lines.
  set (A := map (fun c => (fmt (fst (draws c)) ++ newline)%string) (seq 0 n)).
  set (B := map (fun c => (fmt (stored_radius n draws c) ++ newline)%string) (seq 0 n)).
  assert (LA : List.length A = n) by (unfold A; rewrite length_map, length_seq; reflexivity).
  assert (LB : List.length B = n) by (unfold B; rewrite length_map, length_seq; reflexivity).
  assert (SA : slice (A ++ [newline] ++ B) None (Some (Z.of_nat n)) = A).
  { replace (Z.of_nat n) with (Z.of_nat (List.length A)) by (rewrite LA; reflexivity).
    apply slice_head. }
  assert (SB : slice (A ++ [newline] ++ B) (Some (- Z.of_nat n)%Z) None = B).
  { rewrite app_assoc.
    replace (Z.of_nat n) with (Z.of_nat (List.length B)) by (rewrite LB; reflexivity).
    apply slice_tail. lia. }
  rewrite SA, SB. unfold A, B.
  rewrite (@parse_floats_map (fun c => fst (draws c)) _)
    by (intros c Hc; apply in_seq in Hc; apply Hrt; lia).
  cbn [Py.bind].
  rewrite (@parse_floats_map (fun c => stored_radius n draws c) _)
    by (intros c Hc; apply in_seq in Hc; apply Hrt; lia).
  cbn [Py.bind].
  rewrite (@load_loop_stored n draws).
  - cbn [Py.bind].
    destruct (fold_left (fun st c => store_step cos sin pi n draws c st) (seq 0 n) (sa0, []))
      as [s c]. reflexivity.
  - intros c Hc. apply in_seq in Hc.
    split; rewrite nth_error_map_seq by lia; reflexivity.
Qed.

End CheckpointProperties.

Lemma loaded_checkpoints_are_pinned_witness :
  exists cps sa,
    load_checkpoints cos_at_0 sin_at_0 pi_approx decimal_float (file_of 12) None
      CHECKPOINTS sim_params_path_v1 = Ok (cps, sa) /\
    List.length cps = CHECKPOINTS /\
    sa = Some (pinned_start_alpha pi_approx CHECKPOINTS).
Proof.
  destruct (load_checkpoints cos_at_0 sin_at_0 pi_approx decimal_float (file_of 12) None
              CHECKPOINTS sim_params_path_v1) as [[cps sa]|e] eqn:E;
    [|vm_compute in E; discriminate].
  exists cps, sa. split; [reflexivity|].
  assert (N : (1 <= CHECKPOINTS)%nat) by (unfold CHECKPOINTS; lia).
  destruct (@loaded_checkpoints_are_pinned cos_at_0 sin_at_0 pi_approx decimal_float
              (file_of 12) None CHECKPOINTS sim_params_path_v1 cps sa N E)
    as (Hl & Hs & _).
  split; [exact Hl | exact Hs].
Defined.

Lemma stored_parameters_load_back_witness :
  load_checkpoints cos_at_0 sin_at_0 pi_approx read_back stored_fs None
    CHECKPOINTS sim_params_path_v1
  = Ok (store_checkpoints cos_at_0 sin_at_0 pi_approx None CHECKPOINTS (same_draws 0)).
Proof.
  apply (@stored_parameters_load_back cos_at_0 sin_at_0 pi_approx read_back shown
           stored_fs None CHECKPOINTS (same_draws 0) sim_params_path_v1).
  - unfold CHECKPOINTS. lia.
  - intros c Hc. unfold CHECKPOINTS in Hc.
    do 12 (destruct c as [|c]; [split; reflexivity|]). lia.
  - reflexivity.
Defined.

Lemma controller_input_ranges_witness :
  exists out,
    controller_input [1; 2; 3; 0; 5; 6; 7; 8; 9; 10; 11; 12; 13; 255; 128]%Z (0, 0, 0)
    = Ok out /\
    exists steer gas brake,
      polled_action out = (steer, gas, brake) /\
      - (128 # 127) <= steer /\ steer <= 1 /\
      0 <= gas /\ gas <= 1 /\ 0 <= brake /\ brake <= 1.
Proof.
  destruct (controller_input_ranges
              [1; 2; 3; 0; 5; 6; 7; 8; 9; 10; 11; 12; 13; 255; 128]%Z (0, 0, 0))
    as (_ & _ & H).
  destruct H as (out & Ho & _ & Hr).
  - simpl. lia.
  - repeat constructor; unfold byte; lia.
  - exists out. split; [exact Ho|].
    apply Hr; vm_compute in Ho; injection Ho as <-; reflexivity.
Defined.
